(** * s3-simple-benchmarker: the measurement and statistics engine

    A shallow embedding of [main.go] of
    [github.com/thekondor/s3-simple-benchmarker]: the statistics helpers
    [calculateAverage] and [calculateP90], the trial loops [uploadFiles] and
    [downloadFiles], and the driver [main], followed by the properties the
    specification states about them and by further properties of the code.

    Conventions of the embedding:
    - Go's [int], [int64] and [time.Duration] are [Z] with the 64-bit
      wrap-around written out ([wrap64]);
    - [float64] is the Standard Library's [spec_float] at precision 53 and
      maximal exponent 1024, so every floating-point operation of the source
      is computed bit for bit;
    - a Go slice passed to a function that writes to it is returned next to
      the function's result: the second component is the content of the
      caller's backing array after the call;
    - [panic], [log.Fatalf] and [os.Exit] end the program: they are the
      non-[Returned] constructors of [outcome];
    - the object store, the clock, the random source and the allocator
      that serves the buffer of the upload phase are an explicit world that
      every call threads through ([Backend]); the allocations that
      [append] makes for the series and those of the libraries are taken to
      succeed. *)

From Stdlib Require Import ZArith Lia Bool List Permutation Sorted.
From Stdlib Require Import SpecFloat.
From stdpp Require Import base tactics option list sorting strings pretty gmap.

Local Open Scope Z_scope.

(** ** How a Go computation ends *)

Inductive panic : Type :=
| UnsupportedType                        (* panic("Unsupported type") *)
| IntegerDivideByZero                    (* runtime error: integer divide by zero *)
| IndexOutOfRange (index len : Z)        (* runtime error: index out of range *)
| MakesliceLenOutOfRange                 (* runtime error: makeslice: len out of range *)
| OutOfMemory.                           (* fatal error: runtime: out of memory *)

Inductive fatal : Type :=
| ErrCreatingClient (err : string)
| UnableToUpload (key bucket err : string)
| UnableToDownload (key bucket err : string)
| UnableToReceive (key bucket err : string)
| UnmatchedSizes (actual expected : Z).

Inductive outcome (A : Type) : Type :=
| Returned (a : A)
| Panicked (p : panic)
| LogFatal (f : fatal)      (* log.Fatalf: message, then os.Exit(1) *)
| Exited (code : Z)         (* os.Exit *)
| Diverges.                 (* the loop never ends *)

Arguments Returned {A} a.
Arguments Panicked {A} p.
Arguments LogFatal {A} f.
Arguments Exited {A} code.
Arguments Diverges {A}.

Global Instance outcome_ret : MRet outcome := fun A a => Returned a.

Global Instance outcome_bind : MBind outcome := fun A B k m =>
  match m with
  | Returned a => k a
  | Panicked p => Panicked p
  | LogFatal f => LogFatal f
  | Exited c => Exited c
  | Diverges => Diverges
  end.

(** ** Machine integers *)

Definition minInt64 : Z := - 2 ^ 63.
Definition maxInt64 : Z := 2 ^ 63 - 1.

Definition int64_range (z : Z) : Prop := minInt64 <= z <= maxInt64.

(** Two's complement wrap-around of a 64-bit signed result. *)
Definition wrap64 (z : Z) : Z := (z + 2 ^ 63) mod 2 ^ 64 - 2 ^ 63.

(** [maxAlloc] of the Go runtime where the heap has 48 address bits (amd64,
    arm64): the largest number of bytes that [makeslice] passes on to the
    allocator. *)
Definition maxAlloc : Z := 2 ^ 48.

(** ** float64 *)

Definition float64 : Type := spec_float.

Definition f64_prec : Z := 53.
Definition f64_emax : Z := 1024.

Definition f64_mul : float64 -> float64 -> float64 := SFmul f64_prec f64_emax.
Definition f64_div : float64 -> float64 -> float64 := SFdiv f64_prec f64_emax.
Definition f64_add : float64 -> float64 -> float64 := SFadd f64_prec f64_emax.
Definition f64_lt : float64 -> float64 -> bool := SFltb.

(** [float64(n)] for an integer [n]: the nearest double, ties to even. *)
Definition float64_of_int (n : Z) : float64 :=
  binary_normalize f64_prec f64_emax n 0 false.

(** [int(f)]: the fraction is discarded.  For a value that is not finite the
    Go specification leaves the result to the implementation; amd64 yields
    the smallest integer. *)
Definition float64_to_int (f : float64) : Z :=
  match f with
  | S754_zero _ => 0
  | S754_finite s m e =>
      let magnitude :=
        if 0 <=? e then Z.pos m * 2 ^ e else Z.pos m / 2 ^ (- e) in
      if s then - magnitude else magnitude
  | S754_infinity _ | S754_nan => minInt64
  end.

(** The constant [0.9] as a float64: 0x3FECCCCCCCCCCCCD. *)
Definition f64_0_9 : float64 := S754_finite false 8106479329266893 (-53).

Definition f64_1024 : float64 := float64_of_int 1024.
Definition f64_1e9 : float64 := float64_of_int 1000000000.

Definition f64_pos_inf : float64 := S754_infinity false.

Definition is_nan (f : float64) : bool :=
  match f with S754_nan => true | _ => false end.

(** ** time.Duration *)

Definition Duration : Type := Z.

Definition Second : Duration := 1000000000.

(** [func subMono(t, u int64) Duration] of package time: the difference of
    two readings of the monotonic clock, kept within the range of a
    duration. *)
Definition subMono (t u : Z) : Duration :=
  let d := wrap64 (t - u) in
  if (d <? 0) && (u <? t) then maxInt64
  else if (0 <? d) && (t <? u) then minInt64
  else d.

(** [func (d Duration) Seconds() float64] of package time. *)
Definition Seconds (d : Duration) : float64 :=
  let sec := Z.quot d Second in
  let nsec := Z.rem d Second in
  f64_add (float64_of_int sec) (f64_div (float64_of_int nsec) f64_1e9).

(** ** sort.Slice

    [sort.Slice(values, less)] reorders [values] in place with the
    comparator [less].  The library sorts a range of at most twelve elements
    by insertion ([insertionSortLessFunc]):
<<
    for i := a + 1; i < b; i++ {
        for j := i; j > a && data.Less(j, j-1); j-- { data.Swap(j, j-1) }
    }
>>
    which is the algorithm modelled here for every length.  A longer range
    the library first partitions (pattern-defeating quicksort) and then
    finishes by the same insertion; with a comparator that orders the
    elements both leave the ascending arrangement of the slice, which is
    unique up to the order of elements that compare equal.  The comparator
    may panic, so sorting is a computation in [outcome]. *)

Section SortSlice.
Context {T : Type}.
Variable less : T -> T -> outcome bool.

(** The inner loop: [x] sits right of the sorted prefix, whose elements
    are given from right to left; it moves left while it is [less] than
    its left neighbour.  The result is the new prefix, right to left. *)
Fixpoint bubbleLeft (x : T) (rprefix : list T) : outcome (list T) :=
  match rprefix with
  | [] => Returned [x]
  | y :: rest =>
      b ← less x y;
      if b : bool
      then r ← bubbleLeft x rest; Returned (y :: r)
      else Returned (x :: y :: rest)
  end.

(** The outer loop over the elements not yet inserted. *)
Fixpoint insertionSort (rprefix todo : list T) : outcome (list T) :=
  match todo with
  | [] => Returned (rev rprefix)
  | x :: todo' =>
      rprefix' ← bubbleLeft x rprefix;
      insertionSort rprefix' todo'
  end.

Definition sort_Slice (values : list T) : outcome (list T) :=
  insertionSort [] values.
End SortSlice.

(** ** The statistics helpers *)

(** [func calculateAverage(times []time.Duration) time.Duration] *)
Definition calculateAverage (times : list Duration) : outcome Duration :=
  let totalTime := fold_left (fun total t => wrap64 (total + t)) times 0 in
  let n := Z.of_nat (length times) in
  if n =? 0 then Panicked IntegerDivideByZero
  else Returned (wrap64 (Z.quot totalTime n)).

(** The dynamic type of the slice handed to the generic [calculateP90]. *)
Inductive ElemType : Type -> Type :=
| TDuration : ElemType Duration
| TFloat64 : ElemType float64
| TOther (T : Type) : ElemType T.

(** The comparator closure of [calculateP90]: a type switch on the slice. *)
Definition lessOf {T : Type} (ty : ElemType T) : T -> T -> outcome bool :=
  match ty in ElemType T return T -> T -> outcome bool with
  | TDuration => fun a b => Returned (a <? b)
  | TFloat64 => fun a b => Returned (f64_lt a b)
  | TOther _ => fun _ _ => Panicked UnsupportedType
  end.

(** [int(0.9 * float64(len(values)))] *)
Definition p90Index (len : Z) : Z :=
  float64_to_int (f64_mul f64_0_9 (float64_of_int len)).

(** [values[i]] with its bounds check. *)
Definition index {T : Type} (values : list T) (i : Z) : outcome T :=
  if (0 <=? i) && (i <? Z.of_nat (length values))
  then match values !! Z.to_nat i with
       | Some v => Returned v
       | None => Panicked (IndexOutOfRange i (Z.of_nat (length values)))
       end
  else Panicked (IndexOutOfRange i (Z.of_nat (length values))).

(** [func calculateP90[T any](values []T) T].  The second component of the
    result is the caller's slice after the call. *)
Definition calculateP90 {T : Type} (ty : ElemType T) (values : list T)
  : outcome (T * list T) :=
  values' ← sort_Slice (lessOf ty) values;
  v ← index values' (p90Index (Z.of_nat (length values')));
  Returned (v, values').

(** ** The world: object store, clock and random source

    A computation that talks to the world is a function from the world
    before to an [outcome] and the world after.  The world survives a fatal
    end of the program: the objects already stored stay stored. *)

Definition M (W A : Type) : Type := W -> outcome A * W.

Global Instance M_ret {W} : MRet (M W) := fun A a w => (Returned a, w).

Global Instance M_bind {W} : MBind (M W) := fun A B k m w =>
  match m w with
  | (Returned a, w') => k a w'
  | (Panicked p, w') => (Panicked p, w')
  | (LogFatal f, w') => (LogFatal f, w')
  | (Exited c, w') => (Exited c, w')
  | (Diverges, w') => (Diverges, w')
  end.

(** A computation that does not touch the world. *)
Definition lift {W A} (o : outcome A) : M W A := fun w => (o, w).

(** A world operation that cannot fail. *)
Definition call {W A} (f : W -> A * W) : M W A :=
  fun w => let (a, w') := f w in (Returned a, w').

Definition log_Fatalf {W A} (f : fatal) : M W A := lift (LogFatal f).
Definition os_Exit {W A} (code : Z) : M W A := lift (Exited code).

(** The external collaborators.  [W] is the state of the world, [P] the
    type of the response stream that [GetObject] hands back. *)
Record Backend (W P : Type) : Type := {
  (** [minio.New(endpoint, options)]: [Some err] on failure. *)
  minio_New : string -> string -> string -> W -> option string * W;
  (** [crypto/rand.Read(data)]: the bytes that overwrite the buffer, by
      position. *)
  rand_Read : W -> (nat -> Byte.byte) * W;
  (** [time.Now()]: the monotonic clock, in nanoseconds. *)
  time_Now : W -> Z * W;
  (** [client.PutObject(ctx, bucket, key, reader, size, opts)]. *)
  PutObject : string -> string -> list Byte.byte -> Z -> W -> option string * W;
  (** [client.GetObject(ctx, bucket, key, opts)]. *)
  GetObject : string -> string -> W -> (string + P) * W;
  (** [io.Copy(io.Discard, payload)]: bytes drained, and the error if any. *)
  io_Copy_Discard : P -> W -> (Z * option string) * W;
  (** [mallocgc(size)], the allocator of the Go runtime behind [make], for a
      size that [makeslice] lets through: [false] when the operating system
      has no memory left for the request. *)
  mallocgc : Z -> W -> bool * W;
}.

Arguments minio_New {W P} _ _ _ _ _.
Arguments rand_Read {W P} _ _.
Arguments time_Now {W P} _ _.
Arguments PutObject {W P} _ _ _ _ _ _.
Arguments GetObject {W P} _ _ _ _.
Arguments io_Copy_Discard {W P} _ _ _.
Arguments mallocgc {W P} _ _ _.

(** [fmt.Sprintf("file-%d.dat", i)] *)
Definition objectKey (i : Z) : string := "file-" +:+ pretty i +:+ ".dat".

(** [float64(bytes) / duration.Seconds() / 1024 / 1024], in MB/s. *)
Definition speedMBps (bytes : Z) (duration : Duration) : float64 :=
  f64_div (f64_div (f64_div (float64_of_int bytes) (Seconds duration)) f64_1024)
          f64_1024.

(** The two sample series a trial loop appends to. *)
Record series : Type := mkSeries {
  times : list Duration;
  speeds : list float64;
}.

Record Flags : Type := mkFlags {
  endpoint : string;
  accessKey : string;
  secretKey : string;
  bucketName : string;
  fileSizeMb : Z;     (* -fileSize, default 10 *)
  trials : Z;         (* -trials, default 10 *)
}.

Record Report : Type := mkReport {
  Avg_DownloadTime : Duration;
  Avg_UploadTime : Duration;
  P90_UploadTime : Duration;
  P90_UploadSpeed : float64;
  P90_DownloadTime : Duration;
  P90_DownloadSpeed : float64;
}.

Definition accessKeyEnvVarName : string := "S3_ACCESS_KEY".
Definition secretKeyEnvVarName : string := "S3_SECRET_KEY".

Section TrialRunner.
Context {W P : Type}.
Variable B : Backend W P.

(** [time.Since(startTime)], on readings of the monotonic clock. *)
Definition time_Since (startTime : Z) : M W Duration :=
  now ← call (time_Now B); mret (subMono now startTime).

(** *** uploadFiles *)

(** One iteration of the loop of [uploadFiles], for the counter [i]. *)
Definition uploadTrial (bucketName : string) (fileSize : Z)
    (data : list Byte.byte) (acc : series) (i : Z)
  : M W (list Byte.byte * series) :=
  fresh ← call (rand_Read B);
  let data := map fresh (seq 0 (length data)) in
  let key := objectKey i in
  startTime ← call (time_Now B);
  err ← call (PutObject B bucketName key data (Z.of_nat (length data)));
  match err with
  | Some e => log_Fatalf (UnableToUpload key bucketName e)
  | None =>
      duration ← time_Since startTime;
      let uploadTimes := times acc ++ [duration] in
      let uploadSpeed := speedMBps fileSize duration in
      let uploadSpeeds := speeds acc ++ [uploadSpeed] in
      mret (data, mkSeries uploadTimes uploadSpeeds)
  end.

(** [for i := 1; i <= numFiles; i++ { ... }].  The counter is an [int]:
    it wraps at [maxInt64], so for [numFiles = maxInt64] the condition
    never fails; [fuel] bounds the number of iterations unrolled. *)
Fixpoint uploadLoop (fuel : nat) (bucketName : string) (fileSize numFiles : Z)
    (data : list Byte.byte) (acc : series) (i : Z) : M W series :=
  match fuel with
  | O => lift Diverges
  | S fuel' =>
      if i <=? numFiles then
        '(data', acc') ← uploadTrial bucketName fileSize data acc i;
        uploadLoop fuel' bucketName fileSize numFiles data' acc' (wrap64 (i + 1))
      else mret acc
  end.

(** [make([]byte, n)]: [makeslice] panics for a length that is negative or
    beyond [maxAlloc]; for any other length the allocator hands out [n] zero
    bytes, or the runtime stops the program with "out of memory". *)
Definition make_bytes (n : Z) : M W (list Byte.byte) :=
  if (n <? 0) || (maxAlloc <? n) then lift (Panicked MakesliceLenOutOfRange)
  else
    ok ← call (mallocgc B n);
    if ok : bool then mret (repeat Byte.x00 (Z.to_nat n))
    else lift (Panicked OutOfMemory).

(** [func uploadFiles(minioClient, bucketName, fileSize, numFiles)
     ([]time.Duration, []float64)] *)
Definition uploadFiles (bucketName : string) (fileSize numFiles : Z)
  : M W (list Duration * list float64) :=
  data ← make_bytes fileSize;
  acc ← uploadLoop (S (Z.to_nat numFiles)) bucketName fileSize numFiles
                   data (mkSeries [] []) 1;
  mret (times acc, speeds acc).

(** *** downloadFiles *)

Definition downloadTrial (bucketName : string) (expectedFileSize : Z)
    (acc : series) (i : Z) : M W series :=
  let key := objectKey i in
  startTime ← call (time_Now B);
  payload ← call (GetObject B bucketName key);
  match payload with
  | inl e => log_Fatalf (UnableToDownload key bucketName e)
  | inr payload =>
      '(payloadSize, err) ← call (io_Copy_Discard B payload);
      match err with
      | Some e => log_Fatalf (UnableToReceive key bucketName e)
      | None =>
          if negb (payloadSize =? expectedFileSize)
          then log_Fatalf (UnmatchedSizes payloadSize expectedFileSize)
          else
            duration ← time_Since startTime;
            let downloadTimes := times acc ++ [duration] in
            let downloadSpeed := speedMBps payloadSize duration in
            let downloadSpeeds := speeds acc ++ [downloadSpeed] in
            mret (mkSeries downloadTimes downloadSpeeds)
      end
  end.

Fixpoint downloadLoop (fuel : nat) (bucketName : string)
    (expectedFileSize numFiles : Z) (acc : series) (i : Z) : M W series :=
  match fuel with
  | O => lift Diverges
  | S fuel' =>
      if i <=? numFiles then
        acc' ← downloadTrial bucketName expectedFileSize acc i;
        downloadLoop fuel' bucketName expectedFileSize numFiles acc'
                     (wrap64 (i + 1))
      else mret acc
  end.

(** [func downloadFiles(minioClient, bucketName, expectedFileSize, numFiles)
     ([]time.Duration, []float64)] *)
Definition downloadFiles (bucketName : string) (expectedFileSize numFiles : Z)
  : M W (list Duration * list float64) :=
  acc ← downloadLoop (S (Z.to_nat numFiles)) bucketName expectedFileSize
                      numFiles (mkSeries [] []) 1;
  mret (times acc, speeds acc).

(** *** main *)

(** [func main()], from the parsed flags on; [getenv] is [os.Getenv]. *)
Definition main (getenv : string -> string) (flags : Flags) : M W Report :=
  let accessKey :=
    if String.eqb (accessKey flags) "" then getenv accessKeyEnvVarName
    else accessKey flags in
  let secretKey :=
    if String.eqb (secretKey flags) "" then getenv secretKeyEnvVarName
    else secretKey flags in
  if String.eqb (endpoint flags) "" || String.eqb accessKey ""
     || String.eqb secretKey "" || String.eqb (bucketName flags) ""
  then os_Exit 1
  else
    let fileSizeMb := wrap64 (fileSizeMb flags * (1024 * 1024)) in
    err ← call (minio_New B (endpoint flags) accessKey secretKey);
    match err with
    | Some e => log_Fatalf (ErrCreatingClient e)
    | None =>
        '(uploadTimes, uploadSpeeds) ←
          uploadFiles (bucketName flags) fileSizeMb (trials flags);
        '(downloadTimes, downloadSpeeds) ←
          downloadFiles (bucketName flags) fileSizeMb (trials flags);
        avgUploadTime ← lift (calculateAverage uploadTimes);
        avgDownloadTime ← lift (calculateAverage downloadTimes);
        '(p90UploadTime, uploadTimes) ← lift (calculateP90 TDuration uploadTimes);
        '(p90UploadSpeed, uploadSpeeds) ← lift (calculateP90 TFloat64 uploadSpeeds);
        '(p90DownloadTime, downloadTimes) ←
          lift (calculateP90 TDuration downloadTimes);
        '(p90DownloadSpeed, downloadSpeeds) ←
          lift (calculateP90 TFloat64 downloadSpeeds);
        mret {| Avg_DownloadTime := avgDownloadTime;
                Avg_UploadTime := avgUploadTime;
                P90_UploadTime := p90UploadTime;
                P90_UploadSpeed := p90UploadSpeed;
                P90_DownloadTime := p90DownloadTime;
                P90_DownloadSpeed := p90DownloadSpeed |}
    end.
End TrialRunner.

(** ** Observing the calls to the object store

    [recording B] behaves as [B] and keeps, next to the world, the list of
    the store operations performed so far. *)

Inductive event : Type :=
| EvPut (bucket key : string) (size : Z)
| EvGet (bucket key : string)
| EvDrained (size : Z) (err : option string).

Definition recording {W P : Type} (B : Backend W P)
  : Backend (W * list event) P :=
  {| minio_New e a s wl :=
       let (r, w') := minio_New B e a s wl.1 in (r, (w', wl.2));
     rand_Read wl :=
       let (r, w') := rand_Read B wl.1 in (r, (w', wl.2));
     time_Now wl :=
       let (r, w') := time_Now B wl.1 in (r, (w', wl.2));
     PutObject b k d n wl :=
       let (r, w') := PutObject B b k d n wl.1 in
       (r, (w', wl.2 ++ [EvPut b k n]));
     GetObject b k wl :=
       let (r, w') := GetObject B b k wl.1 in
       (r, (w', wl.2 ++ [EvGet b k]));
     io_Copy_Discard p wl :=
       let (r, w') := io_Copy_Discard B p wl.1 in
       (r, (w', wl.2 ++ [EvDrained r.1 r.2]));
     mallocgc n wl :=
       let (r, w') := mallocgc B n wl.1 in (r, (w', wl.2)) |}.




(** ** A reference world: an object store in memory

    Every operation succeeds, an object read back is the object stored, and
    each store operation takes [latency] nanoseconds on the clock.  The
    machine has [memory] bytes for the buffer of the upload phase. *)

Record MemWorld : Type := mkMemWorld {
  objects : gmap (string * string) (list Byte.byte);
  clock : Z;
  entropy : nat;
}.

Section MemStore.
Variable latency : Z.
Variable noise : nat -> nat -> Byte.byte.
Variable memory : Z.

Definition memBackend : Backend MemWorld (list Byte.byte) :=
  {| minio_New _ _ _ w := (None, w);
     rand_Read w :=
       (noise (entropy w), mkMemWorld (objects w) (clock w) (S (entropy w)));
     time_Now w := (clock w, w);
     PutObject b k d _ w :=
       (None, mkMemWorld (<[(b, k) := d]> (objects w)) (clock w + latency)
                         (entropy w));
     GetObject b k w :=
       (match objects w !! (b, k) with
        | Some d => inr d
        | None => inl "The specified key does not exist."
        end, w);
     io_Copy_Discard d w :=
       ((Z.of_nat (length d), None),
        mkMemWorld (objects w) (clock w + latency) (entropy w));
     mallocgc n w := (n <=? memory, w) |}.

End MemStore.

Definition memEmpty : MemWorld := mkMemWorld ∅ 0 0.

(** A store that never fails: every object has [size] bytes and every
    store operation takes [latency] nanoseconds.  The world is the clock.
    The machine has 16 GiB for the buffer of the upload phase. *)
Definition steadyBackend (size latency : Z) : Backend Z unit :=
  {| minio_New _ _ _ w := (None, w);
     rand_Read w := (fun _ => Byte.x00, w);
     time_Now w := (w, w);
     PutObject _ _ _ _ w := (None, w + latency);
     GetObject _ _ w := (inr tt, w);
     io_Copy_Discard _ w := ((size, None), w + latency);
     mallocgc n w := (n <=? 2 ^ 34, w) |}.

Definition testFlags (size n : Z) : Flags :=
  mkFlags "play.min.io" "key" "secret" "bench" size n.


(** ** The vocabulary of the properties *)

(** The comparison that the type switch of [calculateP90] selects for a
    supported slice type. *)
Definition ltbOf {T : Type} (ty : ElemType T) : T -> T -> bool :=
  match ty in ElemType T return T -> T -> bool with
  | TDuration => Z.ltb
  | TFloat64 => f64_lt
  | TOther _ => fun _ _ => false
  end.

(** The values that the comparison orders: every duration, and every
    float64 but NaN.  No value of another type is. *)
Definition comparable {T : Type} (ty : ElemType T) : T -> Prop :=
  match ty in ElemType T return T -> Prop with
  | TDuration => fun _ => True
  | TFloat64 => fun f => is_nan f = false
  | TOther _ => fun _ => False
  end.

(** Go's [==] on the values of a supported type. *)
Definition sameValue {T : Type} (ty : ElemType T) : T -> T -> Prop :=
  match ty in ElemType T return T -> T -> Prop with
  | TDuration => eq
  | TFloat64 => fun a b => SFeqb a b = true
  | TOther _ => eq
  end.

(** [a] may stand before [b] in ascending order: [b] is not less than [a].
    This is what [sort.Slice] establishes between any two positions. *)
Definition ascending {T : Type} (ltb : T -> T -> bool) : relation T :=
  fun a b => ltb b a = false.
Definition descending {T : Type} (ltb : T -> T -> bool) : relation T :=
  fun a b => ltb a b = false.

(** How many elements satisfy [f]. *)
Definition countb {T : Type} (f : T -> bool) (l : list T) : nat :=
  length (List.filter f l).

(** The bytes that the [n]-th reading of the random source puts in a buffer
    of [size] bytes. *)
Definition noiseBlock (noise : nat -> nat -> Byte.byte) (size n : nat)
  : list Byte.byte :=
  map (noise n) (seq 0 size).

(** The size in bytes that [main] derives from the [-fileSize] flag. *)
Definition fileSizeBytes (flags : Flags) : Z :=
  wrap64 (fileSizeMb flags * (1024 * 1024)).

(** The total of a series of durations, as a mathematical integer. *)
Definition totalSum (times : list Duration) : Z := foldr Z.add 0 times.

(** The nearest-rank index of the specification: floor(0.9 * count). *)
Definition floorRank (count : nat) : nat := Z.to_nat (9 * Z.of_nat count / 10).

(** The credentials that [main] uses: the flag, or the environment
    variable when the flag is empty. *)
Definition effectiveAccessKey (getenv : string -> string) (flags : Flags)
  : string :=
  if String.eqb (accessKey flags) "" then getenv accessKeyEnvVarName
  else accessKey flags.

Definition effectiveSecretKey (getenv : string -> string) (flags : Flags)
  : string :=
  if String.eqb (secretKey flags) "" then getenv secretKeyEnvVarName
  else secretKey flags.

(** The flags with the credentials that [main] uses written in. *)
Definition withCredentials (getenv : string -> string) (flags : Flags) : Flags :=
  mkFlags (endpoint flags) (effectiveAccessKey getenv flags)
          (effectiveSecretKey getenv flags) (bucketName flags)
          (fileSizeMb flags) (trials flags).

(** Kinds of store events. *)
Definition isPut (e : event) : Prop :=
  match e with EvPut _ _ _ => True | _ => False end.

(** A float64 that is a number, not negative and not infinite. *)
Definition finiteNonNeg (f : float64) : Prop :=
  match f with
  | S754_zero false => True
  | S754_finite false _ _ => True
  | _ => False
  end.

(** How a computation ends, without the value it returns. *)
Definition ending {A : Type} (o : outcome A) : outcome unit :=
  match o with
  | Returned _ => Returned tt
  | Panicked p => Panicked p
  | LogFatal f => LogFatal f
  | Exited c => Exited c
  | Diverges => Diverges
  end.

(** The ways in which the trial loops on [bucket] end. *)
Definition uploadEnding (bucket : string) (o : outcome unit) : Prop :=
  match o with
  | Returned _ | Diverges => True
  | LogFatal (UnableToUpload _ b _) => b = bucket
  | _ => False
  end.

Definition downloadEnding (bucket : string) (o : outcome unit) : Prop :=
  match o with
  | Returned _ | Diverges => True
  | LogFatal (UnableToDownload _ b _) | LogFatal (UnableToReceive _ b _) =>
      b = bucket
  | LogFatal (UnmatchedSizes _ _) => True
  | _ => False
  end.

(** The ways in which the statistics stage ends. *)
Definition statisticsEnding (o : outcome unit) : Prop :=
  match o with
  | Returned _ => True
  | Panicked IntegerDivideByZero | Panicked (IndexOutOfRange _ _) => True
  | _ => False
  end.

(** The configuration that [main] requires: endpoint, both credentials and
    bucket are given. *)
Definition configured (getenv : string -> string) (flags : Flags) : bool :=
  negb (String.eqb (endpoint flags) "" ||
        String.eqb (effectiveAccessKey getenv flags) "" ||
        String.eqb (effectiveSecretKey getenv flags) "" ||
        String.eqb (bucketName flags) "").

(** The statistics stage of [main]: the report computed from the four
    series. *)
Definition statistics (uploadTimes : list Duration) (uploadSpeeds : list float64)
    (downloadTimes : list Duration) (downloadSpeeds : list float64)
  : outcome Report :=
  avgUploadTime ← calculateAverage uploadTimes;
  avgDownloadTime ← calculateAverage downloadTimes;
  '(p90UploadTime, uploadTimes) ← calculateP90 TDuration uploadTimes;
  '(p90UploadSpeed, uploadSpeeds) ← calculateP90 TFloat64 uploadSpeeds;
  '(p90DownloadTime, downloadTimes) ← calculateP90 TDuration downloadTimes;
  '(p90DownloadSpeed, downloadSpeeds) ← calculateP90 TFloat64 downloadSpeeds;
  Returned {| Avg_DownloadTime := avgDownloadTime;
              Avg_UploadTime := avgUploadTime;
              P90_UploadTime := p90UploadTime;
              P90_UploadSpeed := p90UploadSpeed;
              P90_DownloadTime := p90DownloadTime;
              P90_DownloadSpeed := p90DownloadSpeed |}.

(** The ways in which [main] ends. *)
Definition mainEnding (bucket : string) (o : outcome unit) : Prop :=
  match o with
  | Returned _ | Diverges => True
  | Exited c => c = 1
  | Panicked UnsupportedType => False
  | Panicked _ => True
  | LogFatal (ErrCreatingClient _) | LogFatal (UnmatchedSizes _ _) => True
  | LogFatal (UnableToUpload _ b _) | LogFatal (UnableToDownload _ b _)
  | LogFatal (UnableToReceive _ b _) => b = bucket
  end.

(** The store events of the successful trials [i], ..., [i + k - 1] of a
    phase, for objects of [size] bytes. *)
Definition putEvents (bucket : string) (size i k : Z) : list event :=
  map (fun j => EvPut bucket (objectKey j) size) (seqZ i k).

Definition getEvents (bucket : string) (size i k : Z) : list event :=
  flat_map (fun j => [EvGet bucket (objectKey j); EvDrained size None])
           (seqZ i k).

(** The way a download trial fails: the events of the failing trial [i]
    and the fatal error that ends the program. *)
Definition downloadFailure (bucket : string) (expected i : Z)
    (tail : list event) (f : fatal) : Prop :=
  (tail = [EvGet bucket (objectKey i)] ∧
   ∃ e, f = UnableToDownload (objectKey i) bucket e) ∨
  (∃ sz e, tail = [EvGet bucket (objectKey i); EvDrained sz (Some e)] ∧
           f = UnableToReceive (objectKey i) bucket e) ∨
  (∃ sz, tail = [EvGet bucket (objectKey i); EvDrained sz None] ∧
         sz <> expected ∧ f = UnmatchedSizes sz expected).

(** A normal float64 of sign [s]: 53 significant bits, and an exponent
    between [lo] and [hi]; its magnitude lies between 2^(lo+52) and
    2^(hi+53). *)
Definition normalF (s : bool) (lo hi : Z) (f : float64) : Prop :=
  ∃ (m : positive) (e : Z),
    f = S754_finite s m e ∧ Z.pos (digits2_pos m) = 53 ∧ lo <= e <= hi.

(** * Properties *)

(** ** float64: rounding to 53 bits *)

Lemma digits2_pos_bounds (m : positive) :
  2 ^ (Z.pos (digits2_pos m) - 1) <= Z.pos m < 2 ^ Z.pos (digits2_pos m).
Proof.
  induction m as [m IH | m IH |]; cbn [digits2_pos].
  - rewrite Pos2Z.inj_succ.
    replace (Z.succ (Z.pos (digits2_pos m)) - 1) with (Z.succ (Z.pos (digits2_pos m) - 1)) by lia.
    rewrite !Z.pow_succ_r by lia. lia.
  - rewrite Pos2Z.inj_succ.
    replace (Z.succ (Z.pos (digits2_pos m)) - 1) with (Z.succ (Z.pos (digits2_pos m) - 1)) by lia.
    rewrite !Z.pow_succ_r by lia. lia.
  - cbn. lia.
Qed.

Lemma digits2_pos_unique (m : positive) (d : Z) :
  2 ^ (d - 1) <= Z.pos m < 2 ^ d -> Z.pos (digits2_pos m) = d.
Proof.
  intros [Hlo Hhi].
  pose proof (digits2_pos_bounds m) as [Hlo' Hhi'].
  assert (0 < d).
  { destruct (Z.ltb_spec 0 d); [done|]. 
    assert (2 ^ d <= 2 ^ 0) by (apply Z.pow_le_mono_r; lia). simpl in *. lia. }
  destruct (Z.lt_trichotomy (Z.pos (digits2_pos m)) d) as [Hlt | [Heq | Hgt]]; [|done|].
  - assert (2 ^ Z.pos (digits2_pos m) <= 2 ^ (d - 1)) by (apply Z.pow_le_mono_r; lia). lia.
  - assert (2 ^ d <= 2 ^ (Z.pos (digits2_pos m) - 1)) by (apply Z.pow_le_mono_r; lia). lia.
Qed.

Lemma shr_1_m (mrs : shr_record) :
  0 <= shr_m mrs -> shr_m (shr_1 mrs) = shr_m mrs / 2.
Proof.
  destruct mrs as [m r s]; cbn [shr_m]; intros Hm.
  destruct m as [| p | p]; [reflexivity | | lia].
  destruct p as [p | p |]; cbn [shr_1 shr_m].
  - rewrite Pos2Z.inj_xI. apply Z.div_unique with (r := 1); lia.
  - rewrite Pos2Z.inj_xO. apply Z.div_unique with (r := 0); lia.
  - reflexivity.
Qed.

Lemma pow2_xO (p : positive) : 2 ^ Z.pos p~0 = 2 ^ Z.pos p * 2 ^ Z.pos p.
Proof. rewrite <- Z.pow_add_r by lia. f_equal. lia. Qed.

Lemma pow2_xI (p : positive) : 2 ^ Z.pos p~1 = 2 * (2 ^ Z.pos p * 2 ^ Z.pos p).
Proof.
  rewrite <- Z.pow_add_r by lia.
  rewrite <- (Z.pow_succ_r 2 (Z.pos p + Z.pos p)) by lia. f_equal. lia.
Qed.

Lemma iter_pos_shr_1_m (p : positive) (mrs : shr_record) :
  0 <= shr_m mrs ->
  shr_m (SpecFloat.iter_pos shr_1 p mrs) = shr_m mrs / 2 ^ Z.pos p.
Proof.
  revert mrs; induction p as [p IH | p IH |]; intros mrs Hm;
    cbn [SpecFloat.iter_pos].
  - assert (H1 : 0 <= shr_m (shr_1 mrs))
      by (rewrite shr_1_m by done; apply Z.div_pos; lia).
    assert (H2 : 0 <= shr_m (SpecFloat.iter_pos shr_1 p (shr_1 mrs)))
      by (rewrite IH by done; apply Z.div_pos; lia).
    rewrite IH, IH, shr_1_m by done.
    rewrite !Z.div_div by lia. rewrite pow2_xI. f_equal; lia.
  - assert (H2 : 0 <= shr_m (SpecFloat.iter_pos shr_1 p mrs))
      by (rewrite IH by done; apply Z.div_pos; lia).
    rewrite IH, IH by done.
    rewrite !Z.div_div by lia. rewrite pow2_xO. reflexivity.
  - rewrite shr_1_m by done. reflexivity.
Qed.

Lemma round_nearest_even_bounds (m : Z) (l : location) :
  m <= round_nearest_even m l <= m + 1.
Proof.
  destruct l as [| []]; cbn [round_nearest_even]; try lia.
  destruct (Z.even m); lia.
Qed.

Lemma fexp_normal (x : Z) : -1021 <= x -> fexp 53 1024 x = x - 53.
Proof. intros Hx. unfold fexp, emin. lia. Qed.

Lemma binary_round_aux_exact (sx : bool) (M : positive) (e : Z) :
  Z.pos (digits2_pos M) = 53 -> -1074 <= e <= 971 ->
  binary_round_aux 53 1024 sx (Z.pos M) e loc_Exact = S754_finite sx M e.
Proof.
  intros Hd He.
  unfold binary_round_aux, shr_fexp. cbn [Zdigits2 shr_record_of_loc].
  rewrite Hd, fexp_normal by lia.
  replace (53 + e - 53 - e) with 0 by lia.
  cbn [shr shr_m loc_of_shr_record round_nearest_even Zdigits2 shr_record_of_loc].
  rewrite Hd, fexp_normal by lia.
  replace (53 + e - 53 - e) with 0 by lia.
  cbn [shr shr_m].
  destruct (Z.leb_spec e (1024 - 53)); [reflexivity | lia].
Qed.

Lemma binary_round_aux_pos (sx : bool) (M : positive) (e : Z) :
  let s := Z.pos (digits2_pos M) - 53 in
  0 <= s -> -1074 <= e + s < 971 ->
  exists (m' : positive) (e' : Z),
    binary_round_aux 53 1024 sx (Z.pos M) e loc_Exact = S754_finite sx m' e' /\
    e + s <= e' <= e + s + 1 /\
    Z.pos M / 2 ^ s <= Z.pos m' * 2 ^ (e' - (e + s)) <= Z.pos M / 2 ^ s + 1.
Proof.
  intros s Hs He.
  destruct (Z.eq_dec s 0) as [Hs0 | Hs0].
  { exists M, e. rewrite binary_round_aux_exact by lia.
    rewrite Hs0, Z.add_0_r, Z.sub_diag. rewrite Z.pow_0_r, Z.div_1_r. split; [done | lia]. }
  pose proof (digits2_pos_bounds M) as [HMlo HMhi].
  assert (Hm0 : 2 ^ 52 <= Z.pos M / 2 ^ s < 2 ^ 53).
  { split.
    - apply Z.div_le_lower_bound; [lia|].
      rewrite Z.mul_comm, <- Z.pow_add_r by lia.
      replace (52 + s) with (Z.pos (digits2_pos M) - 1) by lia. done.
    - apply Z.div_lt_upper_bound; [lia|].
      rewrite <- Z.pow_add_r by lia.
      replace (s + 53) with (Z.pos (digits2_pos M)) by lia. done. }
  destruct s as [| sp |] eqn:Es; [done | | lia].
  set (r1 := SpecFloat.iter_pos shr_1 sp
               {| shr_m := Z.pos M; shr_r := false; shr_s := false |}).
  assert (Hr1 : shr_m r1 = Z.pos M / 2 ^ Z.pos sp)
    by (unfold r1; rewrite iter_pos_shr_1_m; cbn [shr_m]; [done | lia]).
  pose proof (round_nearest_even_bounds (shr_m r1) (loc_of_shr_record r1)) as Hm1.
  destruct (round_nearest_even (shr_m r1) (loc_of_shr_record r1))
    as [| q |] eqn:Eq; [lia | | lia].
  rewrite Hr1 in Hm1.
  assert (Hfirst : shr_fexp 53 1024 (Z.pos M) e loc_Exact = (r1, e + Z.pos sp)).
  { unfold shr_fexp. cbn [Zdigits2 shr_record_of_loc].
    rewrite fexp_normal by lia.
    replace (Z.pos (digits2_pos M) + e - 53 - e) with (Z.pos sp) by lia.
    reflexivity. }
  unfold binary_round_aux. rewrite Hfirst, Eq.
  unfold shr_fexp. cbn [Zdigits2 shr_record_of_loc].
  destruct (Z.eq_dec (Z.pos q) (2 ^ 53)) as [Hq | Hq].
  - assert (q = 9007199254740992%positive) as -> by lia.
    exists 4503599627370496%positive, (e + Z.pos sp + 1).
    change (Z.pos (digits2_pos 9007199254740992)) with 54.
    rewrite fexp_normal by lia.
    replace (54 + (e + Z.pos sp) - 53 - (e + Z.pos sp)) with 1 by lia.
    cbn [shr SpecFloat.iter_pos shr_1 shr_m].
    destruct (Z.leb_spec (e + Z.pos sp + 1) (1024 - 53)); [|lia].
    split; [reflexivity|]. split; [lia|].
    replace (e + Z.pos sp + 1 - (e + Z.pos sp)) with 1 by lia.
    lia.
  - assert (Hd : Z.pos (digits2_pos q) = 53)
      by (apply digits2_pos_unique; lia).
    exists q, (e + Z.pos sp).
    rewrite Hd, fexp_normal by lia.
    replace (53 + (e + Z.pos sp) - 53 - (e + Z.pos sp)) with 0 by lia.
    cbn [shr shr_m].
    destruct (Z.leb_spec (e + Z.pos sp) (1024 - 53)); [|lia].
    split; [reflexivity|]. split; [lia|].
    rewrite Z.sub_diag, Z.pow_0_r. lia.
Qed.

Lemma Pos_iter_xO (m k : positive) :
  Z.pos (Pos.iter xO m k) = Z.pos m * 2 ^ Z.pos k.
Proof.
  induction k as [| k IH] using Pos.peano_ind.
  - cbn [Pos.iter]. lia.
  - rewrite Pos.iter_succ, Pos2Z.inj_xO, IH, Pos2Z.inj_succ, Z.pow_succ_r by lia.
    lia.
Qed.

(** An integer below 2^53 converts exactly: the mantissa is the integer
    shifted left until it has 53 digits. *)
Lemma float64_of_int_exact (n : positive) :
  let d := Z.pos (digits2_pos n) in
  d <= 53 ->
  exists m : positive,
    float64_of_int (Z.pos n) = S754_finite false m (d - 53) /\
    Z.pos m = Z.pos n * 2 ^ (53 - d) /\
    Z.pos (digits2_pos m) = 53.
Proof.
  intros d Hd.
  pose proof (digits2_pos_bounds n) as [Hlo Hhi]. fold d in Hlo, Hhi.
  unfold float64_of_int, binary_normalize, binary_round.
  rewrite Z.add_0_r, fexp_normal by lia. fold d.
  unfold shl_align. rewrite Z.sub_0_r.
  destruct (d - 53) as [| p | p] eqn:Ed; [| lia |].
  - exists n. replace (53 - d) with 0 by lia.
    rewrite Z.pow_0_r, Z.mul_1_r.
    rewrite binary_round_aux_exact by (fold d; lia).
    repeat split; fold d; lia.
  - assert (Hshift : Z.pos (Pos.iter xO n p) = Z.pos n * 2 ^ (53 - d))
      by (rewrite Pos_iter_xO; f_equal; f_equal; lia).
    assert (Hdig : Z.pos (digits2_pos (Pos.iter xO n p)) = 53).
    { apply digits2_pos_unique. rewrite Hshift. split.
      - replace (53 - 1) with ((d - 1) + (53 - d)) by lia.
        rewrite Z.pow_add_r by lia. nia.
      - replace 53 with (d + (53 - d)) at 2 by lia.
        rewrite Z.pow_add_r by lia. nia. }
    exists (Pos.iter xO n p).
    rewrite binary_round_aux_exact by lia.
    repeat split; lia.
Qed.

Lemma pow2_le (a b : Z) : 0 <= a <= b -> 2 ^ a <= 2 ^ b.
Proof. intros. apply Z.pow_le_mono_r; lia. Qed.

Lemma p90Index_floor (n : Z) : 0 <= n < 2 ^ 49 -> p90Index n = 9 * n / 10.
Proof.
  intros [Hn0 Hn].
  destruct n as [| n |]; [reflexivity | | lia].
  pose proof (digits2_pos_bounds n) as [Hlo Hhi].
  set (d := Z.pos (digits2_pos n)) in *.
  assert (Hd : 1 <= d <= 49).
  { split; [unfold d; lia|].
    destruct (Z.leb_spec d 49); [done|].
    pose proof (pow2_le 49 (d - 1)). lia. }
  destruct (float64_of_int_exact n) as (m & Hf & Hm & Hdm); [fold d; lia|].
  fold d in Hf, Hm.
  unfold p90Index, f64_0_9, f64_mul, f64_prec, f64_emax. rewrite Hf.
  cbn [SFmul xorb].
  set (M := (8106479329266893 * m)%positive).
  pose proof (digits2_pos_bounds m) as [Hmlo Hmhi]. rewrite Hdm in Hmlo, Hmhi.
  pose proof (digits2_pos_bounds M) as [HMlo HMhi].
  set (D := Z.pos (digits2_pos M)) in *.
  assert (HM : Z.pos M = 8106479329266893 * Z.pos m) by (unfold M; lia).
  assert (HD : 105 <= D <= 106).
  { split.
    - destruct (Z.leb_spec 105 D); [done|].
      pose proof (pow2_le D 104). assert (1 <= D) by (unfold D; lia). lia.
    - destruct (Z.leb_spec D 106); [done|].
      pose proof (pow2_le 106 (D - 1)). lia. }
  destruct (binary_round_aux_pos false M (-53 + (d - 53)))
    as (m' & e' & Hres & He' & Hval); [fold D; lia | fold D; lia |].
  fold D in He', Hval. rewrite Hres. cbn [float64_to_int].
  destruct (Z.leb_spec 0 e') as [? | _]; [lia|].
  set (s := D - 53) in *.
  set (k := - (-53 + (d - 53) + s)).
  set (j := e' - (-53 + (d - 53) + s)) in *.
  set (A := 2 ^ (53 - d)). set (B := 2 ^ s).
  assert (HA : 16 <= A) by (apply (pow2_le 4 (53 - d)); lia).
  assert (HB : 0 < B <= 2 ^ 53)
    by (split; [apply Z.pow_pos_nonneg; lia | apply (pow2_le s 53); lia]).
  assert (HX : 2 ^ k * B = 2 ^ 53 * A).
  { unfold A, B. rewrite <- !Z.pow_add_r by lia. f_equal. lia. }
  assert (Hk : 0 < 2 ^ k) by (apply Z.pow_pos_nonneg; lia).
  assert (Hj : 0 < 2 ^ j) by (apply Z.pow_pos_nonneg; lia).
  (* the truncated quotient, brought to the scale of the rounded mantissa *)
  assert (Hquot : Z.pos m' / 2 ^ (- e') = (Z.pos m' * 2 ^ j) / 2 ^ k).
  { replace k with (- e' + j) by lia.
    rewrite Z.pow_add_r by lia. rewrite Z.div_mul_cancel_r by lia. done. }
  rewrite Hquot.
  set (m1 := Z.pos m' * 2 ^ j) in *.
  set (m0 := Z.pos M / B) in *.
  change (Z.pos M / 2 ^ s) with m0 in Hval.
  assert (Hm0 : B * m0 <= Z.pos M < B * (m0 + 1)).
  { unfold m0. split; [apply Z.mul_div_le; lia|].
    pose proof (Z.mul_succ_div_gt (Z.pos M) B). lia. }
  set (q := 9 * Z.pos n / 10).
  assert (Hq : 0 <= 9 * Z.pos n - 10 * q <= 9).
  { unfold q. pose proof (Z.mul_div_le (9 * Z.pos n) 10).
    pose proof (Z.mul_succ_div_gt (9 * Z.pos n) 10). lia. }
  set (r := 9 * Z.pos n - 10 * q) in *.
  set (nA := Z.pos n * A).
  assert (HnA : Z.pos m = nA) by (unfold nA, A; done).
  assert (HqX : 9 * (2 ^ 53 * nA) = 10 * (q * (2 ^ k * B)) + r * (2 ^ k * B)).
  { rewrite HX. unfold nA, r. ring. }
  assert (HrX : 0 <= r * (2 ^ k * B) <= 9 * (2 ^ k * B)) by nia.
  symmetry. apply Z.div_unique with (r := m1 - q * 2 ^ k).
  2: lia.
  left. split.
  - (* q * 2^k <= m0 <= m1 *)
    enough (q * 2 ^ k <= m0) by lia.
    destruct (Z.leb_spec (q * 2 ^ k) m0) as [? | Hc]; [done | exfalso].
    assert (B * (m0 + 1) <= B * (q * 2 ^ k))
      by (apply Z.mul_le_mono_nonneg_l; lia).
    replace (B * (q * 2 ^ k)) with (q * (2 ^ k * B)) in * by ring.
    lia.
  - (* m1 <= m0 + 1 < (q + 1) * 2^k *)
    enough (m0 + 1 < (q + 1) * 2 ^ k) by lia.
    destruct (Z.ltb_spec (m0 + 1) ((q + 1) * 2 ^ k)) as [? | Hc]; [done | exfalso].
    assert (B * ((q + 1) * 2 ^ k - 1) <= B * m0)
      by (apply Z.mul_le_mono_nonneg_l; lia).
    replace (B * ((q + 1) * 2 ^ k - 1))
      with (q * (2 ^ k * B) + 2 ^ k * B - B) in * by ring.
    lia.
Qed.

(** ** sort.Slice with a comparator that does not panic *)

Section SortSpec.
Context {T : Type}.
Variable ltb : T -> T -> bool.

Let less : T -> T -> outcome bool := fun a b => Returned (ltb a b).

Local Abbreviation ascending := (ascending ltb).
Local Abbreviation descending := (descending ltb).
Local Abbreviation countb := (@countb T).

Lemma bubbleLeft_cons (x y : T) (rest : list T) :
  bubbleLeft less x (y :: rest) =
  if ltb x y then r ← bubbleLeft less x rest; Returned (y :: r)
  else Returned (x :: y :: rest).
Proof. reflexivity. Qed.

Lemma insertionSort_cons (x : T) (rprefix todo : list T) :
  insertionSort less rprefix (x :: todo) =
  rprefix' ← bubbleLeft less x rprefix; insertionSort less rprefix' todo.
Proof. reflexivity. Qed.

Lemma bubbleLeft_returns (x : T) (rprefix : list T) :
  ∃ r, bubbleLeft less x rprefix = Returned r ∧ r ≡ₚ x :: rprefix.
Proof.
  induction rprefix as [| y rest IH].
  - by exists [x].
  - rewrite bubbleLeft_cons. destruct (ltb x y).
    + destruct IH as (r & -> & Hr). exists (y :: r). split; [done|].
      rewrite Hr. apply perm_swap.
    + by exists (x :: y :: rest).
Qed.

Lemma insertionSort_returns (todo rprefix : list T) :
  ∃ s, insertionSort less rprefix todo = Returned s ∧ s ≡ₚ rprefix ++ todo.
Proof.
  revert rprefix; induction todo as [| x todo IH]; intros rprefix.
  - exists (rev rprefix). split; [done|].
    by rewrite app_nil_r, <- Permutation_rev.
  - rewrite insertionSort_cons.
    destruct (bubbleLeft_returns x rprefix) as (r & -> & Hr).
    destruct (IH r) as (s & Hret & Hs). exists s. split; [done|].
    rewrite Hs, Hr. apply Permutation_middle.
Qed.

(** Sorting reorders: whatever the comparator answers, the slice after
    the call holds the elements it held before. *)
Lemma sort_Slice_returns (values : list T) :
  ∃ s, sort_Slice less values = Returned s ∧ s ≡ₚ values.
Proof. apply (insertionSort_returns values []). Qed.

(** A slice already in ascending order is left as it is. *)
Lemma insertionSort_ascending (todo rprefix : list T) :
  StronglySorted ascending (rev rprefix ++ todo) ->
  insertionSort less rprefix todo = Returned (rev rprefix ++ todo).
Proof.
  revert rprefix; induction todo as [| x todo IH]; intros rprefix Hs.
  - by rewrite app_nil_r.
  - rewrite insertionSort_cons.
    assert (Hb : bubbleLeft less x rprefix = Returned (x :: rprefix)).
    { destruct rprefix as [| y rest]; [done|]. rewrite bubbleLeft_cons.
      assert (Hxy : ltb x y = false).
      { apply (StronglySorted_app_1_elem_of _ _ _ y x Hs).
        - apply list_elem_of_In. apply -> in_rev. by left.
        - by left. }
      by rewrite Hxy. }
    rewrite Hb. change (insertionSort less (x :: rprefix) todo =
                        Returned (rev rprefix ++ x :: todo)).
    rewrite IH; cbn [rev]; rewrite <- app_assoc; done.
Qed.

Variable valid : T -> Prop.
Hypothesis ltb_asym :
  forall x y, valid x -> valid y -> ltb x y = true -> ltb y x = false.
Hypothesis ltb_negtrans :
  forall x y z, valid x -> valid y -> valid z ->
    ltb y x = false -> ltb z y = false -> ltb z x = false.

Lemma bubbleLeft_sorted (x : T) (rprefix r : list T) :
  valid x -> Forall valid rprefix ->
  StronglySorted descending rprefix ->
  bubbleLeft less x rprefix = Returned r ->
  StronglySorted descending r.
Proof.
  intros Hx. revert r; induction rprefix as [| y rest IH];
    intros r Hv Hs Hr.
  - injection Hr as <-. repeat constructor.
  - apply Forall_cons in Hv as [Hy Hv].
    apply StronglySorted_cons in Hs as [Hyrest Hs].
    rewrite bubbleLeft_cons in Hr. destruct (ltb x y) eqn:Hxy.
    + destruct (bubbleLeft_returns x rest) as (r' & Hr' & Hperm).
      rewrite Hr' in Hr. injection Hr as <-.
      apply StronglySorted_cons. split; [|by apply IH].
      rewrite Hperm. constructor; [|done].
      by apply ltb_asym.
    + injection Hr as <-. apply StronglySorted_cons. split.
      * constructor; [done|].
        rewrite Forall_forall in Hyrest, Hv |- *. intros z Hz.
        unfold descending. apply ltb_negtrans with (y := y); auto.
        by apply Hyrest.
      * by apply StronglySorted_cons.
Qed.

Lemma StronglySorted_rev_descending (l : list T) :
  StronglySorted descending l -> StronglySorted ascending (rev l).
Proof.
  induction 1 as [| x l Hs IH Hx]; cbn [rev]; [constructor|].
  apply StronglySorted_app_2; [| done | repeat constructor].
  intros a b Ha Hb. apply list_elem_of_singleton in Hb as ->.
  rewrite Forall_forall in Hx. apply Hx.
  apply list_elem_of_In. apply in_rev. by apply list_elem_of_In.
Qed.

Lemma insertionSort_sorted (todo rprefix s : list T) :
  Forall valid rprefix -> Forall valid todo ->
  StronglySorted descending rprefix ->
  insertionSort less rprefix todo = Returned s ->
  StronglySorted ascending s.
Proof.
  revert rprefix s; induction todo as [| x todo IH];
    intros rprefix s Hvp Hvt Hs Hr.
  - injection Hr as <-. by apply StronglySorted_rev_descending.
  - apply Forall_cons in Hvt as [Hx Hvt]. rewrite insertionSort_cons in Hr.
    destruct (bubbleLeft_returns x rprefix) as (r & Hr' & Hperm).
    rewrite Hr' in Hr.
    apply (IH r s); [| done | | done].
    + rewrite Hperm. by constructor.
    + by apply (bubbleLeft_sorted x rprefix).
Qed.

(** For a comparator that orders the elements, the slice after the call
    is the ascending arrangement of the slice before. *)
Lemma sort_Slice_sorts (values : list T) :
  Forall valid values ->
  ∃ s, sort_Slice less values = Returned s ∧ s ≡ₚ values ∧
       StronglySorted ascending s.
Proof.
  intros Hv. destruct (sort_Slice_returns values) as (s & Hs & Hperm).
  exists s. split_and!; [done | done |].
  apply (insertionSort_sorted values [] s); auto; constructor.
Qed.
(** *** The rank of an element of a sorted slice *)

Lemma countb_app (f : T -> bool) (l1 l2 : list T) :
  countb f (l1 ++ l2) = (countb f l1 + countb f l2)%nat.
Proof. unfold countb. by rewrite List.filter_app, length_app. Qed.

Lemma countb_perm (f : T -> bool) (l1 l2 : list T) :
  l1 ≡ₚ l2 -> countb f l1 = countb f l2.
Proof.
  unfold countb. induction 1 as [| x l l' _ IH | x y l | l l' l'' _ IH1 _ IH2];
    cbn [List.filter]; [done | | | congruence].
  - destruct (f x); cbn [length]; congruence.
  - destruct (f x), (f y); done.
Qed.

Lemma countb_none (f : T -> bool) (l : list T) :
  Forall (fun x => f x = false) l -> countb f l = 0%nat.
Proof.
  unfold countb. induction 1 as [| x l Hx _ IH]; [done|].
  cbn [List.filter]. by rewrite Hx.
Qed.

Lemma countb_all (f : T -> bool) (l : list T) :
  Forall (fun x => f x = true) l -> countb f l = length l.
Proof.
  unfold countb. induction 1 as [| x l Hx _ IH]; [done|].
  cbn [List.filter]. rewrite Hx. cbn [length]. congruence.
Qed.

Lemma countb_le_length (f : T -> bool) (l : list T) :
  (countb f l <= length l)%nat.
Proof. apply List.filter_length_le. Qed.

Lemma countb_mono (f g : T -> bool) (l : list T) :
  Forall valid l ->
  (forall x, valid x -> f x = true -> g x = true) ->
  (countb f l <= countb g l)%nat.
Proof.
  intros Hv Hfg. unfold countb.
  induction Hv as [| x l Hx _ IH]; [done|]. cbn [List.filter].
  destruct (f x) eqn:Hf.
  - rewrite (Hfg x Hx Hf). cbn [length]. lia.
  - destruct (g x); cbn [length]; lia.
Qed.

Lemma ltb_irrefl (x : T) : valid x -> ltb x x = false.
Proof.
  intros Hx. destruct (ltb x x) eqn:E; [|done].
  by rewrite (ltb_asym x x Hx Hx E) in E.
Qed.

(** In an ascending slice fewer than [i + 1] elements are less than the
    element at index [i], and more than [i] are not greater. *)
Lemma sorted_rank (s : list T) (i : nat) (v : T) :
  Forall valid s -> StronglySorted ascending s -> s !! i = Some v ->
  (countb (fun x => ltb x v) s <= i < countb (fun x => negb (ltb v x)) s)%nat.
Proof.
  intros Hv Hs Hi.
  destruct (list_elem_of_split_length s i v Hi) as (l & r & -> & ->).
  apply StronglySorted_app in Hs as (Hlr & _ & Hvr).
  apply StronglySorted_cons in Hvr as [Hvr _].
  assert (Hvv : ltb v v = false).
  { apply ltb_irrefl. rewrite Forall_forall in Hv. apply Hv.
    apply list_elem_of_In, in_elt. }
  rewrite !countb_app. split.
  - rewrite (countb_none _ (v :: r)).
    + pose proof (countb_le_length (fun x => ltb x v) l). lia.
    + constructor; [done|]. by apply (Forall_impl _ _ _ Hvr).
  - rewrite (countb_all _ l).
    + unfold countb. cbn [List.filter]. rewrite Hvv. cbn [negb length]. lia.
    + apply Forall_forall. intros a Ha.
      rewrite (Hlr a v Ha); [done | by left].
Qed.

(** Two ascending arrangements of the same elements agree, index by
    index, up to elements that the comparator does not tell apart. *)
Lemma sorted_perm_lookup (s1 s2 : list T) (i : nat) (v1 v2 : T) :
  Forall valid s1 -> s1 ≡ₚ s2 ->
  StronglySorted ascending s1 -> StronglySorted ascending s2 ->
  s1 !! i = Some v1 -> s2 !! i = Some v2 ->
  ltb v1 v2 = false.
Proof.
  intros Hv1 Hperm Hs1 Hs2 Hi1 Hi2.
  assert (Hv2 : Forall valid s2) by (by rewrite <- Hperm).
  assert (valid v1 ∧ valid v2) as [Hvv1 Hvv2].
  { rewrite Forall_forall in Hv1, Hv2.
    split; [apply Hv1 | apply Hv2]; by eapply list_elem_of_lookup_2. }
  destruct (ltb v1 v2) eqn:E; [exfalso | done].
  pose proof (sorted_rank s1 i v1 Hv1 Hs1 Hi1) as [_ H1].
  pose proof (sorted_rank s2 i v2 Hv2 Hs2 Hi2) as [H2 _].
  rewrite <- (countb_perm _ s1 s2 Hperm) in H2.
  pose proof (countb_mono (fun x => negb (ltb v1 x)) (fun x => ltb x v2)
                s1 Hv1) as Hmono.
  enough (countb (fun x => negb (ltb v1 x)) s1
          <= countb (fun x => ltb x v2) s1)%nat by lia.
  apply Hmono. intros x Hx Hn.
  destruct (ltb x v2) eqn:Hxv2; [done | exfalso].
  apply negb_true_iff in Hn.
  by rewrite (ltb_negtrans v2 x v1 Hvv2 Hx Hvv1 Hxv2 Hn) in E.
Qed.
End SortSpec.

(** ** The order of float64 values *)

Ltac compare_facts :=
  repeat match goal with
  | H : PosDef.Pos.compare_cont Eq ?a ?b = ?c |- _ =>
      change (Pos.compare a b = c) in H
  | H : (_ ?= _)%Z = Lt |- _ => rewrite Z.compare_lt_iff in H
  | H : (_ ?= _)%Z = Gt |- _ => rewrite Z.compare_gt_iff in H
  | H : (_ ?= _)%Z = Eq |- _ => rewrite Z.compare_eq_iff in H
  | H : (_ ?= _)%positive = Lt |- _ => rewrite Pos.compare_lt_iff in H
  | H : (_ ?= _)%positive = Gt |- _ => rewrite Pos.compare_gt_iff in H
  | H : (_ ?= _)%positive = Eq |- _ => rewrite Pos.compare_eq_iff in H
  end.

Ltac float_order :=
  unfold f64_lt, SFltb, SFeqb, SFcompare, CompOpp, is_nan in *;
  repeat case_match; simplify_eq/=; try done; compare_facts;
  try lia; try (exfalso; lia).

Lemma f64_lt_asym (x y : float64) :
  is_nan x = false -> is_nan y = false ->
  f64_lt x y = true -> f64_lt y x = false.
Proof. intros Hx Hy H. destruct x, y; float_order. Qed.

Lemma f64_lt_negtrans (x y z : float64) :
  is_nan x = false -> is_nan y = false -> is_nan z = false ->
  f64_lt y x = false -> f64_lt z y = false -> f64_lt z x = false.
Proof. intros Hx Hy Hz H1 H2. destruct x, y, z; float_order. Qed.

Lemma f64_not_lt_eq (x y : float64) :
  is_nan x = false -> is_nan y = false ->
  f64_lt x y = false -> f64_lt y x = false -> SFeqb x y = true.
Proof. intros Hx Hy H1 H2. destruct x, y; float_order. Qed.

(** Every positive [int] converts to a positive finite float64. *)
Lemma float64_of_int_pos (n : Z) :
  0 < n <= maxInt64 ->
  exists (m : positive) (e : Z), float64_of_int n = S754_finite false m e.
Proof.
  intros [Hn0 Hn]. unfold maxInt64 in Hn.
  destruct n as [| n |]; [lia | | lia].
  pose proof (digits2_pos_bounds n) as [Hlo Hhi].
  set (d := Z.pos (digits2_pos n)) in *.
  assert (Hd : 1 <= d <= 63).
  { split; [unfold d; lia|].
    destruct (Z.leb_spec d 63); [done|].
    pose proof (pow2_le 63 (d - 1)). lia. }
  destruct (Z.leb_spec d 53) as [Hsmall | Hbig].
  - destruct (float64_of_int_exact n) as (m & Hm & _); [fold d; lia|].
    eauto.
  - unfold float64_of_int, binary_normalize, binary_round.
    rewrite Z.add_0_r, fexp_normal by lia. fold d.
    unfold shl_align. rewrite Z.sub_0_r.
    destruct (d - 53) as [| p | p] eqn:Ed; [lia | | lia].
    destruct (binary_round_aux_pos false n 0) as (m & e & Hm & _);
      [fold d; lia | fold d; lia |].
    eauto.
Qed.


(** A transfer of a positive number of bytes in zero elapsed time has
    speed +Infinity. *)
Lemma speedMBps_zero_elapsed (bytes : Z) :
  0 < bytes <= maxInt64 -> speedMBps bytes 0 = f64_pos_inf.
Proof.
  intros Hb. destruct (float64_of_int_pos bytes Hb) as (m & e & Hm).
  unfold speedMBps. rewrite Hm.
  change (Seconds 0) with (S754_zero false).
  reflexivity.
Qed.

(** ** calculateAverage *)

Lemma wrap64_id (z : Z) : int64_range z -> wrap64 z = z.
Proof.
  unfold int64_range, minInt64, maxInt64, wrap64. intros Hz.
  rewrite Z.mod_small by lia. lia.
Qed.

Lemma wrap64_add_l (a b : Z) : wrap64 (wrap64 a + b) = wrap64 (a + b).
Proof.
  unfold wrap64. f_equal.
  replace ((a + 2 ^ 63) mod 2 ^ 64 - 2 ^ 63 + b + 2 ^ 63)
    with ((a + 2 ^ 63) mod 2 ^ 64 + b) by lia.
  rewrite Zplus_mod_idemp_l. f_equal. lia.
Qed.

(** Wrapping after every addition is wrapping the total once. *)
Lemma fold_wrap64 (times : list Duration) (a : Z) :
  fold_left (fun total t => wrap64 (total + t)) times (wrap64 a)
  = wrap64 (a + totalSum times).
Proof.
  revert a; induction times as [| t times IH]; intros a; cbn [fold_left].
  - unfold totalSum. cbn. by rewrite Z.add_0_r.
  - rewrite wrap64_add_l, IH. f_equal. unfold totalSum. cbn. lia.
Qed.

(** Go's [/] on integers truncates toward zero. *)
Lemma quot_truncates (a n : Z) :
  0 < n ->
  Z.abs (a - n * Z.quot a n) < n ∧
  (0 <= a -> 0 <= n * Z.quot a n <= a) ∧
  (a <= 0 -> a <= n * Z.quot a n <= 0).
Proof.
  intros Hn.
  assert (Hpos : forall b, 0 <= b ->
            0 <= n * Z.quot b n <= b ∧ b - n * Z.quot b n < n).
  { intros b Hb. pose proof (Z.quot_rem' b n).
    pose proof (Z.rem_bound_pos b n Hb Hn).
    pose proof (Z.quot_pos b n Hb Hn). nia. }
  destruct (Z.le_gt_cases 0 a) as [Ha | Ha].
  - destruct (Hpos a Ha). lia.
  - destruct (Hpos (- a)) as [H1 H2]; [lia|].
    rewrite Z.quot_opp_l in H1, H2 by lia. lia.
Qed.

Lemma calculateAverage_wraps (times : list Duration) :
  times <> [] ->
  calculateAverage times =
  Returned (Z.quot (wrap64 (totalSum times)) (Z.of_nat (length times))).
Proof.
  intros Hne. unfold calculateAverage.
  assert (Hn : 0 < Z.of_nat (length times)) by (destruct times; [done | cbn; lia]).
  destruct (Z.eqb_spec (Z.of_nat (length times)) 0) as [? | _]; [lia|].
  change 0 with (wrap64 0) at 1. rewrite fold_wrap64, Z.add_0_l.
  f_equal. apply wrap64_id.
  assert (Hw : int64_range (wrap64 (totalSum times))).
  { unfold int64_range, minInt64, maxInt64, wrap64.
    pose proof (Z.mod_pos_bound (totalSum times + 2 ^ 63) (2 ^ 64)). lia. }
  set (w := wrap64 (totalSum times)) in *.
  unfold int64_range, minInt64, maxInt64 in *.
  destruct (quot_truncates w (Z.of_nat (length times)) Hn) as (_ & Hp & Hm).
  nia.
Qed.

(** C5, as stated, fails: the total is accumulated in an int64 and wraps
    around.  For the largest duration and one nanosecond the total divided
    by the count is 2^62; calculateAverage returns -2^62. *)
Lemma calculateAverage_overflow_is_not_the_mean :
  [maxInt64; 1] <> [] ∧
  calculateAverage [maxInt64; 1] = Returned (- 2 ^ 62) ∧
  Z.quot (totalSum [maxInt64; 1]) (Z.of_nat (length [maxInt64; 1])) = 2 ^ 62.
Proof. split; [done|]. split; reflexivity. Qed.

(** C5, amended: for a non-empty series of durations whose total fits the
    int64 representation of a duration, calculateAverage returns the total
    divided by the count: the exact quotient when the count divides the
    total, and otherwise the quotient truncated toward zero, less than one
    count away from the total. *)
Theorem calculateAverage_is_truncated_mean (times : list Duration) :
  times <> [] ->
  int64_range (totalSum times) ->
  ∃ avg : Duration,
    calculateAverage times = Returned avg ∧
    avg = Z.quot (totalSum times) (Z.of_nat (length times)) ∧
    ((Z.of_nat (length times) | totalSum times) ->
       avg * Z.of_nat (length times) = totalSum times) ∧
    Z.abs (totalSum times - avg * Z.of_nat (length times))
      < Z.of_nat (length times) ∧
    (0 <= totalSum times ->
       0 <= avg * Z.of_nat (length times) <= totalSum times) ∧
    (totalSum times <= 0 ->
       totalSum times <= avg * Z.of_nat (length times) <= 0).
Proof.
  intros Hne Hfit.
  set (n := Z.of_nat (length times)).
  assert (Hn : 0 < n) by (destruct times; [done | subst n; cbn; lia]).
  exists (Z.quot (totalSum times) n).
  rewrite calculateAverage_wraps, wrap64_id by done. fold n.
  destruct (quot_truncates (totalSum times) n Hn) as (Habs & Hp & Hm).
  split_and!; [done | done | | lia | lia | lia].
  intros [k Hk]. rewrite Hk, Z.quot_mul by lia. done.
Qed.

Lemma calculateAverage_is_truncated_mean_witness :
  [10000000; 20000000; 30000001] <> [] ∧
  int64_range (totalSum [10000000; 20000000; 30000001]) ∧
  ∃ avg : Duration,
    calculateAverage [10000000; 20000000; 30000001] = Returned avg ∧
    avg = 20000000.
Proof.
  split; [done|]. split; [unfold int64_range, minInt64, maxInt64; cbn; lia|].
  destruct (calculateAverage_is_truncated_mean [10000000; 20000000; 30000001])
    as (avg & Hret & Havg & _).
  - done.
  - unfold int64_range, minInt64, maxInt64; cbn; lia.
  - exists avg. split; [done|]. rewrite Havg. reflexivity.
Defined.

(** ** calculateP90 *)

Lemma floorRank_lt (n : nat) : (0 < n)%nat -> (floorRank n < n)%nat.
Proof.
  intros Hn. unfold floorRank.
  assert (9 * Z.of_nat n / 10 < Z.of_nat n)
    by (apply Z.div_lt_upper_bound; lia).
  assert (0 <= 9 * Z.of_nat n / 10) by (apply Z.div_pos; lia).
  lia.
Qed.

(** The index that the source computes in floating point is the floor of
    nine tenths of the length. *)
Lemma p90Index_floorRank (n : nat) :
  Z.of_nat n < 2 ^ 49 -> p90Index (Z.of_nat n) = Z.of_nat (floorRank n).
Proof.
  intros Hn. rewrite p90Index_floor by lia. unfold floorRank.
  rewrite Z2Nat.id; [done|]. apply Z.div_pos; lia.
Qed.

Lemma index_lookup {T : Type} (values : list T) (i : nat) (v : T) :
  values !! i = Some v -> index values (Z.of_nat i) = Returned v.
Proof.
  intros Hi. pose proof (lookup_lt_Some _ _ _ Hi) as Hlt. unfold index.
  destruct (Z.leb_spec 0 (Z.of_nat i)); [|lia].
  destruct (Z.ltb_spec (Z.of_nat i) (Z.of_nat (length values))); [|lia].
  cbn [andb]. by rewrite Nat2Z.id, Hi.
Qed.

Section P90Spec.
Context {T : Type} (ty : ElemType T).
Variable ltb : T -> T -> bool.
Hypothesis lessOf_ty : lessOf ty = fun a b => Returned (ltb a b).

(** With a comparator that answers, [calculateP90] returns the element at
    the floor rank of the slice as [sort.Slice] leaves it. *)
Lemma calculateP90_returns (values : list T) :
  values <> [] -> Z.of_nat (length values) < 2 ^ 49 ->
  ∃ v s,
    sort_Slice (fun a b => Returned (ltb a b)) values = Returned s ∧
    calculateP90 ty values = Returned (v, s) ∧
    s ≡ₚ values ∧
    s !! floorRank (length values) = Some v.
Proof.
  intros Hne Hlen.
  destruct (sort_Slice_returns ltb values) as (s & Hs & Hperm).
  assert (Hlen' : length s = length values) by (by rewrite Hperm).
  assert (Hrank : (floorRank (length values) < length s)%nat).
  { rewrite Hlen'. apply floorRank_lt. destruct values; [done | cbn; lia]. }
  destruct (lookup_lt_is_Some_2 s _ Hrank) as [v Hv].
  exists v, s. split_and!; [done | | done | done].
  unfold calculateP90. rewrite lessOf_ty, Hs.
  change ((v' ← index s (p90Index (Z.of_nat (length s))); Returned (v', s))
          = Returned (v, s)).
  rewrite Hlen', p90Index_floorRank by done.
  by rewrite (index_lookup s _ v Hv).
Qed.
End P90Spec.

(** The comparison of a supported slice type orders its comparable
    values. *)
Lemma order_of_supported {T : Type} (ty : ElemType T) (x0 : T) :
  comparable ty x0 ->
  lessOf ty = (fun a b => Returned (ltbOf ty a b)) ∧
  (forall x y, comparable ty x -> comparable ty y ->
     ltbOf ty x y = true -> ltbOf ty y x = false) ∧
  (forall x y z, comparable ty x -> comparable ty y -> comparable ty z ->
     ltbOf ty y x = false -> ltbOf ty z y = false -> ltbOf ty z x = false) ∧
  (forall x y, comparable ty x -> comparable ty y ->
     ltbOf ty x y = false -> ltbOf ty y x = false -> sameValue ty x y).
Proof.
  revert x0. destruct ty as [| | T]; cbn [comparable lessOf ltbOf sameValue];
    intros x0 Hx0; [| | done].
  - split_and!; [done | intros; lia | intros; lia | intros; lia].
  - split_and!; [done | | |].
    + apply f64_lt_asym.
    + apply f64_lt_negtrans.
    + apply f64_not_lt_eq.
Qed.

Lemma ascending_Duration (a b : Duration) :
  ascending (ltbOf TDuration) a b <-> a <= b.
Proof. unfold ascending. cbn [ltbOf]. lia. Qed.

(** What [calculateP90] does on a slice of comparable values: it leaves the
    slice sorted ascending and returns the element at the floor rank, which
    is, up to [==], the element at that rank of any ascending arrangement of
    the input. *)
Lemma calculateP90_sorted_rank {T : Type} (ty : ElemType T) (values : list T) :
  values <> [] ->
  Forall (comparable ty) values ->
  Z.of_nat (length values) < 2 ^ 49 ->
  ∃ (v : T) (sorted : list T),
    sort_Slice (lessOf ty) values = Returned sorted ∧
    calculateP90 ty values = Returned (v, sorted) ∧
    sorted ≡ₚ values ∧
    StronglySorted (ascending (ltbOf ty)) sorted ∧
    sorted !! floorRank (length values) = Some v ∧
    (forall s, s ≡ₚ values -> StronglySorted (ascending (ltbOf ty)) s ->
       ∃ v', s !! floorRank (length values) = Some v' ∧ sameValue ty v v').
Proof.
  intros Hne Hcmp Hlen.
  assert (∃ x0, comparable ty x0) as [x0 Hx0].
  { destruct values as [| x0 rest]; [done|].
    apply Forall_cons in Hcmp as [? _]. eauto. }
  destruct (order_of_supported ty x0 Hx0) as (Hless & Hasym & Hneg & Hsame).
  destruct (calculateP90_returns ty (ltbOf ty) Hless values Hne Hlen)
    as (v & s & Hsort & Hret & Hperm & Hlook).
  assert (Hcmps : Forall (comparable ty) s) by (by rewrite Hperm).
  assert (Hsorted : StronglySorted (ascending (ltbOf ty)) s).
  { destruct (sort_Slice_sorts (ltbOf ty) (comparable ty) Hasym Hneg values Hcmp)
      as (s' & Hs' & _ & Hsorted').
    rewrite Hs' in Hsort. by injection Hsort as <-. }
  assert (Hvs : v ∈ s) by (by eapply list_elem_of_lookup_2).
  assert (Hvcmp : comparable ty v)
    by (rewrite Forall_forall in Hcmps; by apply Hcmps).
  exists v, s. split_and!; [by rewrite Hless | done | done | done | done |].
  intros s2 Hperm2 Hsorted2.
  assert (Hperm12 : s ≡ₚ s2) by (by rewrite Hperm, Hperm2).
  assert (Hcmp2 : Forall (comparable ty) s2) by (by rewrite Hperm2).
  destruct (lookup_lt_is_Some_2 s2 (floorRank (length values))) as [v' Hv'].
  { rewrite <- Hperm12. by eapply lookup_lt_Some. }
  exists v'. split; [done|].
  assert (comparable ty v').
  { rewrite Forall_forall in Hcmp2. apply Hcmp2.
    by eapply list_elem_of_lookup_2. }
  apply Hsame; [done | done | |].
  - by apply (sorted_perm_lookup (ltbOf ty) (comparable ty) Hasym Hneg
                s s2 (floorRank (length values))).
  - by apply (sorted_perm_lookup (ltbOf ty) (comparable ty) Hasym Hneg
                s2 s (floorRank (length values))).
Qed.



(** C9, as stated, fails: NaN is less than nothing and nothing is less
    than it, so the comparison does not order a series that holds one, and
    the element that ends at the index depends on where the NaN stood. *)
Lemma calculateP90_NaN_order_dependent :
  [float64_of_int 1; S754_nan] ≡ₚ [S754_nan; float64_of_int 1] ∧
  calculateP90 TFloat64 [float64_of_int 1; S754_nan]
    = Returned (S754_nan, [float64_of_int 1; S754_nan]) ∧
  calculateP90 TFloat64 [S754_nan; float64_of_int 1]
    = Returned (float64_of_int 1, [S754_nan; float64_of_int 1]).
Proof. split; [apply perm_swap|]. split; reflexivity. Qed.

(** C9, amended: for a non-empty series of durations, or of float64 values
    none of which is NaN, with fewer than 2^49 elements, and for every
    permutation of it, calculateP90 returns on both the same value: the same
    duration, and float64 values that are equal ([==]). *)
Theorem calculateP90_permutation_invariant {T : Type} (ty : ElemType T)
    (values values' : list T) :
  values <> [] ->
  Forall (comparable ty) values ->
  Z.of_nat (length values) < 2 ^ 49 ->
  values ≡ₚ values' ->
  ∃ (v v' : T) (sorted sorted' : list T),
    calculateP90 ty values = Returned (v, sorted) ∧
    calculateP90 ty values' = Returned (v', sorted') ∧
    sameValue ty v v'.
Proof.
  intros Hne Hcmp Hlen Hperm.
  assert (Hne' : values' <> []).
  { intros ->. by apply Permutation_nil_r in Hperm. }
  assert (Hcmp' : Forall (comparable ty) values') by (by rewrite <- Hperm).
  assert (Hlen' : Z.of_nat (length values') < 2 ^ 49) by (by rewrite <- Hperm).
  destruct (calculateP90_sorted_rank ty values Hne Hcmp Hlen)
    as (v & s & _ & Hret & _ & _ & _ & Hany).
  destruct (calculateP90_sorted_rank ty values' Hne' Hcmp' Hlen')
    as (v' & s' & _ & Hret' & Hperm' & Hsorted' & Hlook' & _).
  exists v, v', s, s'. split_and!; [done | done |].
  destruct (Hany s') as (v'' & Hlook'' & Hsame);
    [by rewrite Hperm', Hperm | done |].
  rewrite <- Hperm, Hlook'' in Hlook'. by injection Hlook' as <-.
Qed.

Lemma calculateP90_permutation_invariant_witness :
  [30000000; 10000000; 20000000] <> [] ∧
  Forall (comparable TDuration) [30000000; 10000000; 20000000] ∧
  Z.of_nat (length [30000000; 10000000; 20000000]) < 2 ^ 49 ∧
  [30000000; 10000000; 20000000] ≡ₚ [20000000; 30000000; 10000000] ∧
  ∃ (v v' : Duration) (sorted sorted' : list Duration),
    calculateP90 TDuration [30000000; 10000000; 20000000] = Returned (v, sorted) ∧
    calculateP90 TDuration [20000000; 30000000; 10000000] = Returned (v', sorted') ∧
    v = v'.
Proof.
  assert (Hperm : [30000000; 10000000; 20000000]
                  ≡ₚ [20000000; 30000000; 10000000]).
  { etransitivity; [apply perm_skip, perm_swap | apply perm_swap]. }
  split; [done|]. split; [repeat constructor|]. split; [cbn; lia|].
  split; [exact Hperm|].
  apply (calculateP90_permutation_invariant TDuration
           [30000000; 10000000; 20000000] [20000000; 30000000; 10000000]);
    [done | repeat constructor | cbn; lia | exact Hperm].
Defined.

(** The two zeros are equal and are not ordered: which of them is returned
    depends on the order of the input, and either is the same value. *)
Example calculateP90_signed_zeros :
  calculateP90 TFloat64 [S754_zero false; S754_zero true]
    = Returned (S754_zero true, [S754_zero false; S754_zero true]) ∧
  calculateP90 TFloat64 [S754_zero true; S754_zero false]
    = Returned (S754_zero false, [S754_zero true; S754_zero false]) ∧
  sameValue TFloat64 (S754_zero true) (S754_zero false).
Proof. split_and!; reflexivity. Qed.

(** C2, as stated, fails: the slice the caller passed is reordered. *)
Lemma calculateP90_reorders_callers_slice :
  calculateP90 TDuration [3; 1; 2] = Returned (3, [1; 2; 3]) ∧
  [1; 2; 3] <> [3; 1; 2].
Proof. split; [reflexivity | discriminate]. Qed.

(** C2, amended: calculateP90 sorts the caller's slice itself, without a
    copy: after the call the caller's series holds the same elements in
    ascending order, so it is unchanged exactly when it was ascending
    already. *)
Theorem calculateP90_sorts_in_place {T : Type} (ty : ElemType T)
    (values : list T) :
  values <> [] ->
  Forall (comparable ty) values ->
  Z.of_nat (length values) < 2 ^ 49 ->
  ∃ (v : T) (values' : list T),
    calculateP90 ty values = Returned (v, values') ∧
    values' ≡ₚ values ∧
    StronglySorted (ascending (ltbOf ty)) values' ∧
    (values' = values <-> StronglySorted (ascending (ltbOf ty)) values).
Proof.
  intros Hne Hcmp Hlen.
  destruct (calculateP90_sorted_rank ty values Hne Hcmp Hlen)
    as (v & s & Hsort & Hret & Hperm & Hsorted & _).
  exists v, s. split_and!; [done | done | done |].
  split; [by intros <- |]. intros Hasc.
  assert (∃ x0, comparable ty x0) as [x0 Hx0].
  { destruct values as [| x0 rest]; [done|].
    apply Forall_cons in Hcmp as [? _]. eauto. }
  destruct (order_of_supported ty x0 Hx0) as (Hless & _).
  rewrite Hless in Hsort. unfold sort_Slice in Hsort.
  rewrite (insertionSort_ascending (ltbOf ty) values []) in Hsort by done.
  by injection Hsort as <-.
Qed.

Lemma calculateP90_sorts_in_place_witness :
  [3; 1; 2] <> [] ∧
  Forall (comparable TDuration) [3; 1; 2] ∧
  Z.of_nat (length [3; 1; 2]) < 2 ^ 49 ∧
  ∃ (v : Duration) (values' : list Duration),
    calculateP90 TDuration [3; 1; 2] = Returned (v, values') ∧
    values' ≡ₚ [3; 1; 2] ∧
    StronglySorted (ascending (ltbOf TDuration)) values'.
Proof.
  split; [done|]. split; [repeat constructor|]. split; [cbn; lia|].
  destruct (calculateP90_sorts_in_place TDuration [3; 1; 2])
    as (v & values' & Hret & Hperm & Hsorted & _);
    [done | repeat constructor | cbn; lia |].
  exists v, values'. split; [exact Hret|]. split; [exact Hperm | exact Hsorted].
Defined.

(** C10: on a slice whose element type is neither time.Duration nor
    float64, calculateP90 panics with "Unsupported type" as soon as the
    slice has two elements, the comparator being called; on a slice of a
    single element of any type it returns that element, the comparator
    never being called. *)
Theorem calculateP90_unsupported_type {T : Type} (values : list T) :
  (2 <= length values)%nat ->
  calculateP90 (TOther T) values = Panicked UnsupportedType ∧
  (forall (ty : ElemType T) (x : T), calculateP90 ty [x] = Returned (x, [x])).
Proof.
  intros Hlen. split.
  - destruct values as [| x [| y rest]]; [cbn in Hlen; lia.. |]. reflexivity.
  - intros ty x. reflexivity.
Qed.

Lemma calculateP90_unsupported_type_witness :
  (2 <= length ["a"; "b"; "c"])%nat ∧
  calculateP90 (TOther string) ["a"; "b"; "c"] = Panicked UnsupportedType ∧
  calculateP90 (TOther string) ["a"] = Returned ("a", ["a"]).
Proof.
  split; [cbn; lia|].
  destruct (calculateP90_unsupported_type ["a"; "b"; "c"]) as [Hpanic Hone];
    [cbn; lia|].
  split; [exact Hpanic | apply Hone].
Defined.

(** ** The trial loops *)

Section TrialSpec.
Context {W P : Type}.
Variable B : Backend W P.

(** One upload trial, written out on the operations of the world. *)
Lemma uploadTrial_eq (bucket : string) (fileSize : Z) (data : list Byte.byte)
    (acc : series) (i : Z) (w : W) :
  uploadTrial B bucket fileSize data acc i w =
  let '(fresh, w1) := rand_Read B w in
  let data' := map fresh (seq 0 (length data)) in
  let '(t0, w2) := time_Now B w1 in
  let '(err, w3) :=
    PutObject B bucket (objectKey i) data' (Z.of_nat (length data')) w2 in
  match err with
  | Some e => (LogFatal (UnableToUpload (objectKey i) bucket e), w3)
  | None =>
      let '(t1, w4) := time_Now B w3 in
      (Returned (data',
                 mkSeries (times acc ++ [subMono t1 t0])
                          (speeds acc ++ [speedMBps fileSize (subMono t1 t0)])), w4)
  end.
Proof.
  unfold uploadTrial, time_Since, call, log_Fatalf, lift, mbind, M_bind, mret,
    M_ret.
  destruct (rand_Read B w) as [fresh w1].
  destruct (time_Now B w1) as [t0 w2].
  destruct (PutObject B bucket (objectKey i) _ _ w2) as [[e |] w3]; [done|].
  by destruct (time_Now B w3) as [t1 w4].
Qed.

(** One download trial, written out on the operations of the world. *)
Lemma downloadTrial_eq (bucket : string) (expected : Z) (acc : series) (i : Z)
    (w : W) :
  downloadTrial B bucket expected acc i w =
  let '(t0, w1) := time_Now B w in
  let '(r, w2) := GetObject B bucket (objectKey i) w1 in
  match r with
  | inl e => (LogFatal (UnableToDownload (objectKey i) bucket e), w2)
  | inr payload =>
      let '((payloadSize, err), w3) := io_Copy_Discard B payload w2 in
      match err with
      | Some e => (LogFatal (UnableToReceive (objectKey i) bucket e), w3)
      | None =>
          if payloadSize =? expected then
            let '(t1, w4) := time_Now B w3 in
            (Returned
               (mkSeries (times acc ++ [subMono t1 t0])
                         (speeds acc ++ [speedMBps payloadSize (subMono t1 t0)])), w4)
          else (LogFatal (UnmatchedSizes payloadSize expected), w3)
      end
  end.
Proof.
  unfold downloadTrial, time_Since, call, log_Fatalf, lift, mbind, M_bind, mret,
    M_ret.
  destruct (time_Now B w) as [t0 w1].
  destruct (GetObject B bucket (objectKey i) w1) as [[e | payload] w2]; [done|].
  destruct (io_Copy_Discard B payload w2) as [[sz [e |]] w3]; [done|].
  destruct (sz =? expected); [|done]. cbn [negb].
  by destruct (time_Now B w3) as [t1 w4].
Qed.

Lemma uploadLoop_S (fuel : nat) (bucket : string) (fileSize numFiles : Z)
    (data : list Byte.byte) (acc : series) (i : Z) (w : W) :
  uploadLoop B (S fuel) bucket fileSize numFiles data acc i w =
  if i <=? numFiles then
    match uploadTrial B bucket fileSize data acc i w with
    | (Returned (data', acc'), w') =>
        uploadLoop B fuel bucket fileSize numFiles data' acc' (wrap64 (i + 1)) w'
    | (Panicked p, w') => (Panicked p, w')
    | (LogFatal f, w') => (LogFatal f, w')
    | (Exited c, w') => (Exited c, w')
    | (Diverges, w') => (Diverges, w')
    end
  else (Returned acc, w).
Proof.
  cbn [uploadLoop]. destruct (i <=? numFiles); [|done].
  unfold mbind, M_bind.
  by destruct (uploadTrial B bucket fileSize data acc i w) as [[[? ?] | | | |] ?].
Qed.

Lemma downloadLoop_S (fuel : nat) (bucket : string) (expected numFiles : Z)
    (acc : series) (i : Z) (w : W) :
  downloadLoop B (S fuel) bucket expected numFiles acc i w =
  if i <=? numFiles then
    match downloadTrial B bucket expected acc i w with
    | (Returned acc', w') =>
        downloadLoop B fuel bucket expected numFiles acc' (wrap64 (i + 1)) w'
    | (Panicked p, w') => (Panicked p, w')
    | (LogFatal f, w') => (LogFatal f, w')
    | (Exited c, w') => (Exited c, w')
    | (Diverges, w') => (Diverges, w')
    end
  else (Returned acc, w).
Proof.
  cbn [downloadLoop]. destruct (i <=? numFiles); [|done].
  unfold mbind, M_bind.
  by destruct (downloadTrial B bucket expected acc i w) as [[? | | | |] ?].
Qed.

(** The upload phase, written out: the allocation of the buffer, then the
    loop. *)
Lemma uploadFiles_eq (bucket : string) (fileSize numFiles : Z) (w : W) :
  uploadFiles B bucket fileSize numFiles w =
  if (fileSize <? 0) || (maxAlloc <? fileSize)
  then (Panicked MakesliceLenOutOfRange, w)
  else
    let '(ok, w1) := mallocgc B fileSize w in
    if ok : bool then
      match uploadLoop B (S (Z.to_nat numFiles)) bucket fileSize numFiles
                       (repeat Byte.x00 (Z.to_nat fileSize)) (mkSeries [] [])
                       1 w1 with
      | (Returned acc, w') => (Returned (times acc, speeds acc), w')
      | (Panicked p, w') => (Panicked p, w')
      | (LogFatal f, w') => (LogFatal f, w')
      | (Exited c, w') => (Exited c, w')
      | (Diverges, w') => (Diverges, w')
      end
    else (Panicked OutOfMemory, w1).
Proof.
  unfold uploadFiles, make_bytes, call, lift, mbind, M_bind, mret, M_ret.
  destruct ((fileSize <? 0) || (maxAlloc <? fileSize)); [done|].
  destruct (mallocgc B fileSize w) as [[|] w1]; [|done].
  by destruct (uploadLoop B _ _ _ _ _ _ _ w1) as [[? | | | |] ?].
Qed.

(** An upload phase that returns has allocated its buffer and run its
    loop to the end. *)
Lemma uploadFiles_returned (bucket : string) (fileSize numFiles : Z) (w w' : W)
    (uploadTimes : list Duration) (uploadSpeeds : list float64) :
  uploadFiles B bucket fileSize numFiles w
    = (Returned (uploadTimes, uploadSpeeds), w') ->
  0 <= fileSize <= maxAlloc ∧
  ∃ w1 acc,
    mallocgc B fileSize w = (true, w1) ∧
    uploadLoop B (S (Z.to_nat numFiles)) bucket fileSize numFiles
               (repeat Byte.x00 (Z.to_nat fileSize)) (mkSeries [] []) 1 w1
    = (Returned acc, w') ∧
    uploadTimes = times acc ∧ uploadSpeeds = speeds acc.
Proof.
  rewrite uploadFiles_eq.
  destruct (Z.ltb_spec fileSize 0); [done|].
  destruct (Z.ltb_spec maxAlloc fileSize); [done|]. cbn [orb].
  destruct (mallocgc B fileSize w) as [[|] w1]; [|done].
  destruct (uploadLoop B _ _ _ _ _ _ _ w1) as [[acc | | | |] w2] eqn:Hloop;
    try done.
  intros [= <- <- <-]. split; [lia|]. by exists w1, acc.
Qed.
End TrialSpec.

Lemma wrap64_succ (i n : Z) : 1 <= i <= n -> n < maxInt64 -> wrap64 (i + 1) = i + 1.
Proof.
  intros Hi Hn. apply wrap64_id. unfold int64_range, minInt64, maxInt64 in *. lia.
Qed.

(** ** The length of the series *)

Section SeriesLength.
Context {W P : Type}.
Variable B : Backend W P.
Variables (bucket : string) (numFiles : Z).
Hypothesis numFiles_bound : numFiles < maxInt64.


End SeriesLength.

Lemma wrap64_range (z : Z) : int64_range (wrap64 z).
Proof.
  unfold int64_range, wrap64, minInt64, maxInt64.
  pose proof (Z.mod_pos_bound (z + 2 ^ 63) (2 ^ 64) ltac:(lia)). lia.
Qed.






(** ** The calls that the trial loops make *)



Section Recorded.
Context {W P : Type}.
Variable B : Backend W P.
Variables (bucket : string) (numFiles : Z).

(** An upload trial makes one call to the store: it puts the object of
    its trial index. *)
Lemma uploadTrial_recorded (fileSize : Z) (data : list Byte.byte) (acc : series)
    (i : Z) (w : W) (log : list event) :
  ∃ res w',
    uploadTrial (recording B) bucket fileSize data acc i (w, log)
    = (res, (w', log ++ [EvPut bucket (objectKey i) (Z.of_nat (length data))])).
Proof.
  rewrite uploadTrial_eq. cbn [recording rand_Read time_Now PutObject fst snd].
  destruct (rand_Read B w) as [fresh w1]. cbn [fst snd].
  destruct (time_Now B w1) as [t0 w2]. cbn [fst snd]. cbv zeta.
  rewrite length_map, length_seq.
  match goal with |- context [PutObject B ?b ?k ?d ?n w2] =>
    destruct (PutObject B b k d n w2) as [[e |] w3] end; [by eauto|].
  cbn [fst snd]. destruct (time_Now B w3) as [t1 w4]. by eauto.
Qed.

(** A download trial makes one request to the store, for the object of its
    trial index, and then at most drains the response. *)
Lemma downloadTrial_recorded (expected : Z) (acc : series) (i : Z) (w : W)
    (log : list event) :
  ∃ res w' tail,
    downloadTrial (recording B) bucket expected acc i (w, log)
    = (res, (w', log ++ EvGet bucket (objectKey i) :: tail)) ∧
    ((tail = [] ∧ ∃ e, res = LogFatal (UnableToDownload (objectKey i) bucket e)) ∨
     (∃ sz e, tail = [EvDrained sz (Some e)] ∧
              res = LogFatal (UnableToReceive (objectKey i) bucket e)) ∨
     (∃ sz, tail = [EvDrained sz None] ∧ sz <> expected ∧
            res = LogFatal (UnmatchedSizes sz expected)) ∨
     (∃ d, tail = [EvDrained expected None] ∧
           res = Returned (mkSeries (times acc ++ [d])
                                    (speeds acc ++ [speedMBps expected d])))).
Proof.
  rewrite downloadTrial_eq.
  cbn [recording time_Now GetObject io_Copy_Discard fst snd].
  destruct (time_Now B w) as [t0 w1]. cbn [fst snd].
  destruct (GetObject B bucket (objectKey i) w1) as [[e | payload] w2].
  { exists (LogFatal (UnableToDownload (objectKey i) bucket e)), w2, [].
    split; [done|]. left. eauto. }
  cbn [fst snd].
  destruct (io_Copy_Discard B payload w2) as [[sz [e |]] w3]; cbn [fst snd].
  { exists (LogFatal (UnableToReceive (objectKey i) bucket e)), w3,
      [EvDrained sz (Some e)].
    split; [by rewrite <- app_assoc|]. right; left. eauto. }
  destruct (Z.eqb_spec sz expected) as [-> | Hne].
  - cbn [fst snd]. destruct (time_Now B w3) as [t1 w4].
    eexists _, w4, [EvDrained expected None].
    split; [by rewrite <- app_assoc|]. do 3 right. eauto.
  - exists (LogFatal (UnmatchedSizes sz expected)), w3, [EvDrained sz None].
    split; [by rewrite <- app_assoc|]. right; right; left. eauto.
Qed.

Hypothesis numFiles_bound : numFiles < maxInt64.


End Recorded.

(** ** Object keys *)

Lemma string_length_app (s t : string) :
  String.length (s +:+ t) = (String.length s + String.length t)%nat.
Proof.
  induction s as [| a s IH]; [reflexivity|].
  change (S (String.length (s +:+ t)) = S (String.length s + String.length t))%nat.
  by rewrite IH.
Qed.

Lemma string_app_inj_r (t s1 s2 : string) : s1 +:+ t = s2 +:+ t -> s1 = s2.
Proof.
  revert s2; induction s1 as [| a s1 IH]; intros [| b s2] H.
  - done.
  - apply (f_equal String.length) in H.
    rewrite !string_length_app in H. cbn in H. lia.
  - apply (f_equal String.length) in H.
    rewrite !string_length_app in H. cbn in H. lia.
  - change (String a (s1 +:+ t) = String b (s2 +:+ t)) in H.
    injection H as -> H. f_equal. by apply IH.
Qed.

(** Distinct trials have distinct keys. *)
Lemma objectKey_inj (i j : Z) : objectKey i = objectKey j -> i = j.
Proof.
  unfold objectKey. intros H.
  apply (inj (String.app "file-")) in H.
  apply string_app_inj_r in H.
  by apply (inj pretty) in H.
Qed.

Example objectKey_7 : objectKey 7 = "file-7.dat".
Proof. reflexivity. Qed.



(** ** Events of a trial, and running a computation step by step *)

Lemma elem_of_get_drained (x : event) (b k : string) (sz : Z)
    (e : option string) :
  x ∈ [EvGet b k; EvDrained sz e] -> x = EvGet b k ∨ x = EvDrained sz e.
Proof.
  intros Hin. apply elem_of_cons in Hin as [-> | Hin]; [by left|].
  apply list_elem_of_singleton in Hin as ->. by right.
Qed.

Lemma bind_run {W A C : Type} (m : M W A) (k : A -> M W C) (w : W) :
  (m ≫= k) w =
  match m w with
  | (Returned a, w') => k a w'
  | (Panicked p, w') => (Panicked p, w')
  | (LogFatal f, w') => (LogFatal f, w')
  | (Exited c, w') => (Exited c, w')
  | (Diverges, w') => (Diverges, w')
  end.
Proof. reflexivity. Qed.

(** ** Zero elapsed time *)




(** ** The empty series *)




(** ** Round trip through the store in memory *)

Section MemRoundTrip.
Variables (latency : Z) (noise : nat -> nat -> Byte.byte) (memory : Z).
Variables (bucket : string) (size : nat) (numFiles : Z).
Hypothesis numFiles_bound : numFiles < maxInt64.

Local Abbreviation B := (memBackend latency noise memory).

(** After the upload loop the store holds, under the key of every trial
    it ran, the bytes generated in that trial, and nothing else changed. *)
Lemma mem_uploadLoop (fileSize : Z) (fuel : nat) (data : list Byte.byte)
    (acc : series) (i : Z) (w : MemWorld) :
  length data = size ->
  1 <= i <= numFiles + 1 ->
  (Z.to_nat (numFiles - i + 1) < fuel)%nat ->
  ∃ acc' w',
    uploadLoop B fuel bucket fileSize numFiles data acc i w = (Returned acc', w') ∧
    (forall j, i <= j <= numFiles ->
       objects w' !! (bucket, objectKey j)
       = Some (noiseBlock noise size (entropy w + Z.to_nat (j - i)))) ∧
    (forall key, (forall j, i <= j <= numFiles -> key <> (bucket, objectKey j)) ->
       objects w' !! key = objects w !! key).
Proof.
  revert data acc i w.
  induction fuel as [| fuel IH]; intros data acc i w Hlen Hi Hfuel; [lia|].
  rewrite uploadLoop_S. destruct (Z.leb_spec i numFiles) as [Hle | Hgt].
  - rewrite uploadTrial_eq.
    cbn [memBackend rand_Read time_Now PutObject objects clock entropy].
    rewrite (wrap64_succ i numFiles) by lia.
    rewrite Hlen. fold (noiseBlock noise size (entropy w)).
    match goal with |- context [uploadLoop B fuel _ _ _ ?d ?a _ ?w1] =>
      destruct (IH d a (i + 1) w1) as (acc' & w' & -> & Hobj & Hother) end;
      [unfold noiseBlock; by rewrite length_map, length_seq | lia | lia |].
    cbn [objects entropy] in Hobj, Hother.
    exists acc', w'. split_and!; [done | |].
    + intros j Hj. destruct (Z.eq_dec j i) as [-> | Hne].
      * rewrite Hother.
        -- rewrite lookup_insert_eq. do 2 f_equal. lia.
        -- intros j Hj' Hkey. apply (f_equal snd) in Hkey. cbn [snd] in Hkey.
           apply objectKey_inj in Hkey. lia.
      * rewrite Hobj by lia. do 2 f_equal. lia.
    + intros key Hkey. rewrite Hother.
      * apply lookup_insert_ne. intros <-. by apply (Hkey i); [lia|].
      * intros j Hj. apply Hkey. lia.
  - exists acc, w. split_and!; [done | intros; lia | done].
Qed.

(** When the store holds an object of the expected size under the key of
    every remaining trial, the download loop returns. *)
Lemma mem_downloadLoop (expected : Z) (fuel : nat) (acc : series) (i : Z)
    (w : MemWorld) :
  (forall j, i <= j <= numFiles ->
     ∃ d, objects w !! (bucket, objectKey j) = Some d ∧
          Z.of_nat (length d) = expected) ->
  1 <= i <= numFiles + 1 ->
  (Z.to_nat (numFiles - i + 1) < fuel)%nat ->
  ∃ acc' w',
    downloadLoop B fuel bucket expected numFiles acc i w = (Returned acc', w') ∧
    objects w' = objects w ∧
    length (times acc') = (length (times acc) + Z.to_nat (numFiles - i + 1))%nat.
Proof.
  revert acc i w.
  induction fuel as [| fuel IH]; intros acc i w Hobj Hi Hfuel; [lia|].
  rewrite downloadLoop_S. destruct (Z.leb_spec i numFiles) as [Hle | Hgt].
  - rewrite downloadTrial_eq.
    cbn [memBackend time_Now GetObject io_Copy_Discard objects clock entropy].
    destruct (Hobj i) as (d & -> & Hd); [lia|].
    rewrite Hd, Z.eqb_refl, (wrap64_succ i numFiles) by lia.
    match goal with |- context [downloadLoop B fuel _ _ _ ?a _ ?w1] =>
      destruct (IH a (i + 1) w1) as (acc' & w' & -> & Hsame & Htimes) end;
      [intros j Hj; apply Hobj; lia | lia | lia |].
    exists acc', w'. split_and!; [done | done |].
    cbn [times] in Htimes. rewrite length_app in Htimes. cbn in Htimes. lia.
  - exists acc, w. split_and!; [done | done |].
    replace (numFiles - i + 1) with 0 by lia. cbn. lia.
Qed.

(** In the store in memory every download trial drains the object that the
    upload trial of the same index stored: when the buffer is allocated,
    after the upload phase the object of trial [i] holds the bytes generated
    in trial [i], and the download phase that follows finds every object
    with the size uploaded and returns one sample per trial. *)
Lemma memStore_round_trip (w : MemWorld) :
  0 <= numFiles ->
  Z.of_nat size <= maxAlloc -> Z.of_nat size <= memory ->
  ∃ uploadTimes uploadSpeeds downloadTimes downloadSpeeds w1 w2,
    uploadFiles B bucket (Z.of_nat size) numFiles w
      = (Returned (uploadTimes, uploadSpeeds), w1) ∧
    (forall i, 1 <= i <= numFiles ->
       objects w1 !! (bucket, objectKey i)
       = Some (noiseBlock noise size (entropy w + Z.to_nat (i - 1)))) ∧
    downloadFiles B bucket (Z.of_nat size) numFiles w1
      = (Returned (downloadTimes, downloadSpeeds), w2) ∧
    objects w2 = objects w1 ∧
    Z.of_nat (length downloadTimes) = numFiles.
Proof.
  intros Hn Hlimit Hmem.
  destruct (mem_uploadLoop (Z.of_nat size) (S (Z.to_nat numFiles))
              (repeat Byte.x00 size) (mkSeries [] []) 1 w)
    as (uacc & w1 & Hup & Hobj & _); [apply repeat_length | lia | lia |].
  destruct (mem_downloadLoop (Z.of_nat size) (S (Z.to_nat numFiles))
              (mkSeries [] []) 1 w1)
    as (dacc & w2 & Hdown & Hsame & Htimes); [| lia | lia |].
  { intros j Hj. rewrite Hobj by done. eexists. split; [done|].
    unfold noiseBlock. by rewrite length_map, length_seq. }
  exists (times uacc), (speeds uacc), (times dacc), (speeds dacc), w1, w2.
  split_and!; [| done | | done |].
  - rewrite uploadFiles_eq.
    destruct (Z.ltb_spec (Z.of_nat size) 0); [lia|].
    destruct (Z.ltb_spec maxAlloc (Z.of_nat size)); [lia|].
    cbn [orb memBackend mallocgc].
    destruct (Z.leb_spec (Z.of_nat size) memory); [|lia].
    by rewrite Nat2Z.id, Hup.
  - unfold downloadFiles. by rewrite bind_run, Hdown.
  - rewrite Htimes. cbn. lia.
Qed.
End MemRoundTrip.

(** ** The examples of the specification *)

(** The constant [0.9] is the double nearest to nine tenths. *)
Example f64_0_9_nearest :
  f64_div (float64_of_int 9) (float64_of_int 10) = f64_0_9.
Proof. reflexivity. Qed.

(** 10,485,760 bytes in one second are 10.0 MB/s exactly. *)
Example speed_10MB_in_1s :
  speedMBps 10485760 1000000000 = float64_of_int 10.
Proof. reflexivity. Qed.

(** Three trials of 10 ms, 20 ms and 30 ms: the average is 20 ms and the
    P90, at index floor(0.9 * 3) = 2, is 30 ms. *)
Example three_trials :
  calculateAverage [10000000; 20000000; 30000000] = Returned 20000000 ∧
  p90Index 3 = 2 ∧
  calculateP90 TDuration [10000000; 20000000; 30000000]
    = Returned (30000000, [10000000; 20000000; 30000000]).
Proof. split_and!; reflexivity. Qed.

(** For the sample sizes one to nine the nearest-rank index. *)
Example p90Index_small :
  map p90Index [1; 2; 3; 4; 5; 6; 7; 8; 9; 10] = [0; 1; 2; 3; 4; 5; 6; 7; 8; 9].
Proof. reflexivity. Qed.

(** Beyond 2^50 elements the product is rounded to the next integer: the
    bound on the length in the lemmas above is needed. *)
Example p90Index_rounds_up :
  p90Index 1688849860263941 = 1519964874237547 ∧
  9 * 1688849860263941 / 10 = 1519964874237546.
Proof. split; reflexivity. Qed.

(** An overflowing total wraps around, as int64 addition does. *)
Example calculateAverage_overflow :
  calculateAverage [maxInt64; 1] = Returned (- 2 ^ 62).
Proof. reflexivity. Qed.

(** A whole run against the store in memory: three trials of 1 MiB, each
    transfer taking one second. *)
Example memStore_run :
  (main (memBackend 1000000000 (fun _ _ => Byte.x2a) (2 ^ 30)) (fun _ => "")
        (testFlags 1 3) memEmpty).1
  = Returned {| Avg_DownloadTime := 1000000000; Avg_UploadTime := 1000000000;
                P90_UploadTime := 1000000000;
                P90_UploadSpeed := float64_of_int 1;
                P90_DownloadTime := 1000000000;
                P90_DownloadSpeed := float64_of_int 1 |}.
Proof. vm_compute. reflexivity. Qed.

(** * Further properties of the code

    They include the traces of the two phases and of a run, on which the
    integrity check of the download phase is stated. *)

(** ** The statistics helpers *)

Lemma totalSum_perm (times times' : list Duration) :
  times ≡ₚ times' -> totalSum times = totalSum times'.
Proof.
  unfold totalSum.
  induction 1 as [| x l l' _ IH | x y l | l l' l'' _ IH1 _ IH2]; cbn;
    [done | lia | lia | congruence].
Qed.

Lemma calculateAverage_perm (times times' : list Duration) :
  times ≡ₚ times' -> calculateAverage times = calculateAverage times'.
Proof.
  intros Hperm. destruct times as [| t times].
  - by apply Permutation_nil in Hperm as ->.
  - assert (times' <> []) by (intros ->; by apply Permutation_nil_r in Hperm).
    rewrite !calculateAverage_wraps by done.
    by rewrite (totalSum_perm _ _ Hperm), (Permutation_length Hperm).
Qed.

(** The average does not depend on the order of the series, whatever the
    durations are, overflowing totals included. *)
Theorem calculateAverage_permutation_invariant (times times' : list Duration) :
  times ≡ₚ times' -> calculateAverage times = calculateAverage times'.
Proof.
  intros Hperm. destruct times as [| t times].
  - by apply Permutation_nil in Hperm as ->.
  - by apply calculateAverage_perm.
Qed.

Lemma calculateAverage_permutation_invariant_witness :
  [3; 1; 2] ≡ₚ [1; 2; 3] ∧
  calculateAverage [3; 1; 2] = calculateAverage [1; 2; 3].
Proof.
  assert (Hperm : [3; 1; 2] ≡ₚ [1; 2; 3]).
  { etransitivity; [apply perm_swap | apply perm_skip, perm_swap]. }
  split; [exact Hperm|].
  exact (calculateAverage_permutation_invariant [3; 1; 2] [1; 2; 3] Hperm).
Defined.

(** The sorting that calculateP90 does in the caller's slice does not
    change the average: main may compute the average of a series before or
    after its P90. *)
Theorem calculateAverage_after_calculateP90 (times times' : list Duration)
    (v : Duration) :
  calculateP90 TDuration times = Returned (v, times') ->
  calculateAverage times' = calculateAverage times.
Proof.
  intros Hret. apply calculateAverage_perm.
  destruct (order_of_supported TDuration 0 I) as (Hless & _).
  unfold calculateP90 in Hret. rewrite Hless in Hret.
  destruct (sort_Slice_returns (ltbOf TDuration) times) as (s & Hs & Hperm).
  rewrite Hs in Hret.
  change ((v' ← index s (p90Index (Z.of_nat (length s))); Returned (v', s))
          = Returned (v, times')) in Hret.
  destruct (index s (p90Index (Z.of_nat (length s)))); [|done..].
  by injection Hret as _ <-.
Qed.

Lemma calculateAverage_after_calculateP90_witness :
  calculateP90 TDuration [30; 10; 20] = Returned (30, [10; 20; 30]) ∧
  calculateAverage [10; 20; 30] = calculateAverage [30; 10; 20].
Proof.
  split; [reflexivity|].
  apply (calculateAverage_after_calculateP90 [30; 10; 20] [10; 20; 30] 30).
  reflexivity.
Defined.

Lemma totalSum_bounds (times : list Duration) (lo hi : Z) :
  Forall (fun t => lo <= t <= hi) times ->
  Z.of_nat (length times) * lo <= totalSum times <= Z.of_nat (length times) * hi.
Proof.
  unfold totalSum. induction 1 as [| t times Ht _ IH]; [cbn; lia|].
  cbn [foldr length]. lia.
Qed.

(** The average of a series lies between its smallest and its largest
    duration (when the total fits the duration representation). *)
Theorem calculateAverage_between_extremes (times : list Duration) (lo hi : Z) :
  times <> [] ->
  int64_range (totalSum times) ->
  Forall (fun t => lo <= t <= hi) times ->
  ∃ avg, calculateAverage times = Returned avg ∧ lo <= avg <= hi.
Proof.
  intros Hne Hfit Hall.
  set (n := Z.of_nat (length times)).
  assert (Hn : 0 < n) by (destruct times; [done | subst n; cbn; lia]).
  exists (Z.quot (totalSum times) n).
  rewrite calculateAverage_wraps, wrap64_id by done. fold n. split; [done|].
  pose proof (totalSum_bounds times lo hi Hall) as Hsum. fold n in Hsum.
  destruct (quot_truncates (totalSum times) n Hn) as (Habs & Hp & Hm).
  destruct (Z.le_gt_cases 0 (totalSum times)) as [H0 | H0].
  - specialize (Hp H0). nia.
  - assert (totalSum times <= 0) as H0' by lia. specialize (Hm H0'). nia.
Qed.

Lemma calculateAverage_between_extremes_witness :
  [10; 25; 30] <> [] ∧
  int64_range (totalSum [10; 25; 30]) ∧
  Forall (fun t => 10 <= t <= 30) [10; 25; 30] ∧
  ∃ avg, calculateAverage [10; 25; 30] = Returned avg ∧ 10 <= avg <= 30.
Proof.
  assert (Hall : Forall (fun t => 10 <= t <= 30) [10; 25; 30])
    by (repeat constructor; lia).
  assert (Hfit : int64_range (totalSum [10; 25; 30]))
    by (unfold int64_range, minInt64, maxInt64; cbn; lia).
  split; [done|]. split; [exact Hfit|]. split; [exact Hall|].
  exact (calculateAverage_between_extremes [10; 25; 30] 10 30
           ltac:(done) Hfit Hall).
Defined.

Lemma floorRank_spec (n : nat) :
  10 * Z.of_nat (floorRank n) <= 9 * Z.of_nat n < 10 * (Z.of_nat (floorRank n) + 1).
Proof.
  unfold floorRank. rewrite Z2Nat.id by (apply Z.div_pos; lia).
  pose proof (Z.mul_div_le (9 * Z.of_nat n) 10).
  pose proof (Z.mul_succ_div_gt (9 * Z.of_nat n) 10). lia.
Qed.

(** The value that calculateP90 returns is a ninetieth percentile of the
    input: more than nine tenths of the elements are not greater than it,
    and at most nine tenths are less than it. *)
Theorem calculateP90_is_percentile {T : Type} (ty : ElemType T)
    (values : list T) :
  values <> [] ->
  Forall (comparable ty) values ->
  Z.of_nat (length values) < 2 ^ 49 ->
  ∃ (v : T) (sorted : list T),
    calculateP90 ty values = Returned (v, sorted) ∧
    9 * Z.of_nat (length values)
      < 10 * Z.of_nat (countb (fun x => negb (ltbOf ty v x)) values) ∧
    10 * Z.of_nat (countb (fun x => ltbOf ty x v) values)
      <= 9 * Z.of_nat (length values).
Proof.
  intros Hne Hcmp Hlen.
  destruct (calculateP90_sorted_rank ty values Hne Hcmp Hlen)
    as (v & s & _ & Hret & Hperm & Hsorted & Hlook & _).
  assert (∃ x0, comparable ty x0) as [x0 Hx0].
  { destruct values as [| x0 rest]; [done|].
    apply Forall_cons in Hcmp as [? _]. eauto. }
  destruct (order_of_supported ty x0 Hx0) as (_ & Hasym & Hneg & _).
  assert (Hcmps : Forall (comparable ty) s) by (by rewrite Hperm).
  pose proof (sorted_rank (ltbOf ty) (comparable ty) Hasym s
                (floorRank (length values)) v Hcmps Hsorted Hlook) as [Hlt Hle].
  rewrite !(countb_perm _ s values Hperm) in *.
  pose proof (floorRank_spec (length values)).
  exists v, s. split; [done|]. lia.
Qed.

Lemma calculateP90_is_percentile_witness :
  [5; 3; 10; 1; 7; 2; 9; 4; 8; 6; 11] <> [] ∧
  Forall (comparable TDuration) [5; 3; 10; 1; 7; 2; 9; 4; 8; 6; 11] ∧
  Z.of_nat (length [5; 3; 10; 1; 7; 2; 9; 4; 8; 6; 11]) < 2 ^ 49 ∧
  ∃ (v : Duration) (sorted : list Duration),
    calculateP90 TDuration [5; 3; 10; 1; 7; 2; 9; 4; 8; 6; 11]
      = Returned (v, sorted) ∧
    9 * 11 < 10 * Z.of_nat (countb (fun x => negb (v <? x))
                              [5; 3; 10; 1; 7; 2; 9; 4; 8; 6; 11]) ∧
    10 * Z.of_nat (countb (fun x => x <? v)
                     [5; 3; 10; 1; 7; 2; 9; 4; 8; 6; 11]) <= 9 * 11.
Proof.
  split; [done|]. split; [repeat constructor|]. split; [cbn; lia|].
  apply (calculateP90_is_percentile TDuration
           [5; 3; 10; 1; 7; 2; 9; 4; 8; 6; 11]);
    [done | repeat constructor | cbn; lia].
Defined.

Lemma floorRank_small (n : nat) :
  (1 <= n <= 10)%nat -> floorRank n = pred n.
Proof.
  intros Hn. pose proof (floorRank_spec n). pose proof (floorRank_lt n). lia.
Qed.

(** For a series of at most ten elements, the default number of trials
    included, the value that calculateP90 returns is the largest element. *)
Theorem calculateP90_is_maximum_up_to_ten {T : Type} (ty : ElemType T)
    (values : list T) :
  values <> [] ->
  Forall (comparable ty) values ->
  (length values <= 10)%nat ->
  ∃ (v : T) (sorted : list T),
    calculateP90 ty values = Returned (v, sorted) ∧
    last sorted = Some v ∧
    v ∈ values ∧
    forall x, x ∈ values -> ascending (ltbOf ty) x v.
Proof.
  intros Hne Hcmp Hten.
  assert (Hlen : Z.of_nat (length values) < 2 ^ 49) by lia.
  assert (Hpos : (1 <= length values)%nat) by (destruct values; [done | cbn; lia]).
  destruct (calculateP90_sorted_rank ty values Hne Hcmp Hlen)
    as (v & s & _ & Hret & Hperm & Hsorted & Hlook & _).
  rewrite floorRank_small in Hlook by lia.
  assert (Hlens : length s = length values) by (by rewrite Hperm).
  assert (Hvs : v ∈ s) by (by eapply list_elem_of_lookup_2).
  exists v, s. split_and!; [done | by rewrite last_lookup, Hlens
                            | by rewrite <- Hperm |].
  destruct (list_elem_of_split_length s _ v Hlook) as (l & r & Hs & Hl).
  assert (r = []) as ->.
  { rewrite Hs, length_app in Hlens. cbn in Hlens.
    destruct r; [done | cbn in Hlens; lia]. }
  rewrite Hs in Hsorted.
  apply StronglySorted_app in Hsorted as (Hlv & _ & _).
  intros x Hx. rewrite <- Hperm, Hs in Hx.
  apply elem_of_app in Hx as [Hx | Hx].
  - apply Hlv; [done | by left].
  - apply list_elem_of_singleton in Hx as ->.
    assert (Hvcmp : comparable ty v).
    { rewrite Forall_forall in Hcmp. apply Hcmp. by rewrite <- Hperm. }
    destruct (order_of_supported ty v Hvcmp) as (_ & Hasym & _).
    unfold ascending. by apply (ltb_irrefl (ltbOf ty) (comparable ty) Hasym).
Qed.

Lemma calculateP90_is_maximum_up_to_ten_witness :
  [40; 70; 20] <> [] ∧
  Forall (comparable TDuration) [40; 70; 20] ∧
  (length [40; 70; 20] <= 10)%nat ∧
  ∃ sorted, calculateP90 TDuration [40; 70; 20] = Returned (70, sorted).
Proof.
  split; [done|]. split; [repeat constructor|]. split; [cbn; lia|].
  destruct (calculateP90_is_maximum_up_to_ten TDuration [40; 70; 20])
    as (v & sorted & Hret & _); [done | repeat constructor | cbn; lia |].
  exists sorted. rewrite Hret. vm_compute in Hret.
  injection Hret as <- _. reflexivity.
Defined.

(** From eleven elements on the P90 is no longer the largest element. *)
Example calculateP90_eleven :
  calculateP90 TDuration [11; 10; 9; 8; 7; 6; 5; 4; 3; 2; 1]
  = Returned (10, [1; 2; 3; 4; 5; 6; 7; 8; 9; 10; 11]).
Proof. reflexivity. Qed.

(** ** How the program ends *)

Lemma bind_ending {W A C : Type} (Q : outcome unit -> Prop) (m : M W A)
    (k : A -> M W C) (w : W) :
  (Q (ending (m w).1) ∨ ∃ a, (m w).1 = Returned a) ->
  (forall a w', Q (ending (k a w').1)) ->
  Q (ending ((m ≫= k) w).1).
Proof.
  intros Hm Hk. rewrite bind_run.
  destruct (m w) as [[a | p | f | c |] w']; cbn [fst ending] in *;
    [apply Hk | destruct Hm as [? | [? [=]]]; done..].
Qed.

Section Endings.
Context {W P : Type}.
Variable B : Backend W P.

(** The upload loop ends by returning, by the fatal error of a failed put,
    or not at all. *)
Lemma uploadLoop_ending (bucket : string) (fileSize numFiles : Z) (fuel : nat)
    (data : list Byte.byte) (acc : series) (i : Z) (w : W) :
  uploadEnding bucket
    (ending (uploadLoop B fuel bucket fileSize numFiles data acc i w).1).
Proof.
  revert data acc i w. induction fuel as [| fuel IH]; intros data acc i w; [done|].
  rewrite uploadLoop_S. destruct (i <=? numFiles); [|done].
  rewrite uploadTrial_eq.
  destruct (rand_Read B w) as [fresh w1].
  destruct (time_Now B w1) as [t0 w2]. cbv zeta.
  match goal with |- context [PutObject B ?b ?k ?d ?n w2] =>
    destruct (PutObject B b k d n w2) as [[e |] w3] end; [done|].
  destruct (time_Now B w3) as [t1 w4]. apply IH.
Qed.

(** The download loop ends by returning, by one of its three fatal errors,
    or not at all. *)
Lemma downloadLoop_ending (bucket : string) (expected numFiles : Z) (fuel : nat)
    (acc : series) (i : Z) (w : W) :
  downloadEnding bucket
    (ending (downloadLoop B fuel bucket expected numFiles acc i w).1).
Proof.
  revert acc i w. induction fuel as [| fuel IH]; intros acc i w; [done|].
  rewrite downloadLoop_S. destruct (i <=? numFiles); [|done].
  rewrite downloadTrial_eq.
  destruct (time_Now B w) as [t0 w1].
  destruct (GetObject B bucket (objectKey i) w1) as [[e | payload] w2]; [done|].
  destruct (io_Copy_Discard B payload w2) as [[sz [e |]] w3]; [done|].
  destruct (sz =? expected); [|done].
  destruct (time_Now B w3) as [t1 w4]. apply IH.
Qed.

(** The upload phase ends in the panic of make, for a size that is
    negative or beyond the limit of the allocator; out of memory; or as its
    loop ends. *)
Lemma uploadFiles_ending (bucket : string) (fileSize numFiles : Z) (w : W) :
  ((fileSize < 0 ∨ maxAlloc < fileSize) ∧
   uploadFiles B bucket fileSize numFiles w = (Panicked MakesliceLenOutOfRange, w)) ∨
  (0 <= fileSize <= maxAlloc ∧
   (((mallocgc B fileSize w).1 = false ∧
     uploadFiles B bucket fileSize numFiles w
     = (Panicked OutOfMemory, (mallocgc B fileSize w).2)) ∨
    ((mallocgc B fileSize w).1 = true ∧
     uploadEnding bucket (ending (uploadFiles B bucket fileSize numFiles w).1)))).
Proof.
  rewrite uploadFiles_eq.
  destruct (Z.ltb_spec fileSize 0); [left; split; [lia | done]|].
  destruct (Z.ltb_spec maxAlloc fileSize); [left; split; [lia | done]|].
  cbn [orb]. right. split; [lia|].
  destruct (mallocgc B fileSize w) as [[|] w1]; [right | by left].
  split; [done|].
  pose proof (uploadLoop_ending bucket fileSize numFiles (S (Z.to_nat numFiles))
                (repeat Byte.x00 (Z.to_nat fileSize)) (mkSeries [] []) 1 w1)
    as Hloop.
  by destruct (uploadLoop B _ _ _ _ _ _ _ w1) as [[? | ? | ? | ? |] ?].
Qed.

Lemma downloadFiles_ending (bucket : string) (expected numFiles : Z) (w : W) :
  downloadEnding bucket (ending (downloadFiles B bucket expected numFiles w).1).
Proof.
  unfold downloadFiles. rewrite bind_run.
  pose proof (downloadLoop_ending bucket expected numFiles
                (S (Z.to_nat numFiles)) (mkSeries [] []) 1 w) as H0.
  by destruct (downloadLoop B _ _ _ _ _ _ w) as [[? | ? | ? | ? |] ?].
Qed.
End Endings.

Lemma calculateAverage_ending (times : list Duration) :
  statisticsEnding (ending (calculateAverage times)).
Proof. unfold calculateAverage. by destruct (_ =? 0). Qed.

(** On a slice of durations or of float64 the comparator answers, so
    calculateP90 returns or stops at the bounds check of the index. *)
Lemma calculateP90_ending {T : Type} (ty : ElemType T) (values : list T) :
  lessOf ty = (fun a b => Returned (ltbOf ty a b)) ->
  statisticsEnding (ending (calculateP90 ty values)).
Proof.
  intros Hless.
  unfold calculateP90. rewrite Hless.
  destruct (sort_Slice_returns (ltbOf ty) values) as (s & -> & _).
  change (statisticsEnding
            (ending (v ← index s (p90Index (Z.of_nat (length s)));
                     Returned (v, s)))).
  unfold index. destruct (_ && _); [|done]. by destruct (s !! _).
Qed.

(** ** The stages of main *)

(** [main], stage by stage: the configuration check, the client, the two
    phases and the statistics. *)
Lemma main_stages {W P : Type} (B : Backend W P) (getenv : string -> string)
    (flags : Flags) (w : W) :
  main B getenv flags w =
  if configured getenv flags then
    match minio_New B (endpoint flags) (effectiveAccessKey getenv flags)
                    (effectiveSecretKey getenv flags) w with
    | (Some e, w0) => (LogFatal (ErrCreatingClient e), w0)
    | (None, w0) =>
        match uploadFiles B (bucketName flags) (fileSizeBytes flags)
                          (trials flags) w0 with
        | (Returned (uploadTimes, uploadSpeeds), w1) =>
            match downloadFiles B (bucketName flags) (fileSizeBytes flags)
                                (trials flags) w1 with
            | (Returned (downloadTimes, downloadSpeeds), w2) =>
                (statistics uploadTimes uploadSpeeds downloadTimes
                            downloadSpeeds, w2)
            | (Panicked p, w2) => (Panicked p, w2)
            | (LogFatal f, w2) => (LogFatal f, w2)
            | (Exited c, w2) => (Exited c, w2)
            | (Diverges, w2) => (Diverges, w2)
            end
        | (Panicked p, w1) => (Panicked p, w1)
        | (LogFatal f, w1) => (LogFatal f, w1)
        | (Exited c, w1) => (Exited c, w1)
        | (Diverges, w1) => (Diverges, w1)
        end
    end
  else (Exited 1, w).
Proof.
  unfold main, configured. cbv zeta.
  fold (effectiveAccessKey getenv flags) (effectiveSecretKey getenv flags)
       (fileSizeBytes flags).
  destruct (_ || _); [done|]. cbn [negb].
  rewrite bind_run. unfold call at 1.
  destruct (minio_New B _ _ _ w) as [[e |] w0]; [done|].
  rewrite bind_run.
  destruct (uploadFiles B _ _ _ w0) as [[[ut us] | | | |] w1]; try done.
  rewrite bind_run.
  destruct (downloadFiles B _ _ _ w1) as [[[dt ds] | | | |] w2]; try done.
  unfold statistics.
  destruct (calculateAverage ut) as [au | | | |]; try done.
  destruct (calculateAverage dt) as [ad | | | |]; try done.
  rewrite bind_run. unfold lift at 1.
  destruct (calculateP90 TDuration ut) as [[? ?] | | | |]; try done.
  rewrite bind_run. unfold lift at 1.
  destruct (calculateP90 TFloat64 us) as [[? ?] | | | |]; try done.
  rewrite bind_run. unfold lift at 1.
  destruct (calculateP90 TDuration dt) as [[? ?] | | | |]; try done.
  rewrite bind_run. unfold lift at 1.
  destruct (calculateP90 TFloat64 ds) as [[? ?] | | | |]; done.
Qed.

Lemma configured_false (getenv : string -> string) (flags : Flags) :
  configured getenv flags = false ↔
  endpoint flags = "" ∨ effectiveAccessKey getenv flags = "" ∨
  effectiveSecretKey getenv flags = "" ∨ bucketName flags = "".
Proof.
  unfold configured. rewrite negb_false_iff, !orb_true_iff, !String.eqb_eq.
  tauto.
Qed.

(** The statistics stage returns the report or panics in a division or at
    an index. *)
Lemma statistics_ending (uploadTimes : list Duration)
    (uploadSpeeds : list float64) (downloadTimes : list Duration)
    (downloadSpeeds : list float64) :
  statisticsEnding
    (ending (statistics uploadTimes uploadSpeeds downloadTimes downloadSpeeds)).
Proof.
  unfold statistics.
  pose proof (calculateAverage_ending uploadTimes) as H1.
  destruct (calculateAverage uploadTimes) as [au | [] | | |]; try done.
  pose proof (calculateAverage_ending downloadTimes) as H2.
  destruct (calculateAverage downloadTimes) as [ad | [] | | |]; try done.
  pose proof (calculateP90_ending TDuration uploadTimes eq_refl) as H3.
  destruct (calculateP90 TDuration uploadTimes) as [[? ?] | [] | | |];
    try done.
  pose proof (calculateP90_ending TFloat64 uploadSpeeds eq_refl) as H4.
  destruct (calculateP90 TFloat64 uploadSpeeds) as [[? ?] | [] | | |];
    try done.
  pose proof (calculateP90_ending TDuration downloadTimes eq_refl) as H5.
  destruct (calculateP90 TDuration downloadTimes) as [[? ?] | [] | | |];
    try done.
  pose proof (calculateP90_ending TFloat64 downloadSpeeds eq_refl) as H6.
  destruct (calculateP90 TFloat64 downloadSpeeds) as [[? ?] | [] | | |]; done.
Qed.

Lemma main_ending_helper {W P : Type} (B : Backend W P)
    (getenv : string -> string) (flags : Flags) (w : W) :
  mainEnding (bucketName flags) (ending (main B getenv flags w).1) ∧
  (configured getenv flags = true ->
   forall c, (main B getenv flags w).1 <> Exited c).
Proof.
  rewrite main_stages. destruct (configured getenv flags); [|by split].
  destruct (minio_New B _ _ _ w) as [[e |] w0]; [by split|].
  pose proof (uploadFiles_ending B (bucketName flags) (fileSizeBytes flags)
                (trials flags) w0) as [[_ ->] | [_ [[_ ->] | [_ Hup]]]];
    [by split | by split |].
  destruct (uploadFiles B _ _ _ w0) as [[[ut us] | p | f | c |] w1];
    cbn [fst ending uploadEnding] in Hup; try done.
  2:{ by destruct f. }
  pose proof (downloadFiles_ending B (bucketName flags) (fileSizeBytes flags)
                (trials flags) w1) as Hdown.
  destruct (downloadFiles B _ _ _ w1) as [[[dt ds] | p | f | c |] w2];
    cbn [fst ending downloadEnding] in Hdown; try done.
  2:{ by destruct f. }
  cbn [fst].
  pose proof (statistics_ending ut us dt ds) as Hstat.
  by destruct (statistics ut us dt ds) as [r | [] | | |].
Qed.

(** main ends by its own call of os.Exit exactly when the endpoint, the
    bucket or a credential (flag and environment variable) is missing: the
    status is 1 and the world is as it was, no client having been created.
    With the configuration complete, main never ends by os.Exit. *)
Theorem main_exits_iff_configuration_missing {W P : Type} (B : Backend W P)
    (getenv : string -> string) (flags : Flags) (w w' : W) (c : Z) :
  main B getenv flags w = (Exited c, w') ↔
  c = 1 ∧ w' = w ∧
  (endpoint flags = "" ∨ effectiveAccessKey getenv flags = "" ∨
   effectiveSecretKey getenv flags = "" ∨ bucketName flags = "").
Proof.
  rewrite <- configured_false. split.
  - intros Hrun. destruct (configured getenv flags) eqn:Hcfg.
    + destruct (main_ending_helper B getenv flags w) as [_ Hno].
      destruct (Hno Hcfg c). by rewrite Hrun.
    + rewrite main_stages, Hcfg in Hrun. by injection Hrun as <- <-.
  - intros (-> & -> & Hcfg). by rewrite main_stages, Hcfg.
Qed.

(** However the store, the clock and the flags behave, main ends in one of
    these ways: it returns the report; it exits with status 1; it stops
    with a fatal error that, when it names a bucket, names the configured
    one; it panics in the allocation of the buffer or runs out of memory
    there; it panics in the division of calculateAverage or at the index of
    calculateP90; or it does not end.
    The panic "Unsupported type" of calculateP90 cannot occur, main passing
    it slices of durations and of float64 only. *)
Theorem main_endings {W P : Type} (B : Backend W P)
    (getenv : string -> string) (flags : Flags) (w : W) :
  mainEnding (bucketName flags) (ending (main B getenv flags w).1) ∧
  (main B getenv flags w).1 <> Panicked UnsupportedType.
Proof.
  destruct (main_ending_helper B getenv flags w) as [Hend _].
  split; [done|]. intros Heq. by rewrite Heq in Hend.
Qed.

(** ** Credentials from the environment *)

Lemma effective_withCredentials (getenv : string -> string) (flags : Flags) :
  effectiveAccessKey getenv (withCredentials getenv flags)
    = effectiveAccessKey getenv flags ∧
  effectiveSecretKey getenv (withCredentials getenv flags)
    = effectiveSecretKey getenv flags.
Proof.
  destruct flags as [e a s b f t].
  unfold withCredentials. unfold effectiveAccessKey, effectiveSecretKey.
  cbn [accessKey secretKey]. split.
  - destruct (String.eqb a "") eqn:Ha; cbv iota; [|by rewrite Ha].
    by destruct (String.eqb (getenv accessKeyEnvVarName) "").
  - destruct (String.eqb s "") eqn:Hs; cbv iota; [|by rewrite Hs].
    by destruct (String.eqb (getenv secretKeyEnvVarName) "").
Qed.

(** A credential left empty on the command line is read from the
    environment: running main with an empty -accessKey or -secretKey is
    running it with the value of S3_ACCESS_KEY or S3_SECRET_KEY given as the
    flag. *)
Theorem main_environment_fallback {W P : Type} (B : Backend W P)
    (getenv : string -> string) (flags : Flags) (w : W) :
  main B getenv flags w = main B getenv (withCredentials getenv flags) w.
Proof.
  rewrite !main_stages. unfold configured.
  destruct (effective_withCredentials getenv flags) as [-> ->]. done.
Qed.

(** main consults the environment only for a credential whose flag is
    empty, and only at S3_ACCESS_KEY and S3_SECRET_KEY: two environments
    that agree there give the same run.  In particular a credential given
    as a flag takes precedence over the environment. *)
Theorem main_flag_precedes_environment {W P : Type} (B : Backend W P)
    (getenv getenv' : string -> string) (flags : Flags) (w : W) :
  (accessKey flags = "" ->
   getenv accessKeyEnvVarName = getenv' accessKeyEnvVarName) ->
  (secretKey flags = "" ->
   getenv secretKeyEnvVarName = getenv' secretKeyEnvVarName) ->
  main B getenv flags w = main B getenv' flags w.
Proof.
  intros Ha Hs. rewrite !main_stages. unfold configured.
  assert (effectiveAccessKey getenv flags = effectiveAccessKey getenv' flags)
    as ->.
  { unfold effectiveAccessKey.
    destruct (String.eqb_spec (accessKey flags) ""); [by apply Ha | done]. }
  assert (effectiveSecretKey getenv flags = effectiveSecretKey getenv' flags)
    as ->.
  { unfold effectiveSecretKey.
    destruct (String.eqb_spec (secretKey flags) ""); [by apply Hs | done]. }
  done.
Qed.

Lemma main_flag_precedes_environment_witness :
  main (steadyBackend 1048576 1000000) (fun _ => "from the environment")
       (testFlags 1 3) 0
  = main (steadyBackend 1048576 1000000) (fun _ => "") (testFlags 1 3) 0.
Proof.
  apply (main_flag_precedes_environment (steadyBackend 1048576 1000000)
           (fun _ => "from the environment") (fun _ => "") (testFlags 1 3) 0);
    intros Hempty; discriminate Hempty.
Defined.

(** ** The trace of a phase *)

Lemma putEvents_cons (bucket : string) (size i k : Z) :
  0 <= k ->
  putEvents bucket size i (k + 1)
  = EvPut bucket (objectKey i) size :: putEvents bucket size (i + 1) k.
Proof.
  intros Hk. unfold putEvents. rewrite (seqZ_cons i (k + 1)) by lia.
  cbn. do 3 f_equal; lia.
Qed.

Lemma getEvents_cons (bucket : string) (size i k : Z) :
  0 <= k ->
  getEvents bucket size i (k + 1)
  = EvGet bucket (objectKey i) :: EvDrained size None
      :: getEvents bucket size (i + 1) k.
Proof.
  intros Hk. unfold getEvents. rewrite (seqZ_cons i (k + 1)) by lia.
  cbn. do 4 f_equal; lia.
Qed.

Section Trace.
Context {W P : Type}.
Variable B : Backend W P.
Variables (bucket : string) (numFiles : Z).

(** An upload trial puts the object of its index, with the length of the
    buffer as its size; it fails with the fatal error of that key or
    appends one duration and the speed computed from it. *)
Lemma uploadTrial_trace (fileSize : Z) (data : list Byte.byte) (acc : series)
    (i : Z) (w : W) (log : list event) :
  ∃ res w',
    uploadTrial (recording B) bucket fileSize data acc i (w, log)
    = (res, (w', log ++ [EvPut bucket (objectKey i) (Z.of_nat (length data))])) ∧
    ((∃ e, res = LogFatal (UnableToUpload (objectKey i) bucket e)) ∨
     (∃ data' d, length data' = length data ∧
        res = Returned (data', mkSeries (times acc ++ [d])
                                        (speeds acc ++ [speedMBps fileSize d])))).
Proof.
  rewrite uploadTrial_eq. cbn [recording rand_Read time_Now PutObject fst snd].
  destruct (rand_Read B w) as [fresh w1]. cbn [fst snd].
  destruct (time_Now B w1) as [t0 w2]. cbn [fst snd]. cbv zeta.
  rewrite length_map, length_seq.
  match goal with |- context [PutObject B ?b ?k ?d ?n w2] =>
    destruct (PutObject B b k d n w2) as [[e |] w3] end.
  { eexists _, w3. split; [done|]. left. by exists e. }
  cbn [fst snd]. destruct (time_Now B w3) as [t1 w4].
  eexists _, w4. split; [done|]. right.
  exists (map fresh (seq 0 (length data))), (subMono t1 t0).
  split; [by rewrite length_map, length_seq | done].
Qed.

Hypothesis numFiles_bound : numFiles < maxInt64.

(** The upload loop from the counter [i] on: [k] successful puts of
    consecutive keys, then either the end of the loop or the one put that
    failed. *)
Lemma uploadLoop_trace (fileSize : Z) (fuel : nat) (data : list Byte.byte)
    (acc : series) (i : Z) (w : W) (log : list event) :
  1 <= i ->
  ∃ res w' k tail,
    uploadLoop (recording B) fuel bucket fileSize numFiles data acc i (w, log)
    = (res, (w', log ++ putEvents bucket (Z.of_nat (length data)) i k ++ tail)) ∧
    0 <= k <= Z.max 0 (numFiles - i + 1) ∧
    match res with
    | Returned acc' =>
        tail = [] ∧ k = Z.max 0 (numFiles - i + 1) ∧
        ∃ ds, Z.of_nat (length ds) = k ∧ times acc' = times acc ++ ds ∧
              speeds acc' = speeds acc ++ map (speedMBps fileSize) ds
    | LogFatal f =>
        k < Z.max 0 (numFiles - i + 1) ∧
        tail = [EvPut bucket (objectKey (i + k)) (Z.of_nat (length data))] ∧
        ∃ e, f = UnableToUpload (objectKey (i + k)) bucket e
    | Diverges => tail = [] ∧ Z.of_nat fuel <= k
    | _ => False
    end.
Proof.
  revert data acc i w log.
  induction fuel as [| fuel IH]; intros data acc i w log Hi.
  { exists Diverges, w, 0, []. cbn [uploadLoop]. unfold lift.
    split; [by rewrite !app_nil_r|]. split; [lia|]. split; [done | lia]. }
  rewrite uploadLoop_S. destruct (Z.leb_spec i numFiles) as [Hle | Hgt].
  2:{ exists (Returned acc), w, 0, []. split; [by rewrite !app_nil_r|].
      split; [lia|]. split; [done|]. split; [lia|].
      exists []. by rewrite !app_nil_r. }
  destruct (uploadTrial_trace fileSize data acc i w log)
    as (res & w1 & -> & [[e ->] | (data' & d & Hlen & ->)]).
  { exists (LogFatal (UnableToUpload (objectKey i) bucket e)), w1, 0,
      [EvPut bucket (objectKey i) (Z.of_nat (length data))].
    split; [done|]. split; [lia|]. rewrite Z.add_0_r.
    split; [lia|]. split; [done|]. by exists e. }
  rewrite (wrap64_succ i numFiles) by lia.
  destruct (IH data' (mkSeries (times acc ++ [d])
                               (speeds acc ++ [speedMBps fileSize d]))
               (i + 1) w1
               (log ++ [EvPut bucket (objectKey i) (Z.of_nat (length data))]))
    as (res & w2 & k & tail & -> & Hk & Hres); [lia|].
  rewrite Hlen in *.
  exists res, w2, (k + 1), tail.
  split; [by rewrite putEvents_cons, <- !app_assoc by lia|].
  split; [lia|].
  destruct res as [acc' | p | f | c |]; [| done | | done |].
  - destruct Hres as (-> & Hkmax & ds & Hds & Ht & Hs).
    cbn [times speeds] in Ht, Hs. split; [done|]. split; [lia|].
    exists (d :: ds). split; [cbn [length]; lia|].
    by rewrite Ht, Hs, <- !app_assoc.
  - destruct Hres as (Hlt & -> & e & ->).
    replace (i + (k + 1)) with (i + 1 + k) by lia.
    split; [lia|]. split; [done|]. by exists e.
  - destruct Hres as [-> Hfuel]. split; [done | lia].
Qed.

(** The download loop from the counter [i] on: [k] objects fetched and
    drained at the expected size, then either the end of the loop or the
    one trial that failed. *)
Lemma downloadLoop_trace (expected : Z) (fuel : nat) (acc : series) (i : Z)
    (w : W) (log : list event) :
  1 <= i ->
  ∃ res w' k tail,
    downloadLoop (recording B) fuel bucket expected numFiles acc i (w, log)
    = (res, (w', log ++ getEvents bucket expected i k ++ tail)) ∧
    0 <= k <= Z.max 0 (numFiles - i + 1) ∧
    match res with
    | Returned acc' =>
        tail = [] ∧ k = Z.max 0 (numFiles - i + 1) ∧
        ∃ ds, Z.of_nat (length ds) = k ∧ times acc' = times acc ++ ds ∧
              speeds acc' = speeds acc ++ map (speedMBps expected) ds
    | LogFatal f =>
        k < Z.max 0 (numFiles - i + 1) ∧
        ((tail = [EvGet bucket (objectKey (i + k))] ∧
          ∃ e, f = UnableToDownload (objectKey (i + k)) bucket e) ∨
         (∃ sz e, tail = [EvGet bucket (objectKey (i + k));
                          EvDrained sz (Some e)] ∧
                  f = UnableToReceive (objectKey (i + k)) bucket e) ∨
         (∃ sz, tail = [EvGet bucket (objectKey (i + k)); EvDrained sz None] ∧
                sz <> expected ∧ f = UnmatchedSizes sz expected))
    | Diverges => tail = [] ∧ Z.of_nat fuel <= k
    | _ => False
    end.
Proof.
  revert acc i w log.
  induction fuel as [| fuel IH]; intros acc i w log Hi.
  { exists Diverges, w, 0, []. cbn [downloadLoop]. unfold lift.
    split; [by rewrite !app_nil_r|]. split; [lia|]. split; [done | lia]. }
  rewrite downloadLoop_S. destruct (Z.leb_spec i numFiles) as [Hle | Hgt].
  2:{ exists (Returned acc), w, 0, []. split; [by rewrite !app_nil_r|].
      split; [lia|]. split; [done|]. split; [lia|].
      exists []. by rewrite !app_nil_r. }
  destruct (downloadTrial_recorded B bucket expected acc i w log)
    as (res & w1 & tail & -> & Htail).
  destruct Htail as [[-> [e ->]] | [(sz & e & -> & ->) | [(sz & -> & Hne & ->)
                     | (d & -> & ->)]]].
  - eexists _, w1, 0, _. split; [done|]. split; [lia|]. rewrite Z.add_0_r.
    split; [lia|]. left. split; [done|]. by exists e.
  - eexists _, w1, 0, _. split; [done|]. split; [lia|]. rewrite Z.add_0_r.
    split; [lia|]. right; left. by exists sz, e.
  - eexists _, w1, 0, _. split; [done|]. split; [lia|]. rewrite Z.add_0_r.
    split; [lia|]. right; right. by exists sz.
  - rewrite (wrap64_succ i numFiles) by lia.
    destruct (IH (mkSeries (times acc ++ [d])
                           (speeds acc ++ [speedMBps expected d]))
                 (i + 1) w1
                 (log ++ [EvGet bucket (objectKey i); EvDrained expected None]))
      as (res & w2 & k & tail & -> & Hk & Hres); [lia|].
    exists res, w2, (k + 1), tail.
    split; [by rewrite getEvents_cons, <- !app_assoc by lia|].
    split; [lia|].
    destruct res as [acc' | p | f | c |]; [| done | | done |].
    + destruct Hres as (-> & Hkmax & ds & Hds & Ht & Hs).
      cbn [times speeds] in Ht, Hs. split; [done|]. split; [lia|].
      exists (d :: ds). split; [cbn [length]; lia|].
      by rewrite Ht, Hs, <- !app_assoc.
    + destruct Hres as [Hlt Hf].
      replace (i + (k + 1)) with (i + 1 + k) by lia. split; [lia | done].
    + destruct Hres as [-> Hfuel]. split; [done | lia].
Qed.
End Trace.

Lemma uploadFiles_phase {W P : Type} (B : Backend W P) (bucket : string)
    (fileSize numFiles : Z) (w : W) (log : list event) :
  numFiles < maxInt64 -> 0 <= fileSize <= maxAlloc ->
  (mallocgc B fileSize w).1 = true ->
  ∃ res w' k tail,
    uploadFiles (recording B) bucket fileSize numFiles (w, log)
    = (res, (w', log ++ putEvents bucket fileSize 1 k ++ tail)) ∧
    0 <= k <= Z.max 0 numFiles ∧
    match res with
    | Returned (uploadTimes, uploadSpeeds) =>
        tail = [] ∧ k = Z.max 0 numFiles ∧
        Z.of_nat (length uploadTimes) = k ∧
        uploadSpeeds = map (speedMBps fileSize) uploadTimes
    | LogFatal f =>
        k < numFiles ∧
        tail = [EvPut bucket (objectKey (k + 1)) fileSize] ∧
        ∃ e, f = UnableToUpload (objectKey (k + 1)) bucket e
    | _ => False
    end.
Proof.
  intros Hn Hsize Hmem. rewrite uploadFiles_eq.
  destruct (Z.ltb_spec fileSize 0); [lia|].
  destruct (Z.ltb_spec maxAlloc fileSize); [lia|].
  cbn [orb recording mallocgc fst snd].
  destruct (mallocgc B fileSize w) as [ok w0]. cbn [fst] in Hmem. subst ok.
  destruct (uploadLoop_trace B bucket numFiles Hn fileSize
              (S (Z.to_nat numFiles)) (repeat Byte.x00 (Z.to_nat fileSize))
              (mkSeries [] []) 1 w0 log)
    as (res & w' & k & tail & Hrun & Hk & Hres); [lia|].
  rewrite repeat_length, Z2Nat.id in Hrun, Hres by lia.
  replace (numFiles - 1 + 1) with numFiles in * by lia.
  rewrite Hrun.
  destruct res as [acc' | p | f | c |]; try done.
  - exists (Returned (times acc', speeds acc')), w', k, tail.
    destruct Hres as (-> & -> & ds & Hds & Ht & Hs). cbn in Ht, Hs.
    split; [done|]. split; [lia|]. rewrite Ht, Hs. done.
  - exists (LogFatal f), w', k, tail. split; [done|]. split; [lia|].
    destruct Hres as (Hlt & -> & e & ->).
    replace (1 + k) with (k + 1) by lia. split; [lia|]. split; [done|].
    by exists e.
  - destruct Hres as [_ Hfuel]. lia.
Qed.

Lemma downloadFiles_phase {W P : Type} (B : Backend W P) (bucket : string)
    (expected numFiles : Z) (w : W) (log : list event) :
  numFiles < maxInt64 ->
  ∃ res w' k tail,
    downloadFiles (recording B) bucket expected numFiles (w, log)
    = (res, (w', log ++ getEvents bucket expected 1 k ++ tail)) ∧
    0 <= k <= Z.max 0 numFiles ∧
    match res with
    | Returned (downloadTimes, downloadSpeeds) =>
        tail = [] ∧ k = Z.max 0 numFiles ∧
        Z.of_nat (length downloadTimes) = k ∧
        downloadSpeeds = map (speedMBps expected) downloadTimes
    | LogFatal f =>
        k < numFiles ∧ downloadFailure bucket expected (k + 1) tail f
    | _ => False
    end.
Proof.
  intros Hn. unfold downloadFiles.
  destruct (downloadLoop_trace B bucket numFiles Hn expected
              (S (Z.to_nat numFiles)) (mkSeries [] []) 1 w log)
    as (res & w' & k & tail & Hrun & Hk & Hres); [lia|].
  replace (numFiles - 1 + 1) with numFiles in * by lia.
  rewrite bind_run, Hrun.
  destruct res as [acc' | p | f | c |]; try done.
  - exists (Returned (times acc', speeds acc')), w', k, tail.
    destruct Hres as (-> & -> & ds & Hds & Ht & Hs). cbn in Ht, Hs.
    split; [done|]. split; [lia|]. rewrite Ht, Hs. done.
  - exists (LogFatal f), w', k, tail. split; [done|]. split; [lia|].
    destruct Hres as [Hlt Hf].
    replace (1 + k) with (k + 1) in Hf by lia. split; [lia | done].
  - destruct Hres as [_ Hfuel]. lia.
Qed.





(** The two phases on a store that never fails, and a download that finds
    4 bytes where 5 are expected. *)
Example phases_traced :
  (uploadFiles (recording (steadyBackend 4 1000000)) "bench" 4 3 (0, [])).2.2
  = [EvPut "bench" "file-1.dat" 4; EvPut "bench" "file-2.dat" 4;
     EvPut "bench" "file-3.dat" 4] ∧
  (downloadFiles (recording (steadyBackend 4 1000000)) "bench" 4 2 (0, [])).2.2
  = [EvGet "bench" "file-1.dat"; EvDrained 4 None;
     EvGet "bench" "file-2.dat"; EvDrained 4 None] ∧
  downloadFiles (recording (steadyBackend 4 1000000)) "bench" 5 2 (0, [])
  = (LogFatal (UnmatchedSizes 4 5),
     (1000000, [EvGet "bench" "file-1.dat"; EvDrained 4 None])).
Proof. split_and!; vm_compute; reflexivity. Qed.

(** ** The trace of a run *)

Lemma putEvents_isPut (bucket : string) (size i k : Z) :
  Forall isPut (putEvents bucket size i k).
Proof. unfold putEvents. apply Forall_fmap, Forall_true. done. Qed.

Lemma getEvents_not_isPut (bucket : string) (size i k : Z) :
  Forall (fun e => ¬ isPut e) (getEvents bucket size i k).
Proof.
  unfold getEvents. induction (seqZ i k) as [| j l IH]; [constructor|].
  cbn. constructor; [by intros []|]. constructor; [by intros []|]. done.
Qed.

Lemma downloadFailure_not_isPut (bucket : string) (expected i : Z)
    (tail : list event) (f : fatal) :
  downloadFailure bucket expected i tail f -> Forall (fun e => ¬ isPut e) tail.
Proof.
  intros [[-> _] | [(sz & e & -> & _) | (sz & -> & _)]];
    repeat (constructor; [by intros []|]); constructor.
Qed.

(** A run of main, stage by stage, with the calls it makes to the store. *)
Lemma main_trace {W P : Type} (B : Backend W P) (getenv : string -> string)
    (flags : Flags) (w : W) :
  trials flags < maxInt64 ->
  ∃ res w' log,
    main (recording B) getenv flags (w, []) = (res, (w', log)) ∧
    ((log = [] ∧ forall report, res <> Returned report) ∨
     (configured getenv flags = true ∧
      (minio_New B (endpoint flags) (effectiveAccessKey getenv flags)
                 (effectiveSecretKey getenv flags) w).1 = None ∧
      0 <= fileSizeBytes flags ∧
      ((∃ k e, 0 <= k < trials flags ∧
          res = LogFatal (UnableToUpload (objectKey (k + 1)) (bucketName flags) e) ∧
          log = putEvents (bucketName flags) (fileSizeBytes flags) 1 k
                ++ [EvPut (bucketName flags) (objectKey (k + 1))
                          (fileSizeBytes flags)]) ∨
       (∃ k tail f, 0 <= k < trials flags ∧ res = LogFatal f ∧
          downloadFailure (bucketName flags) (fileSizeBytes flags) (k + 1)
                          tail f ∧
          log = putEvents (bucketName flags) (fileSizeBytes flags) 1
                          (trials flags)
                ++ getEvents (bucketName flags) (fileSizeBytes flags) 1 k
                ++ tail) ∨
       (∃ uploadTimes downloadTimes,
          Z.of_nat (length uploadTimes) = Z.max 0 (trials flags) ∧
          Z.of_nat (length downloadTimes) = Z.max 0 (trials flags) ∧
          res = statistics uploadTimes
                  (map (speedMBps (fileSizeBytes flags)) uploadTimes)
                  downloadTimes
                  (map (speedMBps (fileSizeBytes flags)) downloadTimes) ∧
          log = putEvents (bucketName flags) (fileSizeBytes flags) 1
                          (Z.max 0 (trials flags))
                ++ getEvents (bucketName flags) (fileSizeBytes flags) 1
                             (Z.max 0 (trials flags)))))).
Proof.
  intros Hn. rewrite main_stages.
  destruct (configured getenv flags) eqn:Hcfg.
  2:{ exists (Exited 1), w, []. split; [done|]. by left. }
  cbn [recording minio_New fst snd].
  destruct (minio_New B _ _ _ w) as [[e |] w0] eqn:Hnew.
  { eexists _, w0, []. split; [done|]. by left. }
  destruct (uploadFiles_ending (recording B) (bucketName flags)
              (fileSizeBytes flags) (trials flags) (w0, []))
    as [[_ ->] | [Hsize [[_ ->] | [Hmem _]]]].
  { exists (Panicked MakesliceLenOutOfRange), w0, []. split; [done|]. by left. }
  { cbn [recording mallocgc fst snd].
    destruct (mallocgc B (fileSizeBytes flags) w0) as [ok w1].
    exists (Panicked OutOfMemory), w1, []. split; [done|]. by left. }
  assert ((mallocgc B (fileSizeBytes flags) w0).1 = true) as Hmem'.
  { cbn [recording mallocgc fst snd] in Hmem.
    by destruct (mallocgc B (fileSizeBytes flags) w0). }
  destruct (uploadFiles_phase B (bucketName flags) (fileSizeBytes flags)
              (trials flags) w0 [] Hn Hsize Hmem')
    as (ures & w1 & ku & utail & -> & Hku & Hures).
  cbn [app].
  destruct ures as [[ut us] | p | f | c |]; try done.
  2:{ destruct Hures as (Hlt & -> & e & ->).
      eexists _, w1, _. split; [done|]. right.
      split_and!; [done | done | lia |].
      left. exists ku, e. split; [lia|]. done. }
  destruct Hures as (-> & -> & Hut & ->). rewrite app_nil_r.
  destruct (downloadFiles_phase B (bucketName flags) (fileSizeBytes flags)
              (trials flags) w1
              (putEvents (bucketName flags) (fileSizeBytes flags) 1
                         (Z.max 0 (trials flags))) Hn)
    as (dres & w2 & kd & dtail & -> & Hkd & Hdres).
  destruct dres as [[dt ds] | p | f | c |]; try done.
  - destruct Hdres as (-> & -> & Hdt & ->). rewrite app_nil_r.
    eexists _, w2, _. split; [done|]. right.
    split_and!; [done | done | lia |].
    right; right. by exists ut, dt.
  - destruct Hdres as [Hlt Hfail].
    eexists _, w2, _. split; [done|]. right.
    split_and!; [done | done | lia |].
    right; left. exists kd, dtail, f. split; [lia|]. split; [done|].
    split; [done|]. by rewrite Z.max_r by lia.
Qed.

(** main makes no call to the object store unless the configuration is
    complete, the client could be created, the size in bytes derived from
    -fileSize is not negative and the trial count is at least one. *)
Theorem main_store_calls_need_valid_setup {W P : Type} (B : Backend W P)
    (getenv : string -> string) (flags : Flags) (w w' : W)
    (res : outcome Report) (log : list event) :
  trials flags < maxInt64 ->
  main (recording B) getenv flags (w, []) = (res, (w', log)) ->
  log <> [] ->
  configured getenv flags = true ∧
  (minio_New B (endpoint flags) (effectiveAccessKey getenv flags)
             (effectiveSecretKey getenv flags) w).1 = None ∧
  0 <= fileSizeBytes flags ∧
  1 <= trials flags.
Proof.
  intros Hn Hrun Hlog.
  destruct (main_trace B getenv flags w Hn) as (res0 & w0 & log0 & Hrun0 & Hcases).
  rewrite Hrun in Hrun0. injection Hrun0 as <- <- <-.
  destruct Hcases as [[-> _] | (Hcfg & Hnew & Hsize & Hphases)]; [done|].
  split_and!; [done..|].
  destruct Hphases as [(k & e & Hk & _) | [(k & tail & f & Hk & _)
                      | (ut & dt & _ & _ & _ & ->)]]; [lia | lia |].
  destruct (Z.le_gt_cases 1 (trials flags)) as [? | Hle]; [done|].
  rewrite Z.max_l in Hlog by lia. done.
Qed.

Lemma main_store_calls_need_valid_setup_witness :
  trials (testFlags 0 1) < maxInt64 ∧
  configured (fun _ => "") (testFlags 0 1) = true ∧
  0 <= fileSizeBytes (testFlags 0 1) ∧
  1 <= trials (testFlags 0 1).
Proof.
  split; [by vm_compute|].
  destruct (main_store_calls_need_valid_setup (steadyBackend 0 1000000)
              (fun _ => "") (testFlags 0 1) 0 2000000
              (Returned {| Avg_DownloadTime := 1000000;
                           Avg_UploadTime := 1000000;
                           P90_UploadTime := 1000000;
                           P90_UploadSpeed := S754_zero false;
                           P90_DownloadTime := 1000000;
                           P90_DownloadSpeed := S754_zero false |})
              [EvPut "bench" "file-1.dat" 0; EvGet "bench" "file-1.dat";
               EvDrained 0 None])
    as (Hcfg & _ & Hsize & Htrials);
    [by vm_compute | vm_compute; reflexivity | discriminate |].
  split; [exact Hcfg|]. split; [exact Hsize | exact Htrials].
Defined.

(** The phases of main do not overlap: when a run requests an object, all
    the objects of the trials 1 .. N have been put before, each with the
    configured size, and what follows the puts contains no further put. *)
Theorem main_downloads_after_all_uploads {W P : Type} (B : Backend W P)
    (getenv : string -> string) (flags : Flags) (w w' : W)
    (res : outcome Report) (log : list event) (bucket key : string) :
  trials flags < maxInt64 ->
  main (recording B) getenv flags (w, []) = (res, (w', log)) ->
  EvGet bucket key ∈ log ->
  ∃ rest,
    log = putEvents (bucketName flags) (fileSizeBytes flags) 1 (trials flags)
          ++ rest ∧
    Forall (fun e => ¬ isPut e) rest.
Proof.
  intros Hn Hrun Hget.
  destruct (main_trace B getenv flags w Hn) as (res0 & w0 & log0 & Hrun0 & Hcases).
  rewrite Hrun in Hrun0. injection Hrun0 as <- <- <-.
  destruct Hcases as [[-> _] | (Hcfg & Hnew & Hsize & Hphases)].
  { by apply elem_of_nil in Hget. }
  destruct Hphases as [(k & e & Hk & _ & ->) | [(k & tail & f & Hk & _ & Hf & ->)
                      | (ut & dt & _ & _ & _ & ->)]].
  - apply elem_of_app in Hget as [Hget | Hget].
    + pose proof (putEvents_isPut (bucketName flags) (fileSizeBytes flags) 1 k)
        as Hputs.
      rewrite Forall_forall in Hputs. by destruct (Hputs _ Hget).
    + apply list_elem_of_singleton in Hget. discriminate.
  - eexists. split; [done|]. apply Forall_app. split.
    + apply getEvents_not_isPut.
    + by eapply downloadFailure_not_isPut.
  - destruct (Z.le_gt_cases 1 (trials flags)) as [? | Hle].
    + rewrite Z.max_r by lia. eexists. split; [done|].
      apply getEvents_not_isPut.
    + rewrite Z.max_l in Hget by lia. by apply elem_of_nil in Hget.
Qed.

(** A run of main that returns a report has made exactly these calls to
    the store: N puts, of the objects of the trials 1 .. N with the
    configured size each, then for each trial 1 .. N in turn the request of
    its object and the drain of the response at the configured size; N is
    at least one.  The report is the statistics of N upload durations and N
    download durations, the speeds being computed from the configured size
    and these durations. *)
Theorem main_successful_trace {W P : Type} (B : Backend W P)
    (getenv : string -> string) (flags : Flags) (w w' : W)
    (report : Report) (log : list event) :
  trials flags < maxInt64 ->
  main (recording B) getenv flags (w, []) = (Returned report, (w', log)) ->
  1 <= trials flags ∧
  log = putEvents (bucketName flags) (fileSizeBytes flags) 1 (trials flags)
        ++ getEvents (bucketName flags) (fileSizeBytes flags) 1 (trials flags) ∧
  ∃ uploadTimes downloadTimes,
    Z.of_nat (length uploadTimes) = trials flags ∧
    Z.of_nat (length downloadTimes) = trials flags ∧
    statistics uploadTimes (map (speedMBps (fileSizeBytes flags)) uploadTimes)
               downloadTimes
               (map (speedMBps (fileSizeBytes flags)) downloadTimes)
    = Returned report.
Proof.
  intros Hn Hrun.
  destruct (main_trace B getenv flags w Hn) as (res0 & w0 & log0 & Hrun0 & Hcases).
  rewrite Hrun in Hrun0. injection Hrun0 as <- <- <-.
  destruct Hcases as [[-> Hnothing] | (Hcfg & Hnew & Hsize & Hphases)].
  { by destruct (Hnothing report). }
  destruct Hphases as [(k & e & _ & [=] & _) | [(k & tail & f & _ & [=] & _)
                      | (ut & dt & Hut & Hdt & Hstat & ->)]].
  assert (1 <= trials flags) as Htrials.
  { destruct (Z.le_gt_cases 1 (trials flags)) as [? | Hle]; [done|].
    rewrite Z.max_l in Hut by lia. destruct ut; [|done]. discriminate Hstat. }
  rewrite Z.max_r in * by lia.
  split; [done|]. split; [done|]. by exists ut, dt.
Qed.

Lemma main_successful_trace_witness :
  trials (testFlags 0 1) < maxInt64 ∧
  [EvPut "bench" "file-1.dat" 0; EvGet "bench" "file-1.dat"; EvDrained 0 None]
  = putEvents "bench" (fileSizeBytes (testFlags 0 1)) 1 1
    ++ getEvents "bench" (fileSizeBytes (testFlags 0 1)) 1 1.
Proof.
  split; [by vm_compute|].
  destruct (main_successful_trace (steadyBackend 0 1000000)
              (fun _ => "") (testFlags 0 1) 0 2000000
              {| Avg_DownloadTime := 1000000;
                 Avg_UploadTime := 1000000;
                 P90_UploadTime := 1000000;
                 P90_UploadSpeed := S754_zero false;
                 P90_DownloadTime := 1000000;
                 P90_DownloadSpeed := S754_zero false |}
              [EvPut "bench" "file-1.dat" 0; EvGet "bench" "file-1.dat";
               EvDrained 0 None])
    as (_ & Hlog & _); [by vm_compute | vm_compute; reflexivity |].
  exact Hlog.
Defined.

Lemma main_downloads_after_all_uploads_witness :
  trials (testFlags 0 1) < maxInt64 ∧
  ∃ rest,
    [EvPut "bench" "file-1.dat" 0; EvGet "bench" "file-1.dat"; EvDrained 0 None]
    = putEvents "bench" (fileSizeBytes (testFlags 0 1)) 1 1 ++ rest ∧
    Forall (fun e => ¬ isPut e) rest.
Proof.
  split; [by vm_compute|].
  apply (main_downloads_after_all_uploads (steadyBackend 0 1000000)
           (fun _ => "") (testFlags 0 1) 0 2000000
           (Returned {| Avg_DownloadTime := 1000000;
                        Avg_UploadTime := 1000000;
                        P90_UploadTime := 1000000;
                        P90_UploadSpeed := S754_zero false;
                        P90_DownloadTime := 1000000;
                        P90_DownloadSpeed := S754_zero false |})
           [EvPut "bench" "file-1.dat" 0; EvGet "bench" "file-1.dat";
            EvDrained 0 None] "bench" "file-1.dat");
    [by vm_compute | vm_compute; reflexivity |].
  apply elem_of_cons. right. apply elem_of_cons. by left.
Defined.

(** ** The integrity check of the download phase *)

Lemma getEvents_drained (bucket : string) (size i k sz : Z)
    (err : option string) :
  EvDrained sz err ∈ getEvents bucket size i k -> sz = size ∧ err = None.
Proof.
  unfold getEvents. induction (seqZ i k) as [| j l IH]; cbn [flat_map app].
  - intros Hin. by apply elem_of_nil in Hin.
  - intros Hin. apply elem_of_cons in Hin as [? | Hin]; [done|].
    apply elem_of_cons in Hin as [[= -> ->] | Hin]; [done | by apply IH].
Qed.

Lemma putEvents_no_drain (bucket : string) (size i k sz : Z)
    (err : option string) :
  EvDrained sz err ∈ putEvents bucket size i k -> False.
Proof.
  intros Hin. pose proof (putEvents_isPut bucket size i k) as Hputs.
  rewrite Forall_forall in Hputs. exact (Hputs _ Hin).
Qed.

Section Verified.
Context {W P : Type}.
Variable B : Backend W P.
Variables (bucket : string) (expected numFiles : Z).

(** The events of a download loop: a drained size that differs from the
    expected one ends the loop with the integrity error, and a loop that
    returns has drained the expected size every time and computed every
    speed from it. *)
Lemma downloadLoop_verified (fuel : nat) (acc : series) (i : Z) (w : W)
    (log : list event) :
  ∃ res w' dlog,
    downloadLoop (recording B) fuel bucket expected numFiles acc i (w, log)
    = (res, (w', log ++ dlog)) ∧
    Forall (fun e => match e with EvPut _ _ _ => False | _ => True end) dlog ∧
    (forall sz, EvDrained sz None ∈ dlog -> sz <> expected ->
       res = LogFatal (UnmatchedSizes sz expected)) ∧
    (forall acc', res = Returned acc' ->
       (forall sz e, EvDrained sz e ∈ dlog -> sz = expected ∧ e = None) ∧
       ∃ ds, times acc' = times acc ++ ds ∧
             speeds acc' = speeds acc ++ map (speedMBps expected) ds).
Proof.
  revert acc i w log. induction fuel as [| fuel IH]; intros acc i w log.
  { exists Diverges, w, []. cbn [downloadLoop]. unfold lift.
    rewrite app_nil_r. split_and!; [done | constructor | | intros; discriminate].
    intros sz Hin. by apply elem_of_nil in Hin. }
  rewrite downloadLoop_S. destruct (i <=? numFiles).
  2:{ exists (Returned acc), w, []. rewrite app_nil_r.
      split_and!; [done | constructor | |].
      - intros sz Hin. by apply elem_of_nil in Hin.
      - intros acc' [= <-]. split.
        + intros sz e Hin. by apply elem_of_nil in Hin.
        + exists []. by rewrite !app_nil_r. }
  destruct (downloadTrial_recorded B bucket expected acc i w log)
    as (res & w1 & tail & -> & Htail).
  destruct Htail as [[-> [e ->]] | [(sz & e & -> & ->) | [(sz & -> & Hne & ->)
                     | (d & -> & ->)]]].
  - exists (LogFatal (UnableToDownload (objectKey i) bucket e)), w1,
      [EvGet bucket (objectKey i)].
    split_and!; [done | by repeat constructor | | intros; discriminate].
    intros sz Hin. apply list_elem_of_singleton in Hin. discriminate.
  - exists (LogFatal (UnableToReceive (objectKey i) bucket e)), w1,
      [EvGet bucket (objectKey i); EvDrained sz (Some e)].
    split_and!; [done | by repeat constructor | | intros; discriminate].
    intros sz' Hin. by apply elem_of_get_drained in Hin as [? | ?].
  - exists (LogFatal (UnmatchedSizes sz expected)), w1,
      [EvGet bucket (objectKey i); EvDrained sz None].
    split_and!; [done | by repeat constructor | | intros; discriminate].
    intros sz' Hin _.
    apply elem_of_get_drained in Hin as [? | [= ->]]; done.
  - destruct (IH (mkSeries (times acc ++ [d])
                           (speeds acc ++ [speedMBps expected d]))
                 (wrap64 (i + 1)) w1
                 (log ++ [EvGet bucket (objectKey i); EvDrained expected None]))
      as (res & w2 & dlog & -> & Hnoput & Hbad & Hgood).
    exists res, w2,
      ([EvGet bucket (objectKey i); EvDrained expected None] ++ dlog).
    split_and!.
    + by rewrite <- app_assoc.
    + apply Forall_app. split; [by repeat constructor | done].
    + intros sz Hin Hne. apply Hbad; [|done].
      apply elem_of_app in Hin as [Hin | Hin]; [|done].
      apply elem_of_get_drained in Hin as [? | [= ->]]; done.
    + intros acc' Hret. destruct (Hgood acc' Hret) as (Hall & ds & Ht & Hs).
      cbn [times speeds] in Ht, Hs. split.
      * intros sz e Hin. apply elem_of_app in Hin as [Hin | Hin]; [|by eauto].
        apply elem_of_get_drained in Hin as [? | [= -> ->]]; done.
      * exists (d :: ds). rewrite Ht, Hs, <- !app_assoc. done.
Qed.
End Verified.

(** An upload phase only puts objects. *)
Lemma uploadLoop_puts_only {W P : Type} (B : Backend W P) (bucket : string)
    (fileSize numFiles : Z) (fuel : nat) (data : list Byte.byte) (acc : series)
    (i : Z) (w : W) (log : list event) :
  ∃ res w' ulog,
    uploadLoop (recording B) fuel bucket fileSize numFiles data acc i (w, log)
    = (res, (w', log ++ ulog)) ∧
    Forall (fun e => match e with EvPut _ _ _ => True | _ => False end) ulog.
Proof.
  revert data acc i w log. induction fuel as [| fuel IH]; intros data acc i w log.
  { exists Diverges, w, []. rewrite app_nil_r. by split. }
  rewrite uploadLoop_S. destruct (i <=? numFiles).
  2:{ exists (Returned acc), w, []. rewrite app_nil_r. by split. }
  destruct (uploadTrial_recorded B bucket fileSize data acc i w log)
    as (res & w1 & ->).
  destruct res as [[data' acc'] | p | f | c |];
    try (eexists _, w1, [_]; split; [done | by repeat constructor]).
  destruct (IH data' acc' (wrap64 (i + 1)) w1
              (log ++ [EvPut bucket (objectKey i) (Z.of_nat (length data))]))
    as (res & w2 & ulog & -> & Hputs).
  exists res, w2, (EvPut bucket (objectKey i) (Z.of_nat (length data)) :: ulog).
  split; [by rewrite <- app_assoc | by constructor].
Qed.

Lemma uploadFiles_puts_only {W P : Type} (B : Backend W P) (bucket : string)
    (fileSize numFiles : Z) (w : W) (log : list event) :
  ∃ res w' ulog,
    uploadFiles (recording B) bucket fileSize numFiles (w, log)
    = (res, (w', log ++ ulog)) ∧
    Forall (fun e => match e with EvPut _ _ _ => True | _ => False end) ulog.
Proof.
  rewrite uploadFiles_eq.
  destruct ((fileSize <? 0) || (maxAlloc <? fileSize)).
  { exists (Panicked MakesliceLenOutOfRange), w, []. rewrite app_nil_r. by split. }
  cbn [recording mallocgc fst snd].
  destruct (mallocgc B fileSize w) as [[|] w0].
  2:{ exists (Panicked OutOfMemory), w0, []. rewrite app_nil_r. by split. }
  destruct (uploadLoop_puts_only B bucket fileSize numFiles
              (S (Z.to_nat numFiles)) (repeat Byte.x00 (Z.to_nat fileSize))
              (mkSeries [] []) 1 w0 log) as (res & w' & ulog & Hrun & Hputs).
  rewrite Hrun.
  destruct res as [acc | p | f | c |]; eexists _, w', ulog; by split.
Qed.

Lemma downloadFiles_verified {W P : Type} (B : Backend W P) (bucket : string)
    (expected numFiles : Z) (w : W) (log : list event) :
  ∃ res w' dlog,
    downloadFiles (recording B) bucket expected numFiles (w, log)
    = (res, (w', log ++ dlog)) ∧
    Forall (fun e => match e with EvPut _ _ _ => False | _ => True end) dlog ∧
    (forall sz, EvDrained sz None ∈ dlog -> sz <> expected ->
       res = LogFatal (UnmatchedSizes sz expected)) ∧
    (forall ts ss, res = Returned (ts, ss) ->
       (forall sz e, EvDrained sz e ∈ dlog -> sz = expected ∧ e = None) ∧
       ss = map (speedMBps expected) ts).
Proof.
  unfold downloadFiles.
  destruct (downloadLoop_verified B bucket expected numFiles
              (S (Z.to_nat numFiles)) (mkSeries [] []) 1 w log)
    as (res & w' & dlog & Hrun & Hnoput & Hbad & Hgood).
  unfold mbind, M_bind. rewrite Hrun.
  destruct res as [acc | p | f | c |]; eexists _, w', dlog;
    (split_and!; [done | done | |]).
  all: try (intros sz Hin Hne; pose proof (Hbad sz Hin Hne) as Hf;
            first [discriminate Hf | injection Hf as ->; reflexivity]).
  all: try (intros ts ss Hret; discriminate Hret).
  intros ts ss [= <- <-]. destruct (Hgood acc eq_refl) as (Hall & ds & Ht & Hs).
  split; [done|]. cbn in Ht, Hs. by rewrite Hs, Ht.
Qed.

(** The statistics stage does not touch the world. *)
Lemma lift_bind_world {W A C : Type} (o : outcome A) (k : A -> M W C) (w : W) :
  (forall a w0, (k a w0).2 = w0) -> ((lift o ≫= k) w).2 = w.
Proof.
  intros Hk. unfold mbind, M_bind, lift. destruct o; cbn [snd]; [apply Hk | done..].
Qed.

Lemma main_recorded {W P : Type} (B : Backend W P) (getenv : string -> string)
    (flags : Flags) (w : W) :
  ∃ res w' log,
    main (recording B) getenv flags (w, []) = (res, (w', log)) ∧
    forall sz, EvDrained sz None ∈ log -> sz <> fileSizeBytes flags ->
      res = LogFatal (UnmatchedSizes sz (fileSizeBytes flags)).
Proof.
  unfold main. cbv zeta.
  change (wrap64 (fileSizeMb flags * (1024 * 1024))) with (fileSizeBytes flags).
  match goal with |- context [if ?c then os_Exit 1 else _] => destruct c end.
  { exists (Exited 1), w, []. split; [done|].
    intros sz Hin. by apply elem_of_nil in Hin. }
  rewrite bind_run. unfold call at 1. cbn [recording minio_New fst snd].
  match goal with |- context [minio_New B ?e ?a ?s w] =>
    destruct (minio_New B e a s w) as [[err |] w0] end.
  { eexists _, w0, []. split; [done|].
    intros sz Hin. by apply elem_of_nil in Hin. }
  rewrite bind_run.
  destruct (uploadFiles_puts_only B (bucketName flags) (fileSizeBytes flags)
              (trials flags) w0 []) as (ures & w1 & ulog & -> & Hputs).
  assert (Hnodrain : forall sz, EvDrained sz None ∈ ulog -> False).
  { intros sz Hin. rewrite Forall_forall in Hputs. by apply (Hputs _ Hin). }
  destruct ures as [[uploadTimes uploadSpeeds] | p | f | c |];
    try (eexists _, w1, ulog; split; [done|];
         intros sz Hin; by destruct (Hnodrain sz Hin)).
  rewrite bind_run.
  destruct (downloadFiles_verified B (bucketName flags) (fileSizeBytes flags)
              (trials flags) w1 ([] ++ ulog))
    as (dres & w2 & dlog & -> & _ & Hbad & Hgood).
  assert (Hdrain : forall sz, EvDrained sz None ∈ ([] ++ ulog) ++ dlog ->
            EvDrained sz None ∈ dlog).
  { intros sz Hin. apply elem_of_app in Hin as [Hin | Hin]; [|done].
    by destruct (Hnodrain sz Hin). }
  destruct dres as [[downloadTimes downloadSpeeds] | p | f | c |];
    try (eexists _, w2, (([] ++ ulog) ++ dlog); split; [done|];
         intros sz Hin Hne; pose proof (Hbad sz (Hdrain sz Hin) Hne) as Hf;
         first [discriminate Hf | injection Hf as ->; reflexivity]).
  destruct (Hgood downloadTimes downloadSpeeds eq_refl) as [Hall _].
  match goal with |- context [?m (w2, ([] ++ ulog) ++ dlog)] =>
    assert (Hworld : (m (w2, ([] ++ ulog) ++ dlog)).2 = (w2, ([] ++ ulog) ++ dlog));
    [| destruct (m (w2, ([] ++ ulog) ++ dlog)) as [res [w3 log3]] ]
  end.
  { repeat first
      [ apply lift_bind_world; intros ? ?
      | match goal with |- context [let '(_, _) := ?p in _] => destruct p end ].
    reflexivity. }
  cbn [snd] in Hworld. injection Hworld as -> ->.
  exists res, w2, (([] ++ ulog) ++ dlog). split; [done|].
  intros sz Hin Hne. destruct (Hall sz None (Hdrain sz Hin)) as [? _]. done.
Qed.

(** C4: every download trial requests the object of its index, drains the
    response and compares the number of bytes drained with the expected
    size: a different count ends the trial in the fatal integrity error,
    and an equal count lets it append a duration and the speed computed
    from the count that was received.  In a run of main, whatever the trial
    count, a drained count that differs from the configured size ends the
    run in that fatal error, with no report.  For a trial count below the
    largest int, the download phase requests and drains the objects in the
    order of the trials and returns exactly when every one of them had the
    expected size; a count that differs is the last event of the run; and
    a run of main that returns a report has drained every object at the
    configured size. *)
Theorem download_verifies_size {W P : Type} (B : Backend W P)
    (bucket : string) (expected numFiles : Z) (getenv : string -> string)
    (flags : Flags) (w w0 : W) :
  (forall (acc : series) (i : Z) (v v1 v2 v3 : W) (t0 sz : Z) (payload : P),
     time_Now B v = (t0, v1) ->
     GetObject B bucket (objectKey i) v1 = (inr payload, v2) ->
     io_Copy_Discard B payload v2 = ((sz, None), v3) ->
     (sz <> expected ->
      downloadTrial B bucket expected acc i v
      = (LogFatal (UnmatchedSizes sz expected), v3)) ∧
     (sz = expected ->
      downloadTrial B bucket expected acc i v
      = (Returned
           (mkSeries (times acc ++ [subMono (time_Now B v3).1 t0])
                     (speeds acc
                      ++ [speedMBps sz (subMono (time_Now B v3).1 t0)])),
         (time_Now B v3).2))) ∧
  (numFiles < maxInt64 ->
   ∃ res w' k tail,
     downloadFiles (recording B) bucket expected numFiles (w, [])
     = (res, (w', getEvents bucket expected 1 k ++ tail)) ∧
     0 <= k <= Z.max 0 numFiles ∧
     match res with
     | Returned (downloadTimes, downloadSpeeds) =>
         tail = [] ∧ k = Z.max 0 numFiles ∧
         Z.of_nat (length downloadTimes) = k ∧
         downloadSpeeds = map (speedMBps expected) downloadTimes
     | LogFatal f =>
         k < numFiles ∧ downloadFailure bucket expected (k + 1) tail f
     | _ => False
     end) ∧
  (∃ res w' log,
     main (recording B) getenv flags (w0, []) = (res, (w', log)) ∧
     (forall sz, EvDrained sz None ∈ log -> sz <> fileSizeBytes flags ->
        res = LogFatal (UnmatchedSizes sz (fileSizeBytes flags))) ∧
     (trials flags < maxInt64 ->
      (forall sz, EvDrained sz None ∈ log -> sz <> fileSizeBytes flags ->
         last log = Some (EvDrained sz None)) ∧
      (forall report, res = Returned report ->
         1 <= trials flags ∧
         log = putEvents (bucketName flags) (fileSizeBytes flags) 1
                         (trials flags)
               ++ getEvents (bucketName flags) (fileSizeBytes flags) 1
                            (trials flags)))).
Proof.
  split_and!.
  - intros acc i v v1 v2 v3 t0 sz payload Hnow Hget Hcopy.
    rewrite downloadTrial_eq, Hnow, Hget, Hcopy. split.
    + intros Hne. by destruct (Z.eqb_spec sz expected).
    + intros ->. rewrite Z.eqb_refl. by destruct (time_Now B v3).
  - intros Hn. exact (downloadFiles_phase B bucket expected numFiles w [] Hn).
  - destruct (main_recorded B getenv flags w0)
      as (res & w' & log & Hrun & Hfatal).
    exists res, w', log. split; [done|]. split; [done|].
    intros Htrials.
    destruct (main_trace B getenv flags w0 Htrials)
      as (res' & w'' & log' & Hrun' & Hcases).
    rewrite Hrun in Hrun'. injection Hrun' as <- <- <-.
    destruct Hcases as [[-> Hnothing] | (Hcfg & Hnew & Hsize & Hphases)].
    { split.
      - intros sz Hin. by apply elem_of_nil in Hin.
      - intros report ->. by destruct (Hnothing report). }
    destruct Hphases as [(k & e & Hk & -> & ->)
                        | [(k & tail & f & Hk & -> & Hfail & ->)
                        | (ut & dt & Hut & Hdt & Hres & ->)]].
    + split; [|done]. intros sz Hin _. exfalso.
      apply elem_of_app in Hin as [Hin | Hin].
      * by apply putEvents_no_drain in Hin.
      * apply list_elem_of_singleton in Hin. discriminate.
    + split; [|done]. intros sz Hin Hne.
      apply elem_of_app in Hin as [Hin | Hin];
        [by apply putEvents_no_drain in Hin|].
      apply elem_of_app in Hin as [Hin | Hin];
        [by apply getEvents_drained in Hin as [? _]|].
      destruct Hfail as [[-> _] | [(sz' & e & -> & _) | (sz' & -> & Hne' & _)]].
      * apply list_elem_of_singleton in Hin. discriminate.
      * apply elem_of_get_drained in Hin as [? | ?]; discriminate.
      * apply elem_of_get_drained in Hin as [? | [= ->]]; [discriminate|].
        by rewrite !last_app.
    + split.
      * intros sz Hin Hne. exfalso.
        apply elem_of_app in Hin as [Hin | Hin];
          [by apply putEvents_no_drain in Hin|].
        by apply getEvents_drained in Hin as [? _].
      * intros report Hstat. rewrite Hres in Hstat.
        assert (1 <= trials flags) as Hpos.
        { destruct (Z.le_gt_cases 1 (trials flags)) as [? | Hle]; [done|].
          rewrite Z.max_l in Hut by lia. destruct ut; [|done].
          discriminate Hstat. }
        by rewrite Z.max_r by lia.
Qed.

Lemma download_verifies_size_witness :
  2 < maxInt64 ∧
  ∃ res w' k tail,
    downloadFiles (recording (steadyBackend 4 1000000)) "bench" 5 2 (0, [])
    = (res, (w', getEvents "bench" 5 1 k ++ tail)) ∧
    0 <= k <= Z.max 0 2 ∧
    match res with
    | Returned (downloadTimes, downloadSpeeds) =>
        tail = [] ∧ k = Z.max 0 2 ∧
        Z.of_nat (length downloadTimes) = k ∧
        downloadSpeeds = map (speedMBps 5) downloadTimes
    | LogFatal f => k < 2 ∧ downloadFailure "bench" 5 (k + 1) tail f
    | _ => False
    end.
Proof.
  assert (2 < maxInt64) as Hn by (unfold maxInt64; lia).
  split; [exact Hn|].
  destruct (download_verifies_size (steadyBackend 4 1000000) "bench" 5 2
              (fun _ => "") (testFlags 0 1) 0 0)
    as (_ & Hphase & _).
  exact (Hphase Hn).
Defined.

(** A store whose objects have 4 bytes, read back expecting 5. *)
Example download_mismatch_is_fatal :
  (downloadFiles (steadyBackend 4 1000000) "bench" 5 3 0).1
    = LogFatal (UnmatchedSizes 4 5) ∧
  (main (steadyBackend 4 1000000) (fun _ => "") (testFlags 0 3) 0).1
    = LogFatal (UnmatchedSizes 4 0).
Proof. split; reflexivity. Qed.

(** ** Termination of the loops *)

Section Termination.
Context {W P : Type}.
Variable B : Backend W P.
Variables (bucket : string) (numFiles : Z).





End Termination.





(** ** Recording does not change a run *)

Section Transparent.
Context {W P : Type}.
Variable B : Backend W P.

Lemma recording_uploadTrial (bucket : string) (fileSize : Z)
    (data : list Byte.byte) (acc : series) (i : Z) (w : W) (log : list event) :
  ∃ log',
    uploadTrial (recording B) bucket fileSize data acc i (w, log)
    = ((uploadTrial B bucket fileSize data acc i w).1,
       ((uploadTrial B bucket fileSize data acc i w).2, log')).
Proof.
  rewrite !uploadTrial_eq. cbn [recording rand_Read time_Now PutObject fst snd].
  destruct (rand_Read B w) as [fresh w1]. cbn [fst snd].
  destruct (time_Now B w1) as [t0 w2]. cbn [fst snd]. cbv zeta.
  match goal with |- context [PutObject B ?b ?k ?d ?n w2] =>
    destruct (PutObject B b k d n w2) as [[e |] w3] end; [by eexists|].
  cbn [fst snd]. destruct (time_Now B w3) as [t1 w4]. by eexists.
Qed.

Lemma recording_downloadTrial (bucket : string) (expected : Z) (acc : series)
    (i : Z) (w : W) (log : list event) :
  ∃ log',
    downloadTrial (recording B) bucket expected acc i (w, log)
    = ((downloadTrial B bucket expected acc i w).1,
       ((downloadTrial B bucket expected acc i w).2, log')).
Proof.
  rewrite !downloadTrial_eq.
  cbn [recording time_Now GetObject io_Copy_Discard fst snd].
  destruct (time_Now B w) as [t0 w1]. cbn [fst snd].
  destruct (GetObject B bucket (objectKey i) w1) as [[e | payload] w2];
    [by eexists|].
  cbn [fst snd].
  destruct (io_Copy_Discard B payload w2) as [[sz [e |]] w3]; cbn [fst snd];
    [by eexists|].
  destruct (sz =? expected); [|by eexists].
  cbn [fst snd]. destruct (time_Now B w3) as [t1 w4]. by eexists.
Qed.

Lemma recording_uploadLoop (bucket : string) (fileSize numFiles : Z)
    (fuel : nat) (data : list Byte.byte) (acc : series) (i : Z) (w : W)
    (log : list event) :
  ∃ log',
    uploadLoop (recording B) fuel bucket fileSize numFiles data acc i (w, log)
    = ((uploadLoop B fuel bucket fileSize numFiles data acc i w).1,
       ((uploadLoop B fuel bucket fileSize numFiles data acc i w).2, log')).
Proof.
  revert data acc i w log.
  induction fuel as [| fuel IH]; intros data acc i w log; [by eexists|].
  rewrite !uploadLoop_S. destruct (i <=? numFiles); [|by eexists].
  destruct (recording_uploadTrial bucket fileSize data acc i w log)
    as [log1 ->].
  destruct (uploadTrial B bucket fileSize data acc i w)
    as [[[data' acc'] | p | f | c |] w1]; cbn [fst snd]; try by eexists.
  apply IH.
Qed.

Lemma recording_downloadLoop (bucket : string) (expected numFiles : Z)
    (fuel : nat) (acc : series) (i : Z) (w : W) (log : list event) :
  ∃ log',
    downloadLoop (recording B) fuel bucket expected numFiles acc i (w, log)
    = ((downloadLoop B fuel bucket expected numFiles acc i w).1,
       ((downloadLoop B fuel bucket expected numFiles acc i w).2, log')).
Proof.
  revert acc i w log.
  induction fuel as [| fuel IH]; intros acc i w log; [by eexists|].
  rewrite !downloadLoop_S. destruct (i <=? numFiles); [|by eexists].
  destruct (recording_downloadTrial bucket expected acc i w log) as [log1 ->].
  destruct (downloadTrial B bucket expected acc i w)
    as [[acc' | p | f | c |] w1]; cbn [fst snd]; try by eexists.
  apply IH.
Qed.

Lemma recording_uploadFiles (bucket : string) (fileSize numFiles : Z) (w : W)
    (log : list event) :
  ∃ log',
    uploadFiles (recording B) bucket fileSize numFiles (w, log)
    = ((uploadFiles B bucket fileSize numFiles w).1,
       ((uploadFiles B bucket fileSize numFiles w).2, log')).
Proof.
  rewrite !uploadFiles_eq. destruct (_ || _); [by eexists|].
  cbn [recording mallocgc fst snd].
  destruct (mallocgc B fileSize w) as [[|] w1]; [|by eexists].
  destruct (recording_uploadLoop bucket fileSize numFiles (S (Z.to_nat numFiles))
              (repeat Byte.x00 (Z.to_nat fileSize)) (mkSeries [] []) 1 w1 log)
    as [log1 ->].
  destruct (uploadLoop B _ _ _ _ _ _ _ w1) as [[? | ? | ? | ? |] ?]; by eexists.
Qed.

Lemma recording_downloadFiles (bucket : string) (expected numFiles : Z) (w : W)
    (log : list event) :
  ∃ log',
    downloadFiles (recording B) bucket expected numFiles (w, log)
    = ((downloadFiles B bucket expected numFiles w).1,
       ((downloadFiles B bucket expected numFiles w).2, log')).
Proof.
  unfold downloadFiles. rewrite !bind_run.
  destruct (recording_downloadLoop bucket expected numFiles
              (S (Z.to_nat numFiles)) (mkSeries [] []) 1 w log) as [log1 ->].
  destruct (downloadLoop B _ _ _ _ _ _ w) as [[? | ? | ? | ? |] ?]; by eexists.
Qed.

(** The series that a phase returns: one duration per trial, every speed
    computed from the size and the duration of its trial. *)
Lemma uploadFiles_series (bucket : string) (fileSize numFiles : Z) (w w1 : W)
    (uploadTimes : list Duration) (uploadSpeeds : list float64) :
  numFiles < maxInt64 ->
  uploadFiles B bucket fileSize numFiles w
    = (Returned (uploadTimes, uploadSpeeds), w1) ->
  Z.of_nat (length uploadTimes) = Z.max 0 numFiles ∧
  uploadSpeeds = map (speedMBps fileSize) uploadTimes.
Proof.
  intros Hn Hrun.
  destruct (uploadFiles_returned B _ _ _ _ _ _ _ Hrun)
    as (Hsize & w0 & acc & Hmem & _).
  destruct (recording_uploadFiles bucket fileSize numFiles w []) as [log' Hrec].
  destruct (uploadFiles_phase B bucket fileSize numFiles w [] Hn Hsize)
    as (res & w' & k & tail & Hphase & Hk & Hres); [by rewrite Hmem|].
  rewrite Hrec, Hrun in Hphase. cbn [fst snd] in Hphase.
  injection Hphase as <- _ _. by destruct Hres as (_ & -> & ? & ?).
Qed.

Lemma downloadFiles_series (bucket : string) (expected numFiles : Z) (w w1 : W)
    (downloadTimes : list Duration) (downloadSpeeds : list float64) :
  numFiles < maxInt64 ->
  downloadFiles B bucket expected numFiles w
    = (Returned (downloadTimes, downloadSpeeds), w1) ->
  Z.of_nat (length downloadTimes) = Z.max 0 numFiles ∧
  downloadSpeeds = map (speedMBps expected) downloadTimes.
Proof.
  intros Hn Hrun.
  destruct (recording_downloadFiles bucket expected numFiles w []) as [log' Hrec].
  destruct (downloadFiles_phase B bucket expected numFiles w [] Hn)
    as (res & w' & k & tail & Hphase & Hk & Hres).
  rewrite Hrec, Hrun in Hphase. cbn [fst snd] in Hphase.
  injection Hphase as <- _ _. by destruct Hres as (_ & -> & ? & ?).
Qed.
End Transparent.

(** ** The statistics stage *)

Section SortAny.
Context {T : Type}.
Variable less : T -> T -> outcome bool.

Lemma bubbleLeft_perm (x : T) (rprefix r : list T) :
  bubbleLeft less x rprefix = Returned r -> r ≡ₚ x :: rprefix.
Proof.
  revert r. induction rprefix as [| y rest IH]; intros r.
  - by intros [= <-].
  - cbn [bubbleLeft]. destruct (less x y) as [[|] | | | |]; try done.
    + destruct (bubbleLeft less x rest) as [r' | | | |]; try done.
      intros [= <-]. rewrite (IH r' eq_refl). apply perm_swap.
    + by intros [= <-].
Qed.

Lemma insertionSort_perm (todo rprefix s : list T) :
  insertionSort less rprefix todo = Returned s -> s ≡ₚ rprefix ++ todo.
Proof.
  revert rprefix. induction todo as [| x todo IH]; intros rprefix.
  - intros [= <-]. by rewrite app_nil_r, <- Permutation_rev.
  - cbn [insertionSort].
    destruct (bubbleLeft less x rprefix) as [r | | | |] eqn:Hr; try done.
    intros Hs. rewrite (IH r Hs), (bubbleLeft_perm x rprefix r Hr).
    apply Permutation_middle.
Qed.

(** Whatever the comparator does, a call of sort.Slice that returns has
    reordered the slice. *)
Lemma sort_Slice_perm (values s : list T) :
  sort_Slice less values = Returned s -> s ≡ₚ values.
Proof. apply (insertionSort_perm values []). Qed.
End SortAny.

Lemma calculateP90_element {T : Type} (ty : ElemType T) (values values' : list T)
    (v : T) :
  calculateP90 ty values = Returned (v, values') -> v ∈ values.
Proof.
  unfold calculateP90. intros Hrun.
  destruct (sort_Slice (lessOf ty) values) as [s | | | |] eqn:Hsort; try done.
  apply sort_Slice_perm in Hsort.
  change (match index s (p90Index (Z.of_nat (length s))) with
          | Returned v' => Returned (v', s)
          | Panicked p => Panicked p
          | LogFatal f => LogFatal f
          | Exited c => Exited c
          | Diverges => Diverges
          end = Returned (v, values')) in Hrun.
  unfold index in Hrun.
  destruct (_ && _); [|done].
  destruct (s !! _) as [v' |] eqn:Hv; [|done].
  injection Hrun as -> _. rewrite <- Hsort. by eapply list_elem_of_lookup_2.
Qed.

(** The report is wired as its field names say: each average is the
    average of the durations of its phase, and each P90 is one of the
    samples of its series, not a value interpolated between two of them. *)
Theorem report_values_are_samples (uploadTimes downloadTimes : list Duration)
    (uploadSpeeds downloadSpeeds : list float64) (report : Report) :
  statistics uploadTimes uploadSpeeds downloadTimes downloadSpeeds
    = Returned report ->
  calculateAverage uploadTimes = Returned (Avg_UploadTime report) ∧
  calculateAverage downloadTimes = Returned (Avg_DownloadTime report) ∧
  P90_UploadTime report ∈ uploadTimes ∧
  P90_UploadSpeed report ∈ uploadSpeeds ∧
  P90_DownloadTime report ∈ downloadTimes ∧
  P90_DownloadSpeed report ∈ downloadSpeeds.
Proof.
  unfold statistics. intros Hrun.
  destruct (calculateAverage uploadTimes) as [au | | | |]; try done.
  destruct (calculateAverage downloadTimes) as [ad | | | |]; try done.
  destruct (calculateP90 TDuration uploadTimes) as [[v1 s1] | | | |] eqn:H1;
    try done.
  destruct (calculateP90 TFloat64 uploadSpeeds) as [[v2 s2] | | | |] eqn:H2;
    try done.
  destruct (calculateP90 TDuration downloadTimes) as [[v3 s3] | | | |] eqn:H3;
    try done.
  destruct (calculateP90 TFloat64 downloadSpeeds) as [[v4 s4] | | | |] eqn:H4;
    try done.
  injection Hrun as <-. cbn.
  apply calculateP90_element in H1, H2, H3, H4. done.
Qed.

Lemma report_values_are_samples_witness :
  P90_UploadTime (mkReport 20 20 30 (float64_of_int 3) 30 (float64_of_int 3))
    ∈ [10; 30; 20].
Proof.
  destruct (report_values_are_samples [10; 30; 20] [20; 10; 30]
              [float64_of_int 1; float64_of_int 3; float64_of_int 2]
              [float64_of_int 2; float64_of_int 1; float64_of_int 3]
              (mkReport 20 20 30 (float64_of_int 3) 30 (float64_of_int 3)))
    as (_ & _ & Hin & _); [vm_compute; reflexivity | exact Hin].
Defined.

(** With at least one sample and fewer than 2^49 in each series the
    statistics stage returns a report: no value of a sample, be it an
    infinite or an undefined speed, makes it panic. *)
Lemma statistics_returns (uploadTimes downloadTimes : list Duration)
    (uploadSpeeds downloadSpeeds : list float64) :
  1 <= Z.of_nat (length uploadTimes) < 2 ^ 49 ->
  1 <= Z.of_nat (length uploadSpeeds) < 2 ^ 49 ->
  1 <= Z.of_nat (length downloadTimes) < 2 ^ 49 ->
  1 <= Z.of_nat (length downloadSpeeds) < 2 ^ 49 ->
  ∃ report,
    statistics uploadTimes uploadSpeeds downloadTimes downloadSpeeds
      = Returned report.
Proof.
  intros Hut Hus Hdt Hds. unfold statistics.
  assert (Have : forall l : list Duration, 1 <= Z.of_nat (length l) ->
            ∃ a, calculateAverage l = Returned a).
  { intros l Hl. unfold calculateAverage.
    destruct (Z.eqb_spec (Z.of_nat (length l)) 0); [lia | by eexists]. }
  assert (Hp90 : forall (T : Type) (ty : ElemType T) (l : list T),
            lessOf ty = (fun a b => Returned (ltbOf ty a b)) ->
            1 <= Z.of_nat (length l) < 2 ^ 49 ->
            ∃ v s, calculateP90 ty l = Returned (v, s)).
  { intros T ty l Hless Hl.
    destruct (calculateP90_returns ty (ltbOf ty) Hless l) as (v & s & _ & ? & _);
      [by destruct l; [cbn in Hl; lia|] | lia | by exists v, s]. }
  destruct (Have uploadTimes) as [au ->]; [lia|].
  destruct (Have downloadTimes) as [ad ->]; [lia|].
  destruct (Hp90 _ TDuration uploadTimes eq_refl Hut) as (v1 & s1 & ->).
  destruct (Hp90 _ TFloat64 uploadSpeeds eq_refl Hus) as (v2 & s2 & ->).
  destruct (Hp90 _ TDuration downloadTimes eq_refl Hdt) as (v3 & s3 & ->).
  destruct (Hp90 _ TFloat64 downloadSpeeds eq_refl Hds) as (v4 & s4 & ->).
  by eexists.
Qed.

Lemma main_returns_after_phases {W P : Type} (B : Backend W P)
    (getenv : string -> string) (flags : Flags) (w w0 w1 w2 : W)
    (uploadTimes downloadTimes : list Duration)
    (uploadSpeeds downloadSpeeds : list float64) :
  configured getenv flags = true ->
  minio_New B (endpoint flags) (effectiveAccessKey getenv flags)
            (effectiveSecretKey getenv flags) w = (None, w0) ->
  1 <= trials flags < 2 ^ 49 ->
  uploadFiles B (bucketName flags) (fileSizeBytes flags) (trials flags) w0
    = (Returned (uploadTimes, uploadSpeeds), w1) ->
  downloadFiles B (bucketName flags) (fileSizeBytes flags) (trials flags) w1
    = (Returned (downloadTimes, downloadSpeeds), w2) ->
  ∃ report,
    main B getenv flags w = (Returned report, w2) ∧
    statistics uploadTimes uploadSpeeds downloadTimes downloadSpeeds
      = Returned report.
Proof.
  intros Hcfg Hnew Hn Hup Hdown.
  assert (trials flags < maxInt64) as Hmax by (unfold maxInt64; lia).
  destruct (uploadFiles_series B _ _ _ _ _ _ _ Hmax Hup) as [Hut ->].
  destruct (downloadFiles_series B _ _ _ _ _ _ _ Hmax Hdown) as [Hdt ->].
  rewrite Z.max_r in Hut, Hdt by lia.
  destruct (statistics_returns uploadTimes downloadTimes
              (map (speedMBps (fileSizeBytes flags)) uploadTimes)
              (map (speedMBps (fileSizeBytes flags)) downloadTimes))
    as [report Hstat]; rewrite ?length_map; try lia.
  exists report. split; [|done].
  by rewrite main_stages, Hcfg, Hnew, Hup, Hdown, Hstat.
Qed.

(** When the configuration is complete, the client is created and both
    phases return, main returns a report for every trial count from 1 to
    2^49 - 1: the statistics stage cannot fail then, whatever durations and
    speeds were measured. *)
Theorem main_reports_when_phases_return {W P : Type} (B : Backend W P)
    (getenv : string -> string) (flags : Flags) (w w0 w1 w2 : W)
    (uploadTimes downloadTimes : list Duration)
    (uploadSpeeds downloadSpeeds : list float64) :
  configured getenv flags = true ->
  minio_New B (endpoint flags) (effectiveAccessKey getenv flags)
            (effectiveSecretKey getenv flags) w = (None, w0) ->
  1 <= trials flags < 2 ^ 49 ->
  uploadFiles B (bucketName flags) (fileSizeBytes flags) (trials flags) w0
    = (Returned (uploadTimes, uploadSpeeds), w1) ->
  downloadFiles B (bucketName flags) (fileSizeBytes flags) (trials flags) w1
    = (Returned (downloadTimes, downloadSpeeds), w2) ->
  ∃ report,
    main B getenv flags w = (Returned report, w2) ∧
    statistics uploadTimes uploadSpeeds downloadTimes downloadSpeeds
      = Returned report.
Proof. apply main_returns_after_phases. Qed.

Lemma main_reports_when_phases_return_witness :
  1 <= trials (testFlags 0 1) < 2 ^ 49 ∧
  ∃ report,
    main (steadyBackend 0 1000000) (fun _ => "") (testFlags 0 1) 0
      = (Returned report, 2000000) ∧
    statistics [1000000] [S754_zero false] [1000000] [S754_zero false]
      = Returned report.
Proof.
  split; [by vm_compute|].
  apply (main_reports_when_phases_return (steadyBackend 0 1000000)
           (fun _ => "") (testFlags 0 1) 0 0 1000000 2000000);
    [reflexivity | reflexivity | by vm_compute | vm_compute; reflexivity
    | vm_compute; reflexivity].
Defined.

(** ** A whole run against the store in memory *)



(** ** float64: the range of the speeds *)

(** Rounding a mantissa of at least 53 bits, whatever was cut off before:
    the result is normal, with the exponent of the leading bit kept or
    raised by one. *)
Lemma binary_round_aux_normal (sx : bool) (M : positive) (e : Z) (l : location) :
  let d := Z.pos (digits2_pos M) in
  53 <= d -> -1074 <= e + d - 53 < 971 ->
  normalF sx (e + d - 53) (e + d - 52)
          (binary_round_aux 53 1024 sx (Z.pos M) e l).
Proof.
  intros d Hd He. set (s := d - 53).
  pose proof (digits2_pos_bounds M) as [HMlo HMhi]. fold d in HMlo, HMhi.
  assert (Hm0 : 2 ^ 52 <= Z.pos M / 2 ^ s < 2 ^ 53).
  { split.
    - apply Z.div_le_lower_bound; [apply Z.pow_pos_nonneg; lia|].
      rewrite Z.mul_comm, <- Z.pow_add_r by lia.
      replace (52 + s) with (d - 1) by lia. done.
    - apply Z.div_lt_upper_bound; [apply Z.pow_pos_nonneg; lia|].
      rewrite <- Z.pow_add_r by lia.
      replace (s + 53) with d by lia. done. }
  assert (Hfirst : ∃ r1, shr_fexp 53 1024 (Z.pos M) e l = (r1, e + s) ∧
                         shr_m r1 = Z.pos M / 2 ^ s).
  { unfold shr_fexp. cbn [Zdigits2]. fold d.
    rewrite fexp_normal by lia.
    replace (d + e - 53 - e) with s by lia.
    destruct s as [| sp |] eqn:Es; [| | lia].
    - eexists. split; [cbn [shr]; by rewrite Z.add_0_r|].
      rewrite Z.pow_0_r, Z.div_1_r. by destruct l as [| []].
    - eexists. split; [reflexivity|].
      rewrite iter_pos_shr_1_m; [by destruct l as [| []] | by destruct l as [| []]]. }
  destruct Hfirst as (r1 & Hfirst & Hr1).
  pose proof (round_nearest_even_bounds (shr_m r1) (loc_of_shr_record r1)) as Hm1.
  destruct (round_nearest_even (shr_m r1) (loc_of_shr_record r1))
    as [| q |] eqn:Eq; [lia | | lia].
  rewrite Hr1 in Hm1.
  unfold binary_round_aux. rewrite Hfirst, Eq.
  unfold shr_fexp. cbn [Zdigits2 shr_record_of_loc].
  destruct (Z.eq_dec (Z.pos q) (2 ^ 53)) as [Hq | Hq].
  - assert (q = 9007199254740992%positive) as -> by lia.
    exists 4503599627370496%positive, (e + s + 1).
    change (Z.pos (digits2_pos 9007199254740992)) with 54.
    rewrite fexp_normal by lia.
    replace (54 + (e + s) - 53 - (e + s)) with 1 by lia.
    cbn [shr SpecFloat.iter_pos shr_1 shr_m].
    destruct (Z.leb_spec (e + s + 1) (1024 - 53)); [|lia].
    split; [reflexivity|]. split; [reflexivity | lia].
  - assert (Hdq : Z.pos (digits2_pos q) = 53)
      by (apply digits2_pos_unique; lia).
    exists q, (e + s).
    rewrite Hdq, fexp_normal by lia.
    replace (53 + (e + s) - 53 - (e + s)) with 0 by lia.
    cbn [shr shr_m].
    destruct (Z.leb_spec (e + s) (1024 - 53)); [|lia].
    split; [reflexivity|]. split; [done | lia].
Qed.

(** Normalising and rounding a mantissa of any length. *)
Lemma binary_round_normal (sx : bool) (M : positive) (e : Z) :
  let d := Z.pos (digits2_pos M) in
  -1074 <= e + d - 53 < 971 ->
  normalF sx (e + d - 53) (e + d - 52) (binary_round 53 1024 sx M e).
Proof.
  intros d He.
  pose proof (digits2_pos_bounds M) as [HMlo HMhi]. fold d in HMlo, HMhi.
  assert (1 <= d) by (unfold d; lia).
  unfold binary_round. fold d. rewrite fexp_normal by lia.
  unfold shl_align.
  destruct (d + e - 53 - e) as [| p | p] eqn:Ed.
  - assert (d = 53) by lia.
    exists M, e. rewrite binary_round_aux_exact by (fold d; lia).
    split; [done|]. split; [fold d; lia | lia].
  - pose proof (binary_round_aux_normal sx M e loc_Exact) as Hn.
    cbv zeta in Hn. fold d in Hn. apply Hn; lia.
  - assert (Hshift : Z.pos (Pos.iter xO M p) = Z.pos M * 2 ^ (53 - d))
      by (rewrite Pos_iter_xO; f_equal; f_equal; lia).
    assert (Hdig : Z.pos (digits2_pos (Pos.iter xO M p)) = 53).
    { apply digits2_pos_unique. rewrite Hshift. split.
      - replace (53 - 1) with ((d - 1) + (53 - d)) by lia.
        rewrite Z.pow_add_r by lia.
        assert (0 < 2 ^ (53 - d)) by (apply Z.pow_pos_nonneg; lia). nia.
      - replace 53 with (d + (53 - d)) at 2 by lia.
        rewrite Z.pow_add_r by lia.
        assert (0 < 2 ^ (53 - d)) by (apply Z.pow_pos_nonneg; lia). nia. }
    exists (Pos.iter xO M p), (d + e - 53).
    rewrite binary_round_aux_exact by lia.
    split; [done|]. split; [done | lia].
Qed.

Lemma normalF_weaken (s : bool) (lo hi lo' hi' : Z) (f : float64) :
  normalF s lo hi f -> lo' <= lo -> hi <= hi' -> normalF s lo' hi' f.
Proof.
  intros (m & e & -> & Hd & He) Hlo Hhi. exists m, e. split; [done|].
  split; [done | lia].
Qed.

Lemma digits2_pos_between (M : positive) (a b : Z) :
  0 <= a -> 2 ^ a <= Z.pos M < 2 ^ b -> a < Z.pos (digits2_pos M) <= b.
Proof.
  intros Ha [Hlo Hhi].
  pose proof (digits2_pos_bounds M) as [HMlo HMhi].
  set (d := Z.pos (digits2_pos M)) in *.
  assert (1 <= d) by (unfold d; lia).
  split.
  - destruct (Z.ltb_spec a d); [done|].
    pose proof (pow2_le d a). lia.
  - destruct (Z.leb_spec d b); [done|].
    destruct (Z.leb_spec 0 b).
    + pose proof (pow2_le b (d - 1)). lia.
    + rewrite Z.pow_neg_r in Hhi by lia. lia.
Qed.

(** [float64(n)] for a non-zero integer of at most [k] bits. *)
Lemma float64_of_int_normal (n k : Z) :
  n <> 0 -> Z.abs n < 2 ^ k -> k <= 64 ->
  normalF (n <? 0) (-52) (k - 52) (float64_of_int n).
Proof.
  intros Hn Hk Hk64.
  assert (Hround : forall (s : bool) (p : positive), Z.pos p < 2 ^ k ->
            normalF s (-52) (k - 52) (binary_round 53 1024 s p 0)).
  { intros s p Hp.
    assert (0 <= k).
    { destruct (Z.leb_spec 0 k); [done|]. rewrite Z.pow_neg_r in Hp; lia. }
    destruct (digits2_pos_between p 0 k) as [Hd1 Hd2]; [lia | rewrite Z.pow_0_r; lia|].
    pose proof (binary_round_normal s p 0) as Hr. cbv zeta in Hr.
    eapply normalF_weaken; [apply Hr; lia | lia | lia]. }
  unfold float64_of_int, binary_normalize, f64_prec, f64_emax.
  destruct n as [| p | p]; [done | |].
  - apply Hround. lia.
  - apply Hround. lia.
Qed.

(** The quotient of two normal numbers. *)
Lemma f64_div_normal (s1 s2 : bool) (lo1 hi1 lo2 hi2 : Z) (x y : float64) :
  normalF s1 lo1 hi1 x -> normalF s2 lo2 hi2 y ->
  -1021 <= lo1 - hi2 -> hi1 - lo2 <= 1021 ->
  normalF (xorb s1 s2) (lo1 - hi2 - 53) (hi1 - lo2 - 51) (f64_div x y).
Proof.
  intros (m1 & e1 & -> & Hd1 & He1) (m2 & e2 & -> & Hd2 & He2) Hlo Hhi.
  pose proof (digits2_pos_bounds m1) as [H1lo H1hi]. rewrite Hd1 in H1lo, H1hi.
  pose proof (digits2_pos_bounds m2) as [H2lo H2hi]. rewrite Hd2 in H2lo, H2hi.
  unfold f64_div, f64_prec, f64_emax, SFdiv, SFdiv_core_binary.
  cbn [Zdigits2]. rewrite Hd1, Hd2, fexp_normal by lia.
  replace (Z.min (53 + e1 - (53 + e2) - 53) (e1 - e2)) with (e1 - e2 - 53) by lia.
  replace (e1 - e2 - (e1 - e2 - 53)) with 53 by lia.
  rewrite Z.shiftl_mul_pow2 by lia.
  pose proof (Z_div_mod (Z.pos m1 * 2 ^ 53) (Z.pos m2) ltac:(lia)) as Hdiv.
  destruct (Z.div_eucl (Z.pos m1 * 2 ^ 53) (Z.pos m2)) as [q r].
  destruct Hdiv as [Hq Hr].
  assert (Hqlo : 2 ^ 52 <= q) by nia.
  assert (Hqhi : q < 2 ^ 54) by nia.
  destruct q as [| q |]; [lia | | lia].
  destruct (digits2_pos_between q 52 54) as [Hdq1 Hdq2]; [lia | lia |].
  pose proof (binary_round_aux_normal (xorb s1 s2) q (e1 - e2 - 53)
                (new_location (Z.pos m2) r)) as Hn.
  cbv zeta in Hn.
  eapply normalF_weaken; [apply Hn; lia | lia | lia].
Qed.

Lemma shl_align_fst (m : positive) (e ez : Z) :
  ez <= e -> Z.pos (shl_align m e ez).1 = Z.pos m * 2 ^ (e - ez).
Proof.
  intros He. unfold shl_align.
  destruct (ez - e) as [| p | p] eqn:Ed; cbn [fst].
  - replace (e - ez) with 0 by lia. lia.
  - lia.
  - rewrite Pos_iter_xO. do 2 f_equal. lia.
Qed.

(** The sum of two normal numbers of the same sign. *)
Lemma f64_add_normal (s : bool) (lo1 hi1 lo2 hi2 : Z) (x y : float64) :
  normalF s lo1 hi1 x -> normalF s lo2 hi2 y ->
  -1021 <= lo1 -> -1021 <= lo2 -> hi1 <= 900 -> hi2 <= 900 ->
  normalF s (Z.max lo1 lo2) (Z.max hi1 hi2 + 2) (f64_add x y).
Proof.
  intros (m1 & e1 & -> & Hd1 & He1) (m2 & e2 & -> & Hd2 & He2) ? ? ? ?.
  pose proof (digits2_pos_bounds m1) as [H1lo H1hi]. rewrite Hd1 in H1lo, H1hi.
  pose proof (digits2_pos_bounds m2) as [H2lo H2hi]. rewrite Hd2 in H2lo, H2hi.
  unfold f64_add, f64_prec, f64_emax, SFadd. cbv zeta.
  set (ez := Z.min e1 e2).
  pose proof (shl_align_fst m1 e1 ez ltac:(lia)) as Ha.
  pose proof (shl_align_fst m2 e2 ez ltac:(lia)) as Hb.
  set (a := (shl_align m1 e1 ez).1) in *.
  set (b := (shl_align m2 e2 ez).1) in *.
  set (top := Z.max e1 e2).
  assert (Hsum : 2 ^ (52 + (top - ez)) <= Z.pos (a + b) < 2 ^ (54 + (top - ez))).
  { rewrite Pos2Z.inj_add, Ha, Hb.
    replace (54 + (top - ez)) with (1 + (53 + (top - ez))) by lia.
    rewrite (Z.pow_add_r 2 1), !(Z.pow_add_r 2 _ (top - ez)) by lia.
    assert (0 < 2 ^ (e1 - ez)) by (apply Z.pow_pos_nonneg; lia).
    assert (0 < 2 ^ (e2 - ez)) by (apply Z.pow_pos_nonneg; lia).
    assert (2 ^ (e1 - ez) <= 2 ^ (top - ez)) by (apply pow2_le; lia).
    assert (2 ^ (e2 - ez) <= 2 ^ (top - ez)) by (apply pow2_le; lia).
    destruct (Z.le_ge_cases e1 e2).
    - replace (top - ez) with (e2 - ez) in * by lia. nia.
    - replace (top - ez) with (e1 - ez) in * by lia. nia. }
  destruct (digits2_pos_between (a + b) (52 + (top - ez)) (54 + (top - ez)))
    as [Hdlo Hdhi]; [lia | done |].
  assert (Hround : normalF s (Z.max lo1 lo2) (Z.max hi1 hi2 + 2)
                     (binary_round 53 1024 s (a + b) ez)).
  { pose proof (binary_round_normal s (a + b) ez) as Hr. cbv zeta in Hr.
    eapply normalF_weaken; [apply Hr; lia | lia | lia]. }
  destruct s; exact Hround.
Qed.

Lemma f64_1e9_normal : normalF false (-23) (-23) f64_1e9.
Proof.
  eexists _, _. split; [vm_compute; reflexivity|]. split; [reflexivity | lia].
Qed.

Lemma f64_1024_normal : normalF false (-42) (-42) f64_1024.
Proof.
  eexists _, _. split; [vm_compute; reflexivity|]. split; [reflexivity | lia].
Qed.

(** [d.Seconds()] of a duration that is not zero is a normal number with
    the sign of [d], between 2^-30 and 2^37 in magnitude. *)
Lemma Seconds_normal (d : Duration) :
  int64_range d -> d <> 0 -> normalF (d <? 0) (-82) (-16) (Seconds d).
Proof.
  intros Hrange Hd. unfold int64_range, minInt64, maxInt64 in Hrange.
  unfold Seconds. cbv zeta.
  pose proof (Z.quot_rem' d Second) as Hqr.
  destruct (quot_truncates d Second ltac:(unfold Second; lia))
    as (Habs & Hpos & Hneg).
  set (sec := Z.quot d Second) in *. set (nsec := Z.rem d Second) in *.
  unfold Second in *.
  assert (Hsec : Z.abs sec < 2 ^ 34) by lia.
  assert (Hnsec : Z.abs nsec < 2 ^ 30) by lia.
  assert (Hsign_sec : sec <> 0 -> (sec <? 0) = (d <? 0)).
  { intros Hs. destruct (Z.ltb_spec sec 0), (Z.ltb_spec d 0); try done; lia. }
  assert (Hsign_nsec : nsec <> 0 -> (nsec <? 0) = (d <? 0)).
  { intros Hs. destruct (Z.ltb_spec nsec 0), (Z.ltb_spec d 0); try done; lia. }
  assert (Hfrac : nsec <> 0 ->
            normalF (d <? 0) (-82) (-50)
                    (f64_div (float64_of_int nsec) f64_1e9)).
  { intros Hs.
    pose proof (float64_of_int_normal nsec 30 Hs Hnsec ltac:(lia)) as Hn.
    rewrite (Hsign_nsec Hs) in Hn.
    pose proof (f64_div_normal _ _ _ _ _ _ _ _ Hn f64_1e9_normal
                  ltac:(lia) ltac:(lia)) as Hq.
    rewrite xorb_false_r in Hq.
    eapply normalF_weaken; [exact Hq | lia | lia]. }
  assert (Hwhole : sec <> 0 ->
            normalF (d <? 0) (-52) (-18) (float64_of_int sec)).
  { intros Hs.
    pose proof (float64_of_int_normal sec 34 Hs Hsec ltac:(lia)) as Hn.
    by rewrite (Hsign_sec Hs) in Hn. }
  destruct (Z.eq_dec sec 0) as [Hs0 | Hs0], (Z.eq_dec nsec 0) as [Hn0 | Hn0].
  - lia.
  - rewrite Hs0. destruct (Hfrac Hn0) as (m & e & -> & Hm & He).
    exists m, e. split; [reflexivity|]. split; [done | lia].
  - rewrite Hn0. destruct (Hwhole Hs0) as (m & e & -> & Hm & He).
    exists m, e. split; [reflexivity|]. split; [done | lia].
  - pose proof (f64_add_normal _ _ _ _ _ _ _ (Hwhole Hs0) (Hfrac Hn0)
                  ltac:(lia) ltac:(lia) ltac:(lia) ltac:(lia)) as Hsum.
    eapply normalF_weaken; [exact Hsum | lia | lia].
Qed.

Lemma speedMBps_normal (bytes : Z) (d : Duration) :
  0 < bytes <= maxInt64 -> int64_range d -> d <> 0 ->
  normalF (d <? 0) (-111) 24 (speedMBps bytes d).
Proof.
  intros Hb Hrange Hd. unfold maxInt64 in Hb.
  pose proof (float64_of_int_normal bytes 63 ltac:(lia) ltac:(lia) ltac:(lia))
    as Hbytes.
  replace (bytes <? 0) with false in Hbytes
    by (symmetry; apply Z.ltb_ge; lia).
  pose proof (f64_div_normal _ _ _ _ _ _ _ _ Hbytes (Seconds_normal d Hrange Hd)
                ltac:(lia) ltac:(lia)) as H1.
  pose proof (f64_div_normal _ _ _ _ _ _ _ _ H1 f64_1024_normal
                ltac:(lia) ltac:(lia)) as H2.
  pose proof (f64_div_normal _ _ _ _ _ _ _ _ H2 f64_1024_normal
                ltac:(lia) ltac:(lia)) as H3.
  rewrite !xorb_false_r, xorb_false_l in H3.
  unfold speedMBps. eapply normalF_weaken; [exact H3 | lia | lia].
Qed.

Lemma normalF_not_nan (s : bool) (lo hi : Z) (f : float64) :
  normalF s lo hi f -> is_nan f = false ∧ f <> f64_pos_inf.
Proof. by intros (m & e & -> & _). Qed.

Lemma speedMBps_nothing (d : Duration) :
  int64_range d -> d <> 0 -> speedMBps 0 d = S754_zero (d <? 0).
Proof.
  intros Hrange Hd.
  destruct (Seconds_normal d Hrange Hd) as (m & e & Hs & _).
  unfold speedMBps. rewrite Hs. by destruct (d <? 0).
Qed.

(** The speed of a trial, for every byte count and elapsed time that can
    occur: it is +Infinity exactly when a positive number of bytes took no
    time, and not a number exactly when no byte took no time; for any other
    elapsed time it is a zero (no bytes) or a normal float64 number with
    the sign of the elapsed time, between 2^-59 and 2^77 in magnitude. *)
Theorem speedMBps_classified (bytes : Z) (d : Duration) :
  0 <= bytes <= maxInt64 -> int64_range d ->
  (0 < bytes -> d <> 0 -> normalF (d <? 0) (-111) 24 (speedMBps bytes d)) ∧
  (bytes = 0 -> d <> 0 -> speedMBps bytes d = S754_zero (d <? 0)) ∧
  (speedMBps bytes d = f64_pos_inf ↔ 0 < bytes ∧ d = 0) ∧
  (is_nan (speedMBps bytes d) = true ↔ bytes = 0 ∧ d = 0).
Proof.
  intros Hb Hrange.
  destruct (Z.eq_dec d 0) as [-> | Hd], (Z.eq_dec bytes 0) as [-> | Hb0].
  - split_and!; [lia | done | | done]. split; [done | lia].
  - rewrite speedMBps_zero_elapsed by lia.
    split_and!; [done | done | | ]; split; try done; lia.
  - rewrite speedMBps_nothing by done.
    split_and!; [lia | done | |]; split; try done; lia.
  - pose proof (speedMBps_normal bytes d ltac:(lia) Hrange Hd) as Hn.
    destruct (normalF_not_nan _ _ _ _ Hn) as [Hnan Hinf].
    split_and!; [done | done | |].
    + split; [done | lia].
    + rewrite Hnan. split; [done | lia].
Qed.

Lemma speedMBps_classified_witness :
  0 <= 10485760 <= maxInt64 ∧ int64_range 250000000 ∧
  normalF false (-111) 24 (speedMBps 10485760 250000000).
Proof.
  assert (0 <= 10485760 <= maxInt64) as Hb by (unfold maxInt64; lia).
  assert (int64_range 250000000) as Hd
    by (unfold int64_range, minInt64, maxInt64; lia).
  split; [exact Hb|]. split; [exact Hd|].
  destruct (speedMBps_classified 10485760 250000000 Hb Hd) as (Hn & _).
  apply Hn; lia.
Defined.

(** 10 MiB in a quarter of a second are 40 MB/s; nothing in no time is not
    a number; the slowest and the fastest transfers that can be measured. *)
Example speed_examples :
  speedMBps 10485760 250000000 = float64_of_int 40 ∧
  speedMBps 0 0 = S754_nan ∧
  speedMBps 1 maxInt64 = S754_finite false 8388607999999999 (-106) ∧
  speedMBps maxInt64 1 = S754_finite false 8388607999999999 20 ∧
  speedMBps 1 minInt64 = S754_finite true 8388607999999999 (-106).
Proof. split_and!; vm_compute; reflexivity. Qed.

(** ** The durations and speeds that main measures *)

Lemma subMono_range (t u : Z) : int64_range (subMono t u).
Proof.
  unfold subMono. cbv zeta.
  pose proof (wrap64_range (t - u)) as Hw.
  repeat case_match; try done;
    unfold int64_range, minInt64, maxInt64; lia.
Qed.

Section Measured.
Context {W P : Type}.
Variable B : Backend W P.

Lemma uploadLoop_times_range (bucket : string) (fileSize numFiles : Z)
    (fuel : nat) (data : list Byte.byte) (acc acc' : series) (i : Z) (w w' : W) :
  Forall int64_range (times acc) ->
  uploadLoop B fuel bucket fileSize numFiles data acc i w = (Returned acc', w') ->
  Forall int64_range (times acc').
Proof.
  revert data acc i w.
  induction fuel as [| fuel IH]; intros data acc i w Hacc; [done|].
  rewrite uploadLoop_S. destruct (i <=? numFiles); [|by intros [= <- _]].
  rewrite uploadTrial_eq.
  destruct (rand_Read B w) as [fresh w1].
  destruct (time_Now B w1) as [t0 w2]. cbv zeta.
  match goal with |- context [PutObject B ?b ?k ?d ?n w2] =>
    destruct (PutObject B b k d n w2) as [[e |] w3] end; [done|].
  destruct (time_Now B w3) as [t1 w4]. apply IH. cbn [times].
  apply Forall_app. split; [done|]. constructor; [apply subMono_range | done].
Qed.

Lemma downloadLoop_times_range (bucket : string) (expected numFiles : Z)
    (fuel : nat) (acc acc' : series) (i : Z) (w w' : W) :
  Forall int64_range (times acc) ->
  downloadLoop B fuel bucket expected numFiles acc i w = (Returned acc', w') ->
  Forall int64_range (times acc').
Proof.
  revert acc i w.
  induction fuel as [| fuel IH]; intros acc i w Hacc; [done|].
  rewrite downloadLoop_S. destruct (i <=? numFiles); [|by intros [= <- _]].
  rewrite downloadTrial_eq.
  destruct (time_Now B w) as [t0 w1].
  destruct (GetObject B bucket (objectKey i) w1) as [[e | payload] w2]; [done|].
  destruct (io_Copy_Discard B payload w2) as [[sz [e |]] w3]; [done|].
  destruct (sz =? expected); [|done].
  destruct (time_Now B w3) as [t1 w4]. apply IH. cbn [times].
  apply Forall_app. split; [done|]. constructor; [apply subMono_range | done].
Qed.

Lemma uploadFiles_times_range (bucket : string) (fileSize numFiles : Z)
    (w w' : W) (uploadTimes : list Duration) (uploadSpeeds : list float64) :
  uploadFiles B bucket fileSize numFiles w
    = (Returned (uploadTimes, uploadSpeeds), w') ->
  Forall int64_range uploadTimes.
Proof.
  intros Hrun.
  destruct (uploadFiles_returned B _ _ _ _ _ _ _ Hrun)
    as (_ & w1 & acc' & _ & Hloop & -> & _).
  by eapply uploadLoop_times_range; [|exact Hloop].
Qed.

Lemma downloadFiles_times_range (bucket : string) (expected numFiles : Z)
    (w w' : W) (downloadTimes : list Duration) (downloadSpeeds : list float64) :
  downloadFiles B bucket expected numFiles w
    = (Returned (downloadTimes, downloadSpeeds), w') ->
  Forall int64_range downloadTimes.
Proof.
  unfold downloadFiles. rewrite bind_run.
  destruct (downloadLoop B _ _ _ _ _ _ w) as [[acc' | | | |] w1] eqn:Hloop;
    try done.
  intros [= <- _ _]. by eapply downloadLoop_times_range; [|exact Hloop].
Qed.
End Measured.

Lemma speeds_not_nan (size : Z) (ts : list Duration) :
  0 < size <= maxInt64 -> Forall int64_range ts ->
  Forall (fun f => is_nan f = false) (map (speedMBps size) ts).
Proof.
  intros Hsize Hts. apply Forall_fmap. eapply Forall_impl; [exact Hts|].
  intros d Hd. cbn.
  destruct (Z.eq_dec d 0) as [-> | Hne].
  - by rewrite speedMBps_zero_elapsed.
  - by destruct (normalF_not_nan _ _ _ _ (speedMBps_normal size d Hsize Hd Hne)).
Qed.

(** With a positive size, no speed that main measures is NaN, whatever the
    clock and the store do: the speeds that reach calculateP90 are values
    that the comparison orders, and the P90 speeds of the report are
    numbers or +Infinity. *)
Theorem main_speeds_are_ordered {W P : Type} (B : Backend W P)
    (getenv : string -> string) (flags : Flags) (w w' : W) (report : Report) :
  trials flags < maxInt64 ->
  0 < fileSizeBytes flags ->
  main B getenv flags w = (Returned report, w') ->
  ∃ uploadTimes downloadTimes,
    statistics uploadTimes
               (map (speedMBps (fileSizeBytes flags)) uploadTimes)
               downloadTimes
               (map (speedMBps (fileSizeBytes flags)) downloadTimes)
    = Returned report ∧
    Forall (comparable TFloat64)
           (map (speedMBps (fileSizeBytes flags)) uploadTimes) ∧
    Forall (comparable TFloat64)
           (map (speedMBps (fileSizeBytes flags)) downloadTimes) ∧
    is_nan (P90_UploadSpeed report) = false ∧
    is_nan (P90_DownloadSpeed report) = false.
Proof.
  intros Hn Hsize Hrun.
  assert (0 < fileSizeBytes flags <= maxInt64) as Hsz.
  { split; [done|]. pose proof (wrap64_range (fileSizeMb flags * (1024 * 1024))).
    unfold fileSizeBytes, int64_range in *. lia. }
  rewrite main_stages in Hrun.
  destruct (configured getenv flags); [|done].
  destruct (minio_New B _ _ _ w) as [[e |] w0]; [done|].
  destruct (uploadFiles B _ _ _ w0) as [[[ut us] | | | |] w1] eqn:Hup; try done.
  destruct (downloadFiles B _ _ _ w1) as [[[dt ds] | | | |] w2] eqn:Hdown;
    try done.
  injection Hrun as Hstat <-.
  destruct (uploadFiles_series B _ _ _ _ _ _ _ Hn Hup) as [_ ->].
  destruct (downloadFiles_series B _ _ _ _ _ _ _ Hn Hdown) as [_ ->].
  pose proof (speeds_not_nan _ _ Hsz (uploadFiles_times_range B _ _ _ _ _ _ _ Hup))
    as Hus.
  pose proof (speeds_not_nan _ _ Hsz
                (downloadFiles_times_range B _ _ _ _ _ _ _ Hdown)) as Hds.
  exists ut, dt. split; [done|]. split; [done|]. split; [done|].
  set (us := map (speedMBps (fileSizeBytes flags)) ut) in *.
  set (ds := map (speedMBps (fileSizeBytes flags)) dt) in *.
  unfold statistics in Hstat.
  destruct (calculateAverage ut) as [au | | | |]; try done.
  destruct (calculateAverage dt) as [ad | | | |]; try done.
  destruct (calculateP90 TDuration ut) as [[v1 s1] | | | |]; try done.
  destruct (calculateP90 TFloat64 us) as [[v2 s2] | | | |] eqn:H2; try done.
  destruct (calculateP90 TDuration dt) as [[v3 s3] | | | |]; try done.
  destruct (calculateP90 TFloat64 ds) as [[v4 s4] | | | |] eqn:H4; try done.
  injection Hstat as <-. cbn [P90_UploadSpeed P90_DownloadSpeed].
  apply calculateP90_element in H2, H4.
  rewrite Forall_forall in Hus, Hds. split; [by apply Hus | by apply Hds].
Qed.

Lemma main_speeds_are_ordered_witness :
  trials (testFlags 1 2) < maxInt64 ∧
  0 < fileSizeBytes (testFlags 1 2) ∧
  is_nan (float64_of_int 1) = false.
Proof.
  split; [by vm_compute|]. split; [by vm_compute|].
  destruct (main_speeds_are_ordered (steadyBackend 1048576 1000000000)
              (fun _ => "") (testFlags 1 2) 0 4000000000
              {| Avg_DownloadTime := 1000000000; Avg_UploadTime := 1000000000;
                 P90_UploadTime := 1000000000;
                 P90_UploadSpeed := float64_of_int 1;
                 P90_DownloadTime := 1000000000;
                 P90_DownloadSpeed := float64_of_int 1 |})
    as (ut & dt & _ & _ & _ & Hnan & _);
    [by vm_compute | by vm_compute | vm_compute; reflexivity | exact Hnan].
Defined.

(** ** The average, overflow included *)

(** calculateAverage on any series: it panics exactly on the empty series,
    and otherwise returns the total, reduced to the 64 bits of a duration
    as the additions of the loop reduce it, divided by the count with
    truncation toward zero. *)
Theorem calculateAverage_wraps_around (times : list Duration) :
  (calculateAverage times = Panicked IntegerDivideByZero ↔ times = []) ∧
  (times <> [] ↔
   calculateAverage times
   = Returned (Z.quot (wrap64 (totalSum times)) (Z.of_nat (length times)))) ∧
  (forall avg, calculateAverage times = Returned avg -> int64_range avg).
Proof.
  destruct times as [| t times].
  - split_and!; [done | by split | done].
  - pose proof (calculateAverage_wraps (t :: times) ltac:(done)) as Hret.
    split_and!.
    + by rewrite Hret.
    + by split.
    + rewrite Hret. intros avg [= <-].
      pose proof (wrap64_range (totalSum (t :: times))) as Hw.
      set (total := wrap64 (totalSum (t :: times))) in *.
      set (n := Z.of_nat (length (t :: times))) in *.
      assert (0 < n) by (subst n; cbn [length]; lia).
      destruct (quot_truncates total n ltac:(done)) as (_ & Hp & Hm).
      set (q := Z.quot total n) in *.
      unfold int64_range, minInt64, maxInt64 in *.
      change (- 2 ^ 63 <= q <= 2 ^ 63 - 1).
      destruct (Z.le_gt_cases 0 total) as [H0 | H0].
      * specialize (Hp H0).
        assert (0 <= q).
        { destruct (Z.le_gt_cases 0 q); [done|].
          assert (n * q <= n * (-1)) by (apply Z.mul_le_mono_nonneg_l; lia).
          lia. }
        assert (0 <= (n - 1) * q) by (apply Z.mul_nonneg_nonneg; lia). lia.
      * assert (total <= 0) as H0' by lia. specialize (Hm H0').
        assert (q <= 0).
        { destruct (Z.le_gt_cases q 0); [done|].
          assert (n * 1 <= n * q) by (apply Z.mul_le_mono_nonneg_l; lia).
          lia. }
        assert (0 <= (n - 1) * (- q)) by (apply Z.mul_nonneg_nonneg; lia). lia.
Qed.

(** ** Durations on a clock that does not run backwards *)

Lemma subMono_nonneg (t u : Z) : u <= t -> 0 <= subMono t u.
Proof.
  intros Hle. unfold subMono. cbv zeta.
  destruct (Z.ltb_spec t u) as [? | _]; [lia|]. rewrite andb_false_r.
  destruct (Z.ltb_spec (wrap64 (t - u)) 0) as [Hneg | ?]; [|by rewrite andb_false_l].
  destruct (Z.ltb_spec u t) as [_ | ?]; [unfold maxInt64; cbn; lia|].
  replace (t - u) with 0 in Hneg by lia. by vm_compute in Hneg.
Qed.

Section Monotonic.
Context {W P : Type}.
Variable B : Backend W P.
Variable clock : W -> Z.
Hypothesis clock_Now :
  forall w, clock w <= (time_Now B w).1 <= clock (time_Now B w).2.
Hypothesis clock_Read : forall w, clock w <= clock (rand_Read B w).2.
Hypothesis clock_Put :
  forall b k d n w, clock w <= clock (PutObject B b k d n w).2.
Hypothesis clock_Get : forall b k w, clock w <= clock (GetObject B b k w).2.
Hypothesis clock_Copy :
  forall p w, clock w <= clock (io_Copy_Discard B p w).2.

Lemma uploadLoop_times_nonneg (bucket : string) (fileSize numFiles : Z)
    (fuel : nat) (data : list Byte.byte) (acc acc' : series) (i : Z) (w w' : W) :
  Forall (Z.le 0) (times acc) ->
  uploadLoop B fuel bucket fileSize numFiles data acc i w = (Returned acc', w') ->
  Forall (Z.le 0) (times acc').
Proof.
  revert data acc i w.
  induction fuel as [| fuel IH]; intros data acc i w Hacc; [done|].
  rewrite uploadLoop_S. destruct (i <=? numFiles); [|by intros [= <- _]].
  rewrite uploadTrial_eq.
  pose proof (clock_Read w) as H1.
  destruct (rand_Read B w) as [fresh w1].
  pose proof (clock_Now w1) as H2.
  destruct (time_Now B w1) as [t0 w2]. cbv zeta.
  match goal with |- context [PutObject B ?b ?k ?d ?n w2] =>
    pose proof (clock_Put b k d n w2) as H3;
    destruct (PutObject B b k d n w2) as [[e |] w3] end; [done|].
  pose proof (clock_Now w3) as H4.
  destruct (time_Now B w3) as [t1 w4]. cbn [fst snd] in *.
  apply IH. cbn [times].
  apply Forall_app. split; [done|].
  constructor; [apply subMono_nonneg; lia | done].
Qed.

Lemma downloadLoop_times_nonneg (bucket : string) (expected numFiles : Z)
    (fuel : nat) (acc acc' : series) (i : Z) (w w' : W) :
  Forall (Z.le 0) (times acc) ->
  downloadLoop B fuel bucket expected numFiles acc i w = (Returned acc', w') ->
  Forall (Z.le 0) (times acc').
Proof.
  revert acc i w.
  induction fuel as [| fuel IH]; intros acc i w Hacc; [done|].
  rewrite downloadLoop_S. destruct (i <=? numFiles); [|by intros [= <- _]].
  rewrite downloadTrial_eq.
  pose proof (clock_Now w) as H1.
  destruct (time_Now B w) as [t0 w1].
  pose proof (clock_Get bucket (objectKey i) w1) as H2.
  destruct (GetObject B bucket (objectKey i) w1) as [[e | payload] w2]; [done|].
  pose proof (clock_Copy payload w2) as H3.
  destruct (io_Copy_Discard B payload w2) as [[sz [e |]] w3]; [done|].
  destruct (sz =? expected); [|done].
  pose proof (clock_Now w3) as H4.
  destruct (time_Now B w3) as [t1 w4]. cbn [fst snd] in *.
  apply IH. cbn [times].
  apply Forall_app. split; [done|].
  constructor; [apply subMono_nonneg; lia | done].
Qed.

Lemma speeds_nonneg (size : Z) (ts : list Duration) :
  0 < size <= maxInt64 -> Forall int64_range ts -> Forall (Z.le 0) ts ->
  Forall (fun f => f = f64_pos_inf ∨ normalF false (-111) 24 f)
         (map (speedMBps size) ts).
Proof.
  intros Hsize Hrange Hpos. apply Forall_fmap.
  rewrite Forall_forall in Hrange, Hpos |- *. intros d Hd. cbn.
  destruct (Z.eq_dec d 0) as [-> | Hne].
  - left. by apply speedMBps_zero_elapsed.
  - right. pose proof (speedMBps_normal size d Hsize (Hrange d Hd) Hne) as Hn.
    replace (d <? 0) with false in Hn; [done|].
    symmetry. apply Z.ltb_ge. by apply Hpos.
Qed.

(** On a clock that no operation sets back, every duration that a phase
    measures is zero or more, however long the trial took (an elapsed time
    beyond the range of a duration counts as the longest duration), and
    for a positive size every speed is a positive normal float64 number or
    +Infinity: no negative time or speed is reported. *)
Theorem measurements_nonnegative (bucket : string) (size numFiles : Z)
    (w w1 v v1 : W) (uploadTimes downloadTimes : list Duration)
    (uploadSpeeds downloadSpeeds : list float64) :
  numFiles < maxInt64 ->
  0 < size <= maxInt64 ->
  uploadFiles B bucket size numFiles w
    = (Returned (uploadTimes, uploadSpeeds), w1) ->
  downloadFiles B bucket size numFiles v
    = (Returned (downloadTimes, downloadSpeeds), v1) ->
  Forall (Z.le 0) uploadTimes ∧ Forall (Z.le 0) downloadTimes ∧
  Forall (fun f => f = f64_pos_inf ∨ normalF false (-111) 24 f) uploadSpeeds ∧
  Forall (fun f => f = f64_pos_inf ∨ normalF false (-111) 24 f) downloadSpeeds.
Proof.
  intros Hn Hsize Hup Hdown.
  assert (Forall (Z.le 0) uploadTimes) as Hut.
  { destruct (uploadFiles_returned B _ _ _ _ _ _ _ Hup)
      as (_ & w2 & acc' & _ & Hloop & -> & _).
    by eapply uploadLoop_times_nonneg; [|exact Hloop]. }
  assert (Forall (Z.le 0) downloadTimes) as Hdt.
  { unfold downloadFiles in Hdown. rewrite bind_run in Hdown.
    destruct (downloadLoop B _ _ _ _ _ _ v) as [[acc' | | | |] v2] eqn:Hloop;
      try done.
    injection Hdown as <- _ _.
    by eapply downloadLoop_times_nonneg; [|exact Hloop]. }
  destruct (uploadFiles_series B _ _ _ _ _ _ _ Hn Hup) as [_ ->].
  destruct (downloadFiles_series B _ _ _ _ _ _ _ Hn Hdown) as [_ ->].
  split; [done|]. split; [done|]. split.
  - apply speeds_nonneg; [done | by eapply uploadFiles_times_range | done].
  - apply speeds_nonneg; [done | by eapply downloadFiles_times_range | done].
Qed.
End Monotonic.

Lemma measurements_nonnegative_witness :
  2 < maxInt64 ∧ 0 < 4 <= maxInt64 ∧
  Forall (Z.le 0) [1000000; 1000000] ∧ Forall (Z.le 0) [1000000; 1000000].
Proof.
  split; [unfold maxInt64; lia|]. split; [unfold maxInt64; lia|].
  destruct (measurements_nonnegative (steadyBackend 4 1000000) (fun w => w)
              ltac:(intros w; cbn; lia) ltac:(intros w; cbn; lia)
              ltac:(intros b k d n w; cbn; lia) ltac:(intros b k w; cbn; lia)
              ltac:(intros p w; cbn; lia)
              "bench" 4 2 0 2000000 0 2000000 [1000000; 1000000]
              [1000000; 1000000]
              (map (speedMBps 4) [1000000; 1000000])
              (map (speedMBps 4) [1000000; 1000000]))
    as (Hut & Hdt & _);
    [unfold maxInt64; lia | unfold maxInt64; lia | vm_compute; reflexivity
    | vm_compute; reflexivity |].
  split; [exact Hut | exact Hdt].
Defined.

(** ** The size flag *)

Lemma fileSizeBytes_exact (flags : Flags) :
  - 2 ^ 43 <= fileSizeMb flags < 2 ^ 43 ->
  fileSizeBytes flags = fileSizeMb flags * 1048576.
Proof.
  intros Hmb. unfold fileSizeBytes. change (1024 * 1024) with 1048576.
  apply wrap64_id. unfold int64_range, minInt64, maxInt64. lia.
Qed.

(** The -fileSize flag is taken in MiB and not checked: up to 2^43 - 1 the
    size in bytes is the flag times 1,048,576, and every file of a run has
    that size.  With complete configuration and a client created, main
    ends in the panic "makeslice: len out of range" of the allocation of
    the buffer exactly when the flag is negative or above 2^28 (a buffer of
    more than 2^48 bytes), before any call to the store; for a flag from 0
    to 2^28 that the allocator cannot serve, main ends out of memory. *)
Theorem fileSize_flag_unchecked {W P : Type} (B : Backend W P)
    (getenv : string -> string) (flags : Flags) (w w0 : W) :
  configured getenv flags = true ->
  minio_New B (endpoint flags) (effectiveAccessKey getenv flags)
            (effectiveSecretKey getenv flags) w = (None, w0) ->
  - 2 ^ 43 <= fileSizeMb flags < 2 ^ 43 ->
  fileSizeBytes flags = fileSizeMb flags * 1048576 ∧
  (fileSizeMb flags < 0 ∨ 2 ^ 28 < fileSizeMb flags ↔
   main B getenv flags w = (Panicked MakesliceLenOutOfRange, w0)) ∧
  (fileSizeMb flags < 0 ∨ 2 ^ 28 < fileSizeMb flags ->
   (main (recording B) getenv flags (w, [])).2.2 = []) ∧
  (0 <= fileSizeMb flags <= 2 ^ 28 ->
   (mallocgc B (fileSizeBytes flags) w0).1 = false ->
   main B getenv flags w
   = (Panicked OutOfMemory, (mallocgc B (fileSizeBytes flags) w0).2)).
Proof.
  intros Hcfg Hnew Hmb.
  pose proof (fileSizeBytes_exact flags Hmb) as Hbytes.
  assert (Hside : fileSizeMb flags < 0 ∨ 2 ^ 28 < fileSizeMb flags ->
                  (fileSizeBytes flags <? 0) || (maxAlloc <? fileSizeBytes flags)
                  = true).
  { intros Hout. unfold maxAlloc. apply orb_true_iff.
    rewrite Z.ltb_lt, Z.ltb_lt. lia. }
  split; [done|]. split_and!; [split|..].
  - intros Hout. by rewrite main_stages, Hcfg, Hnew, uploadFiles_eq, Hside.
  - intros Hrun. rewrite main_stages, Hcfg, Hnew in Hrun.
    destruct (uploadFiles_ending B (bucketName flags) (fileSizeBytes flags)
                (trials flags) w0)
      as [[Hout _] | [_ [[_ Hoom] | [_ Hup]]]].
    + unfold maxAlloc in Hout. lia.
    + by rewrite Hoom in Hrun.
    + destruct (uploadFiles B _ _ _ w0) as [[[ut us] | p | f | c |] w1];
        cbn [fst ending uploadEnding] in Hup; try done.
      pose proof (downloadFiles_ending B (bucketName flags)
                    (fileSizeBytes flags) (trials flags) w1) as Hdown.
      destruct (downloadFiles B _ _ _ w1) as [[[dt ds] | p | f | c |] w2];
        cbn [fst ending downloadEnding] in Hdown; try done.
      injection Hrun as Hstat _.
      pose proof (statistics_ending ut us dt ds) as Hend.
      by rewrite Hstat in Hend.
  - intros Hout. rewrite main_stages, Hcfg.
    cbn [recording minio_New fst snd]. rewrite Hnew.
    by rewrite uploadFiles_eq, Hside.
  - intros Hin Hoom. rewrite main_stages, Hcfg, Hnew, uploadFiles_eq.
    destruct (Z.ltb_spec (fileSizeBytes flags) 0); [lia|].
    destruct (Z.ltb_spec maxAlloc (fileSizeBytes flags));
      [unfold maxAlloc in *; lia|].
    cbn [orb]. destruct (mallocgc B _ w0) as [ok w1]. cbn in Hoom.
    by subst ok.
Qed.

Lemma fileSize_flag_unchecked_witness :
  - 2 ^ 43 <= fileSizeMb (testFlags (-1) 3) < 2 ^ 43 ∧
  fileSizeBytes (testFlags (-1) 3) = -1 * 1048576 ∧
  main (steadyBackend 0 1000000) (fun _ => "") (testFlags (-1) 3) 0
    = (Panicked MakesliceLenOutOfRange, 0).
Proof.
  assert (- 2 ^ 43 <= fileSizeMb (testFlags (-1) 3) < 2 ^ 43) as Hmb
    by (cbn; lia).
  split; [exact Hmb|].
  destruct (fileSize_flag_unchecked (steadyBackend 0 1000000) (fun _ => "")
              (testFlags (-1) 3) 0 0 eq_refl eq_refl Hmb)
    as (Hbytes & Hpanic & _).
  split; [exact Hbytes|]. apply Hpanic. left. cbn. lia.
Defined.

(** A positive flag above 2^28 MiB, and one of 4 TiB, end in the same panic;
    a flag of 2^28 MiB on a machine with 16 GiB ends out of memory. *)
Example fileSize_flag_beyond_allocation :
  main (steadyBackend 0 1000000) (fun _ => "") (testFlags 268435457 3) 0
    = (Panicked MakesliceLenOutOfRange, 0) ∧
  main (steadyBackend 0 1000000) (fun _ => "") (testFlags 4398046511104 0) 0
    = (Panicked MakesliceLenOutOfRange, 0) ∧
  main (steadyBackend 0 1000000) (fun _ => "") (testFlags 268435456 3) 0
    = (Panicked OutOfMemory, 0).
Proof. split_and!; reflexivity. Qed.

(** Beyond 2^43 MiB the multiplication wraps around: a flag of 2^44 gives
    files of no bytes, and a flag of 2^43 a negative size. *)
Example fileSize_flag_overflow :
  fileSizeBytes (testFlags (2 ^ 44) 1) = 0 ∧
  fileSizeBytes (testFlags (2 ^ 43) 1) = minInt64.
Proof. split; reflexivity. Qed.
